(* ===== verification/_CoqProject ===== *)
-Q . S2P
Prelude.v
GoInt.v
GoStrconv.v
GoStrings.v
Stack.v
Ops.v
Eval.v
Defer.v
Slice.v
Package.v
Machine.v
Effect.v
Depth.v
Laws.v
Rpn.v
Parse.v
Tests.v
Session.v
