(* ===== verification/Prelude.v ===== *)
(** * Verification of the [forth] package (src/forth.go, src/file_test.go)

    ** The program

    The package is a stack evaluator for postfix expressions over strings.
    It has three parts, which spec.md calls Stack, Operator Registry and
    Evaluator:
    - the interface [Forth] and its one implementation [forthstack], a Go
      slice of strings with the methods [Push], [Pop], [Length], [Empty] and
      [Reset]; [Pop] on an empty stack panics with the [os.Error]
      "Empty stack";
    - the package-level table [opmap] from names to operators
      ([forthop func(f Forth)]), written by [Newop], and the twelve built-in
      operators: [plus], [sub], [times], [div], [mod], [roundup], [swap],
      [strcat], [dup], [ifelse], [hostname], [hostbase].  The numeric ones
      read their operands with [strconv.Atoi], whose error they drop, and
      write their result with [strconv.Itoa];
    - [Eval], which splits its input on the space character, calls the
      operator a token names or pushes the token, pops the result, and
      through the deferred [errRecover] turns a panic into the error it
      returns.
    src/file_test.go holds the package's test: a table of 16 inputs and the
    function [TestForth].

    ** The files

    - [Prelude] (this file): panic values as [errRecover] tells them apart
      ([panic]); [outcome], a value or a panic; the monad [M S A] of Go code
      that mutates a state [S] and may panic, in which the state reached is
      kept when the code panics; [refines], the simulation of one computation
      by another along an abstraction function; [panics_within], a bound on
      the panic values of a computation; [preserves], a relation between the
      state before and the state after that a computation respects;
      [eventually], what every run of a transition relation reaches, with
      the lemmas of relations that have a decreasing measure; lemmas on strings and on [list_to_map]; the
      tactics [munfold], [mstep] and [walk_tac] and the hint database
      [forth].
    - [GoInt]: Go's [int], an integer [Z] in the range of a width
      [int_bits] that the class [IntSize] fixes to 32 or 64.  [int_add],
      [int_sub], [int_mul] wrap around ([int_wrap]); [int_quo] and [int_rem]
      truncate toward zero ([Z.quot], [Z.rem]) and raise the run-time panic on
      a zero divisor.
    - [GoStrconv]: [Atoi] and [Itoa] as the library computes them, loop by
      loop: the sign, the digits, overflow found at the digit that overflows,
      saturation at the ends of the range; [atoi] is [Atoi] with the error
      dropped, as the operators call it; [reads] is what [Atoi] returns for
      any text, without the loops.
    - [GoStrings]: [Split] on a one-byte separator and [TrimLeft] byte by
      byte, with [Join] and the round trips between them.
    - [Stack]: the class [Forth] (the interface), the record [forthstack] and
      its methods ([forthstack_Push] and the like, src/forth.go:41-76), the
      abstract stack [lifo] of spec.md section 4.1 (a list, top at the head),
      and the class [ForthLaws]: what an implementation owes its clients, an
      abstraction function [contents] along which every method refines that of
      [lifo].  The slice keeps the top at its END: [contents f] is
      [reverse (stack f)].
    - [Ops]: each operator of src/forth.go:108-191 call by call, generic in
      the implementation of [Forth]; [opmap] as a [gmap] from names to
      [forthop F] (an operator or nil); [Newop] as the insertion it performs;
      a reference definition [X_spec] of every operator's stack effect on
      [lifo], all branches included; the environment class [HostEnv] for
      [os.Hostname].
    - [Eval]: [errRecover] as a function of the value recovered;
      [eval_token], [eval_loop], [eval_body] and [Eval] (src/forth.go:89-106),
      with the table a parameter: its value when [Eval] is called.  Beside
      them the specification of a call: [Eval_spec], a function on the list
      of the values on the stack, built from the reference definitions of
      the operators ([Ops.specs]) and written without the interface, the
      monad or the table of the code.  [Eval_spec], [Ops.X_spec] and
      [Eval_return] (the case table that [Eval_unfold] derives from
      [errRecover]) translate no line of the source; they are what the
      theorems compare the code with.
    - [Defer]: the rules of the run time for [defer], [panic] and
      [recover] in a function with named results.  The body works on a
      [frame] (state, named results, deferred calls); [defer] pushes a call;
      when the body is left the deferred calls run last deferred first
      ([unwind]), each on the state, the named results and the panic on its
      way ([unwinding]); [recover] returns that panic and stops it; a panic
      of a deferred call takes its place; [invoke] is the call.  [Eval_func]
      is [Eval] in these terms, statement by statement, with
      [errRecover_deferred] the deferred [errRecover(&err)].
    - [Slice]: the methods of [forthstack] on a Go slice as the language
      has it ([slicestack]): [elems] are the cells below the length, [room]
      the cells of the array between the length and the capacity; [append]
      writes into the room or allocates an array of the capacity the run time
      chooses ([SliceGrowth]); [index] and [reslice] are the index and the
      slice expressions with their bounds checks.
    - [Package]: the same function with the table where the source has it.
      The state is whatever an operator can reach, the table included (class
      [Package], [pkg_opmap w] is the variable [opmap] in the state [w]);
      [eval_token_pkg] reads the table in the state it is in, at every token
      ([fun := opmap[val]]), so an operator that calls [Newop] changes what
      the tokens after it mean; [Eval_pkg] is [Eval] over that loop.
    - [Machine]: the same call of [Eval] as a transition system.  A
      configuration ([config]) says where the control is: at the head of the
      loop with the tokens left, at the deferred call, back in the caller, or
      unwinding it.  [eval_step] has one rule for each statement ([continue],
      [fun(f)], [f.Push(val)], [ret = f.Pop()], the deferred
      [errRecover(&err)]); [eval_exec] computes the successor and [eval_run]
      iterates it.
    - [Effect]: the depth check for any table.  A table of effects gives,
      for a name, the number of values its operator pops and pushes; the
      judgment [typed effs vals n m] (on a stack of [n] values the tokens
      [vals] find their operands and leave [m] values) and its checker
      [check]; [has_effect fn e], what an operator owes to be given the
      effect [e]; [declared] and [table_declared], a table whose operators
      have the effects of a table of effects.  No branch of the loop depends
      on a value, so the depth of the stack, and with it the error
      "Empty stack", is known before the call.
    - [Depth]: the effects of the twelve built-in operators
      ([builtin_effects], [effects]) and the depth check for [Ops.opmap] and
      for the tables that [Newop] makes of it.
    - [Laws]: equations between inputs.  [same_at n vals1 vals2]: on every
      stack of at least [n] values the loop of [Eval] over the tokens
      [vals1] and over [vals2] ends alike.
    - [Rpn]: arithmetic expressions ([expr]), their value on [int]
      ([denote]) and on the integers ([value]), their postfix text ([print]).
    - [Parse]: inputs read back as expressions.  [parse] runs the loop of
      [Eval] on a stack of expressions: an empty token is skipped, an
      operator takes its operands from the stack, a numeral is a leaf.
    - [Tests]: the table [forthTests] and [TestForth], which counts the
      failures it records.
    - [Session]: the package as a client drives it.  The state [world] is
      the package-level table together with the stacks made by [New]; a
      [call] is a function of the API addressed to a stack; [do_call] runs
      it, [step] is the same as a relation with one rule for each function,
      and [session] holds the worlds that sequences of calls lead to.  Here
      [Newop] is what it is in the source: a method of any stack that writes
      the one table.  The client is no code of the package: [world],
      [do_call] and [step] stand for any program that calls it, around the
      methods and [Eval] as the other files have them.

    ** The theorems

    - Stack: [forthstack] refines [lifo] ([forthstack_implements_lifo]);
      [Pop]'s index is always in range; [Push] then [Pop] restores the slice;
      [Pop] on the empty stack panics with "Empty stack" and changes nothing;
      [Reset] empties; [Length] counts.
    - Operators: every operator implements its reference definition over any
      lawful implementation ([plus_correct] and the like), and the table
      binds each of the twelve names to the operator of that name and holds
      nothing else ([opmap_implements_specs]); on numerals the
      arithmetic operators compute sum, truncated quotient, remainder and
      least multiple ([plus_numerals], [div_numerals], [mod_numerals],
      [roundup_rounds_up]); [plus] wraps around without an error
      ([plus_wraps]); a divisor that reads as 0 crashes ([div_by_zero]);
      [Atoi] returns, for every text, the positional value of a numeral
      clamped to [int], and 0 or a bound for anything else ([Atoi_reads]),
      so [plus] on any two texts leaves the wrapped sum of what they read as
      ([plus_reads]); a built-in operator acts on the state through [Push]
      and [Pop] only ([builtins_preserve]).
    - Registry: the last registration wins; registering a name changes
      nothing for inputs without it ([Eval_Newop_frame]); a registered
      operator is the one called ([Eval_Newop_call]).
    - Evaluator: the ways out of [Eval] ([Eval_outcomes]: a result, the
      error "Empty stack", or a run-time panic; a division by zero and an
      unknown host name are never returned as errors); on every lawful
      implementation of the stack, for every input and from every stack,
      [Eval] with the initial table returns or panics with what [Eval_spec]
      gives on the contents, and leaves the contents it leaves
      ([Eval_implements_spec]); the same holds between any two tables whose
      operators refine one another ([eval_body_refines],
      [Eval_refines_body]); the empty input; literals; empty tokens are
      skipped and the test [val == " "] is dead; a panic stops the loop; the
      numeral of every [int] goes through [Eval] and is read back as the
      same [int] ([Eval_Itoa_roundtrip]).
    - Run time: [Eval] written with its [defer] statement and called by the
      rules of [defer], [panic] and [recover] is [Eval.Eval]
      ([Eval_func_invoke]); what a function that defers [errRecover] gives
      its caller, for any body ([errRecover_boundary]); a function that
      defers nothing returns or panics as its body does
      ([invoke_defers_nothing]); deferred calls run last deferred first
      ([invoke_defer_order]); a deferred call that only recovers stops every
      panic ([invoke_recover]); the step of [Machine] out of the deferred
      call is the rule of the run time ([after_defer_leave]).
    - Slice: the methods on the slice implement the methods on the list of
      its elements, and no bounds check fails
      ([slicestack_implements_forthstack]), so [slicestack] is one more
      lawful implementation ([slicestack_Laws]); [Pop] and [Reset] keep the
      array, with the value popped still in its cell, [Pop] panics on the
      empty slice only and then with "Empty stack", [Push] writes the cell
      behind the elements and allocates only when the slice is full
      ([slicestack_array]); [Eval] on the slice is [Eval] on the list
      ([Eval_slicestack]).
    - Package: the evaluator that reads the variable at every token is the
      evaluator with the table as a parameter when the operators the input
      names leave the table alone ([Eval_pkg_stable]); no built-in operator
      writes it, so with the initial table the two agree on every input
      ([Eval_pkg_opmap]); in a state with an operator that registers another
      they differ ([Eval_pkg_sees_Newop]).  This is what allows the other
      files to take the table as a parameter.
    - Machine: at most one step from every configuration, and none only out
      of the function ([eval_step_functional]); every step lowers the
      statements left, so no run is infinite ([machine_terminates]) and a run
      has at most three steps more than the input has bytes
      ([machine_step_bound]); every run from the start of a call reaches the
      result of [Eval.Eval] ([machine_reaches_Eval]), which [eval_run]
      computes with a unit of fuel for each statement ([eval_run_Eval]); an
      error is never returned together with a result ([machine_invariant], by
      induction on the run).
    - Depth: a call that checks never returns the error "Empty stack" and
      leaves the depth that was computed ([typed_Eval_no_error]); a call that
      returns a result checks ([Eval_Done_typed]); a call reads and writes
      only the values the check says it needs ([Eval_frame]); after the
      error "Empty stack" the stack is empty ([Eval_error_empties]); for an
      input without a division and without [hostname] the check decides
      between a result and the error ([Eval_check_decides]).  The effect of
      one operator after another is the composition of their effects
      ([has_effect_seq]); registering an operator that has an effect keeps a
      table declared ([Newop_declared]); and the check is sound for every
      declared table ([Eval_sound_table], [typed_Eval_declared]).
    - Laws: the operators satisfy equations between inputs
      ([operator_laws]: "swap +" is "+", "dup +" is "2 *", "swap swap" does
      nothing on two values, "0 ifelse" drops a value, and the like), which
      hold on every stack that has the values the tokens remove, operands
      that are no numerals and sums that wrap around included; an equation
      can be used after any tokens that leave enough values by the depth
      check and before any others, in an input of [Eval] on any lawful stack
      ([same_at_app_l], [same_at_app_r], [Eval_same_at]).
    - Expressions: [Eval] returns the numeral of [denote e] on [print e] and
      leaves the stack as it was ([Eval_print_value]); it panics when a
      divisor is 0 ([Eval_print_div_by_zero]); without overflow the result is
      the exact value ([Eval_print_exact]).  [parse] inverts [print]
      ([parse_print]), an input that [parse] reads is the text of the
      expression with more spaces ([parse_sound]), and on every such input
      [Eval] returns the numeral of the value or panics on a zero divisor
      ([Eval_parse]); every such input passes the depth check with one value
      more than it found ([parse_typed]).
    - Tests: [TestForth] records no failure with either width of [int] on a
      host whose name can be read ([TestForth_passes]), and crashes when it
      cannot ([TestForth_crashes]); for any entry, the checks of the stack
      after it fail exactly when the evaluation returned a result for an
      input that does not check with a final depth of one
      ([run_test_stack_checks]).
    - Sessions: [step] and [do_call] agree ([step_do_call]); the table of a
      session is the one its [Newop] calls build ([session_opmap]); a call
      changes no stack but the one addressed ([step_frame]); an operator
      registered through one stack is called by [Eval] on every other
      ([Newop_reaches_every_stack]); in a session without [Newop] every
      [Eval] has the ways out of the initial table
      ([session_Eval_ways_out]); in a session of calls that cannot leave a
      value behind ([tidy]: no [Push], no [Newop], inputs that cannot crash
      and leave at most their result) every stack is empty after every call
      and no [Eval] panics ([tidy_session_empty], by induction on the
      session); in a session whose [Newop] calls register operators that have
      an effect, the table always has a table of effects under which the
      depth check is sound ([declared_session_sound]).
    Each property that has hypotheses is applied to a concrete input by a
    lemma named after it ([..._witness]), with a 64-bit [int] unless said
    otherwise and the slice implementation.

    ** Bounds and fuel

    - [int] is 32 or 64 bits wide, as the Go compilers of the time make it;
      nothing depends on which, and the theorems hold for both.
    - [Itoa] writes into a buffer of 64 bytes; its digit loop takes that as
      fuel.  A 64-bit value has at most 20 decimal digits, so the fuel is
      never used up ([uitoa_loop_fuel]).  [Atoi]'s loop is structural in the
      string.  [Split], [TrimLeft] and the evaluation loop are structural in
      their input: every definition is total.
    - [eval_run n] takes at most [n] steps.  A call on the input [s] has one
      step for each string of [Split s " "], one for the final [Pop] and one
      for the deferred call: [length (Split s " ") + 2] units are enough
      ([eval_run_Eval]), and that is at most [String.length s + 3].  The
      relation [eval_step] needs no fuel; its termination is a theorem.
    - The depth check counts values in [nat]; it is exact, with no bound on
      the depth of the stack.

    ** What is not modelled

    - The capacity that [append] gives a new array is a parameter
      ([SliceGrowth]): it belongs to the run time, and no theorem depends on
      it.  The slice starts where its array starts, since the methods slice
      from index 0 only.
    - An operator that writes the table (calls [Newop]) while [Eval] runs is
      modelled in [Package] only.  In the other files a [forthop F] acts on
      the stack, which [Eval_pkg_opmap] shows is enough for the built-in
      table; between evaluations the table changes as [Session] says.
    - An operator that calls [Eval] on the table that holds it: the
      operators of a [Package] are functions of the state that are defined
      before its table is.
    - An operator that does not return: an operator is a total function of
      the stack, as the twelve built-in ones are.  The termination and
      liveness theorems of [Machine] are about the loop of [Eval]; a Go
      function registered with [Newop] that loops makes [Eval] loop, and has
      no counterpart here.
    - The depth check is for operators that pop and push a fixed number of
      values ([Effect.has_effect]), as the built-in ones do.  An operator
      whose effect on the depth depends on a value (one that pops as many
      values as the top of the stack says) has no effect in this sense, and
      a table that holds one is not [Effect.declared].
    - Concurrency.  The package starts no goroutine and has no
      synchronisation, and spec.md lists concurrency as a non-goal: section
      5 asks the caller for one stack for each evaluation or for a lock
      around the call.  There is no code to translate, so the development
      is about one thread of control; in [Session] the calls of a client
      are taken one after the other.
    - [os.Hostname] itself: its result is the parameter [HostEnv], the same
      at every call.
    - The method [Newop] is not a member of the class [Forth]: it writes
      the table and not the stack, so it is [Ops.Newop] on the table and a
      call through a stack in [Session].
    - Of the run time: [recover] called outside a deferred call (it returns
      nil), [runtime.Goexit], and a deferred call that defers another into
      the frame that is being left.  [Defer] has the rules for a body that
      defers calls and is left by its end or by a panic, which is what the
      source uses.
    - Strings are sequences of bytes; [TrimLeft]'s cutset is ASCII, so bytes
      and runes agree on it.
    - The output of [fmt.Printf] in the test. *)

From Stdlib Require Export Ascii ZArith Lia.
From stdpp Require Export base option list strings relations gmap.

#[global] Open Scope Z_scope.

(** ** Panics

    Go's [panic(v)] carries an arbitrary value.  src/forth.go raises three
    kinds of values, which [errRecover] (src/forth.go:78-86) tells apart by
    their dynamic type:
    - an [os.Error] built by [os.NewError] ([Pop] on an empty stack),
    - a [runtime.Error] raised by the Go runtime (integer division by zero,
      a failed type assertion, an index or the bounds of a slice expression
      out of range),
    - a plain [string] ([hostname] when the host name is unknown). *)

Inductive runtime_error : Type :=
| DivideByZero
| IndexOutOfRange
| SliceOutOfRange
| TypeAssertionFailed.

Inductive panic : Type :=
| PanicError (msg : string)
| PanicRuntime (e : runtime_error)
| PanicString (v : string).

#[global] Instance runtime_error_eq_dec : EqDecision runtime_error.
Proof. solve_decision. Defined.

#[global] Instance panic_eq_dec : EqDecision panic.
Proof. solve_decision. Defined.

(** ** Outcomes: a value, or a panic that unwinds the call. *)

Inductive outcome (A : Type) : Type :=
| Done (a : A)
| Panicked (p : panic).
Arguments Done {A} a.
Arguments Panicked {A} p.

#[global] Instance outcome_eq_dec `{EqDecision A} : EqDecision (outcome A).
Proof. solve_decision. Defined.

Definition is_Done {A} (o : outcome A) : bool :=
  match o with Done _ => true | Panicked _ => false end.

#[global] Instance outcome_ret : MRet outcome := λ A a, Done a.

#[global] Instance outcome_bind : MBind outcome := λ A B f o,
  match o with
  | Done a => f a
  | Panicked p => Panicked p
  end.

#[global] Instance outcome_fmap : FMap outcome := λ A B f o,
  match o with
  | Done a => Done (f a)
  | Panicked p => Panicked p
  end.

(** ** The monad of stateful Go code that may panic

    A Go function that mutates an object of type [S] and may panic is a
    function from the state before the call to the state at the point where
    the call returned or panicked, paired with the outcome.  The state is
    kept on a panic: whatever was mutated before the panic stays mutated. *)

Definition M (S A : Type) : Type := S → S * outcome A.

#[global] Instance M_ret {S} : MRet (M S) := λ A a s, (s, Done a).

#[global] Instance M_bind {S} : MBind (M S) := λ A B f m s,
  match m s with
  | (s', Done a) => f a s'
  | (s', Panicked p) => (s', Panicked p)
  end.

Definition Mpanic {S A} (p : panic) : M S A := λ s, (s, Panicked p).

Definition Mlift {S A} (o : outcome A) : M S A := λ s, (s, o).

Definition Mgets {S A} (f : S → A) : M S A := λ s, (s, Done (f s)).

Definition Mmodify {S} (f : S → S) : M S unit := λ s, (f s, Done tt).

(** Pointwise equality of computations, the equivalence the monad laws
    hold for without function extensionality. *)

#[global] Instance M_equiv {S A} : Equiv (M S A) := λ m1 m2, ∀ s, m1 s = m2 s.

#[global] Instance M_equivalence {S A} : Equivalence (≡@{M S A}).
Proof.
  split; [by intros m s | by intros m1 m2 E s | ].
  intros m1 m2 m3 E1 E2 s. by rewrite E1.
Qed.

#[global] Instance M_bind_proper {S A B} :
  Proper (pointwise_relation A (≡) ==> (≡) ==> (≡)) (mbind (M := M S) (A := A) (B := B)).
Proof.
  intros f g Efg m1 m2 Em s. unfold mbind, M_bind. rewrite Em.
  destruct (m2 s) as [s' [a|p]]; [apply Efg | done].
Qed.

(** ** Tactics *)

(** [munfold] exposes the state passing of a monadic term. *)
Ltac munfold :=
  unfold mbind, M_bind, mret, M_ret, Mpanic, Mlift, Mgets, Mmodify in *.

(** [mstep] runs a computation whose next call has a known result. *)
Ltac mstep := munfold; simpl in *; simplify_eq/=.

(** [walk_tac bind leaf] walks a computation built from calls, binds, [let]s
    and tests: [bind] splits a bind into the first computation and what
    follows it, [leaf] closes a call or a return, and the tests are split
    into their cases. *)
Ltac walk_tac bind leaf :=
  repeat first
    [ bind; [|intros ?]
    | leaf
    | progress cbv zeta
    | case_match
    | case_decide ].

Create HintDb forth discriminated.
Create Rewrite HintDb forth.

(** ** Monad laws (pointwise) *)

Lemma M_left_id {S A B} (a : A) (f : A → M S B) : mret a ≫= f ≡ f a.
Proof. by intros s. Qed.

Lemma M_right_id {S A} (m : M S A) : m ≫= mret ≡ m.
Proof. intros s. munfold. by destruct (m s) as [s' [a|p]]. Qed.

Lemma M_right_id_tt {S} (m : M S unit) : (m;; mret tt) ≡ m.
Proof. intros s. munfold. by destruct (m s) as [s' [[]|p]]. Qed.

Lemma M_assoc {S A B C} (m : M S A) (f : A → M S B) (g : B → M S C) :
  (m ≫= f) ≫= g ≡ m ≫= (λ a, f a ≫= g).
Proof. intros s. munfold. by destruct (m s) as [s' [a|p]]. Qed.

Lemma M_panic_bind {S A B} (p : panic) (f : A → M S B) : Mpanic p ≫= f ≡ Mpanic p.
Proof. by intros s. Qed.

(** ** Strings as byte sequences

    A Go [string] is a sequence of bytes; it is modelled by [string], a list
    of [ascii] (8-bit) characters.  [s +:+ t] is Go's [s + t]. *)

Definition byte_val (c : ascii) : Z := Z.of_N (Ascii.N_of_ascii c).

Fixpoint string_forallb (p : ascii → bool) (s : string) : bool :=
  match s with
  | EmptyString => true
  | String c s' => p c && string_forallb p s'
  end.

Lemma string_app_nil_l s : "" +:+ s = s.
Proof. done. Qed.

Lemma string_app_cons c s t : String c s +:+ t = String c (s +:+ t).
Proof. done. Qed.

Lemma string_app_nil_r s : s +:+ "" = s.
Proof. induction s as [|c s IH]; [done|]. by rewrite string_app_cons, IH. Qed.

Lemma string_app_assoc s t u : (s +:+ t) +:+ u = s +:+ (t +:+ u).
Proof. induction s as [|c s IH]; [done|]. by rewrite !string_app_cons, IH. Qed.

Lemma string_app_eq_nil s t : s +:+ t = "" → s = "" ∧ t = "".
Proof. by destruct s. Qed.

Lemma string_length_app s t :
  String.length (s +:+ t) = (String.length s + String.length t)%nat.
Proof. induction s as [|c s IH]; [done|]. rewrite string_app_cons. simpl. by rewrite IH. Qed.

Lemma string_forallb_app p s t :
  string_forallb p (s +:+ t) = string_forallb p s && string_forallb p t.
Proof.
  induction s as [|c s IH]; [done|].
  rewrite string_app_cons. simpl. by rewrite IH, andb_assoc.
Qed.

Lemma string_forallb_impl (p q : ascii → bool) s :
  (∀ c, p c → q c) → string_forallb p s → string_forallb q s.
Proof.
  intros Hpq. induction s as [|c s IH]; [done|]. simpl.
  intros [Hc Hs]%andb_prop_elim. apply andb_prop_intro. auto.
Qed.

Lemma byte_val_range c : 0 ≤ byte_val c < 256.
Proof.
  unfold byte_val. pose proof (Ascii.N_ascii_bounded c). lia.
Qed.

#[export] Hint Rewrite string_app_nil_l string_app_cons string_app_nil_r
  string_app_assoc string_forallb_app : forth.

(** ** Refinement of computations along an abstraction function

    [refines abs m spec]: run from any state [s], the computation [m] ends
    with the outcome that [spec] has from the abstract state [abs s], in a
    state whose abstraction is the state [spec] ends in.  Panics are outcomes:
    a refinement panics exactly when its specification does, with the same
    value, and with the state abstraction preserved up to the panic. *)

Definition refines {S T A} (abs : S → T) (m : M S A) (spec : M T A) : Prop :=
  ∀ s, prod_map abs id (m s) = spec (abs s).

Lemma refines_ret {S T A} (abs : S → T) (a : A) : refines abs (mret a) (mret a).
Proof. done. Qed.

Lemma refines_panic {S T A} (abs : S → T) (p : panic) :
  refines abs (Mpanic (A := A) p) (Mpanic p).
Proof. done. Qed.

Lemma refines_lift {S T A} (abs : S → T) (o : outcome A) :
  refines abs (Mlift o) (Mlift o).
Proof. done. Qed.

Lemma refines_bind {S T A B} (abs : S → T) (m : M S A) (spec : M T A)
    (f : A → M S B) (g : A → M T B) :
  refines abs m spec → (∀ a, refines abs (f a) (g a)) →
  refines abs (m ≫= f) (spec ≫= g).
Proof.
  intros Hm Hf s. specialize (Hm s). munfold.
  destruct (m s) as [s' [a|p]]; simpl in Hm; rewrite <- Hm; [apply Hf | done].
Qed.

Lemma refines_id {S A} (m : M S A) : refines id m m.
Proof. intros s. change (m (id s)) with (m s). by destruct (m s). Qed.

(** What a refinement gives at a state: the outcome of the specification,
    and a final state that abstracts to the specification's. *)
Lemma refines_run {S T A} (abs : S → T) (m : M S A) (spec : M T A) s t o :
  refines abs m spec → spec (abs s) = (t, o) →
  ∃ s', m s = (s', o) ∧ abs s' = t.
Proof.
  intros Hm Hs. specialize (Hm s). rewrite Hs in Hm.
  destruct (m s) as [s' o']. simplify_eq/=. eauto.
Qed.

#[export] Hint Resolve refines_ret refines_panic refines_lift refines_bind
  refines_id : forth.

#[global] Instance refines_proper {S T A} (abs : S → T) :
  Proper ((≡) ==> (≡) ==> iff) (refines (A := A) abs).
Proof.
  intros m1 m2 Em s1 s2 Es. unfold refines.
  split; intros Hr s; [rewrite <- Em, <- Es | rewrite Em, Es]; apply Hr.
Qed.

(** [refines_run] through a reference definition that the specification is
    pointwise equal to. *)
Lemma refines_run_equiv {S T A} (abs : S → T) (m : M S A) (m' spec : M T A) s t o :
  refines abs m m' → m' ≡ spec → spec (abs s) = (t, o) →
  ∃ s', m s = (s', o) ∧ abs s' = t.
Proof. intros Hm Hs Ht. eapply refines_run; [done|]. by rewrite Hs. Qed.

(** ** Tables built from lists of entries *)

(** Relations between optional values compose. *)
Lemma option_Forall2_compose {A B C} (R : A → B → Prop) (S : B → C → Prop)
    (T : A → C → Prop) (oa : option A) (ob : option B) (oc : option C) :
  option_Forall2 R oa ob → option_Forall2 S ob oc →
  (∀ a b c, R a b → S b c → T a c) → option_Forall2 T oa oc.
Proof.
  intros [a b Hab|] Hbc HT; inversion Hbc; subst; constructor. by eapply HT.
Qed.

(** Two tables built from lists with the same keys and related values have
    related values under every key. *)
Lemma list_to_map_Forall2 {A B} (R : A → B → Prop)
    (l : list (string * A)) (l' : list (string * B)) (k : string) :
  Forall2 (λ a b, a.1 = b.1 ∧ R a.2 b.2) l l' →
  option_Forall2 R
    (list_to_map (M := gmap string A) l !! k)
    (list_to_map (M := gmap string B) l' !! k).
Proof.
  induction 1 as [|[n a] [n' b] l l' [Hn HR] _ IH]; simpl in *.
  - rewrite !lookup_empty. constructor.
  - subst n'. rewrite !lookup_insert. case_decide; [by constructor | done].
Qed.

(** A property of every value of a list of entries holds of every value of
    the table built from it. *)
Lemma list_to_map_Forall {A} (P : A → Prop) (l : list (string * A)) k a :
  Forall (λ e, P e.2) l → list_to_map (M := gmap string A) l !! k = Some a → P a.
Proof.
  induction 1 as [|[n b] l Hb _ IH]; simpl; [by rewrite lookup_empty|].
  rewrite lookup_insert. case_decide; [by intros [= <-] | done].
Qed.

(** The same for a property that depends on the key. *)
Lemma list_to_map_Forall_key {A} (P : string → A → Prop)
    (l : list (string * A)) k a :
  Forall (λ e, P e.1 e.2) l → list_to_map (M := gmap string A) l !! k = Some a → P k a.
Proof.
  induction 1 as [|[n b] l Hb _ IH]; simpl; [by rewrite lookup_empty|].
  rewrite lookup_insert. case_decide; [by intros [= <-]; subst | done].
Qed.

(** ** The panics a computation can raise

    [panics_within P m]: whatever the state, a panic of [m] carries a value
    that satisfies [P]. *)

Definition panics_within {S A} (P : panic → Prop) (m : M S A) : Prop :=
  ∀ s s' p, m s = (s', Panicked p) → P p.

Lemma panics_within_ret {S A} P (a : A) : panics_within (S := S) P (mret a).
Proof. by intros s s' p. Qed.

Lemma panics_within_panic {S A} (P : panic → Prop) p :
  P p → panics_within (S := S) (A := A) P (Mpanic p).
Proof. intros Hp s s' p' [= _ <-]. done. Qed.

Lemma panics_within_lift {S A} (P : panic → Prop) (o : outcome A) :
  (∀ p, o = Panicked p → P p) → panics_within (S := S) P (Mlift o).
Proof. intros Hp s s' p' [= _ ->]. by apply Hp. Qed.

Lemma panics_within_bind {S A B} P (m : M S A) (f : A → M S B) :
  panics_within P m → (∀ a, panics_within P (f a)) → panics_within P (m ≫= f).
Proof.
  intros Hm Hf s s' p. munfold. destruct (m s) as [s1 [a|p1]] eqn:E.
  - apply Hf.
  - intros [= _ <-]. by eapply Hm.
Qed.

Lemma panics_within_mono {S A} (P Q : panic → Prop) (m : M S A) :
  (∀ p, P p → Q p) → panics_within P m → panics_within Q m.
Proof. intros HPQ Hm s s' p Hp. eapply HPQ, Hm, Hp. Qed.

(** ** The relations a computation respects

    [preserves R m]: the state in which [m] returns or panics is related by
    [R] to the state it started in.  For a reflexive and transitive [R] (an
    invariant, a quantity that does not decrease, a part of the state that
    does not change) the computations that respect [R] are closed under the
    operations of the monad. *)

Definition preserves {S A} (R : relation S) (m : M S A) : Prop :=
  ∀ s, R s (m s).1.

Section Preserves.
Context {S : Type} (R : relation S) `{!PreOrder R}.

Lemma preserves_ret {A} (a : A) : preserves R (mret a).
Proof. by intros s. Qed.

Lemma preserves_panic {A} p : preserves R (Mpanic (A := A) p).
Proof. by intros s. Qed.

Lemma preserves_lift {A} (o : outcome A) : preserves R (Mlift o).
Proof. by intros s. Qed.

Lemma preserves_gets {A} (f : S → A) : preserves R (Mgets f).
Proof. by intros s. Qed.

Lemma preserves_bind {A B} (m : M S A) (f : A → M S B) :
  preserves R m → (∀ a, preserves R (f a)) → preserves R (m ≫= f).
Proof.
  intros Hm Hf s. munfold. specialize (Hm s).
  destruct (m s) as [s1 [a|p]]; [|done]. by etrans; [|apply Hf].
Qed.

End Preserves.

(** [preserves_tac] shows that a computation respects a relation which the
    calls it makes respect, by the hypotheses at hand. *)
Ltac preserves_tac :=
  lazymatch goal with
  | |- preserves ?R _ =>
    walk_tac ltac:(apply (preserves_bind R))
             ltac:(first [ apply (preserves_ret R) | apply (preserves_panic R)
                         | apply (preserves_lift R) | apply (preserves_gets R)
                         | solve [auto] ])
  end.

(** A composition of refinements is a refinement. *)
Lemma refines_compose {S T U A} (abs1 : S → T) (abs2 : T → U)
    (m1 : M S A) (m2 : M T A) (m3 : M U A) :
  refines abs1 m1 m2 → refines abs2 m2 m3 → refines (abs2 ∘ abs1) m1 m3.
Proof.
  intros H1 H2 s. unfold compose. rewrite <- (H2 (abs1 s)), <- (H1 s).
  by destruct (m1 s).
Qed.

(** ** Runs of a transition relation

    A machine is a relation [R] between configurations.  stdpp gives its
    finite runs ([rtc], [nsteps]), the configurations with a successor
    ([red]) and the absence of infinite runs ([sn]).  [eventually R P a]:
    every run from [a] reaches a configuration that satisfies [P], and no run
    is stuck before it does. *)

Section Runs.
Context {A : Type} (R : relation A).

Inductive eventually (P : A → Prop) : A → Prop :=
| eventually_now a : P a → eventually P a
| eventually_step a :
    red R a → (∀ a', R a a' → eventually P a') → eventually P a.

Lemma eventually_mono (P Q : A → Prop) a :
  (∀ a, P a → Q a) → eventually P a → eventually Q a.
Proof.
  intros HPQ. induction 1 as [a Ha | a Hred _ IH];
    [by apply eventually_now, HPQ | by apply eventually_step].
Qed.

(** What is reached on every run is reached on some run. *)
Lemma eventually_rtc P a : eventually P a → ∃ a', rtc R a a' ∧ P a'.
Proof.
  induction 1 as [a Ha | a [a1 Ha1] _ IH]; [by exists a|].
  destruct (IH a1 Ha1) as (a' & Hrun & Ha'). exists a'. split; [|done].
  by eapply rtc_l.
Qed.

(** A run of a deterministic machine is the only one. *)
Lemma rtc_eventually a a' :
  deterministic R → rtc R a a' → eventually (eq a') a.
Proof.
  intros Hdet. induction 1 as [a | a a1 a' Ha1 _ IH]; [by apply eventually_now|].
  apply eventually_step; [by exists a1|].
  intros a2 Ha2. by rewrite (Hdet _ _ _ Ha2 Ha1).
Qed.

(** *** Machines with a measure that every step decreases *)

Section Measure.
Context (size : A → nat) (Hsize : ∀ a a', R a a' → (size a' < size a)%nat).

Lemma measure_sn a : sn R a.
Proof.
  remember (size a) as n eqn:En. revert a En.
  induction (lt_wf n) as [n _ IH]. intros a ->.
  constructor. intros a' Ha'. by eapply IH; [apply Hsize, Ha'|].
Qed.

(** A run is no longer than the measure of its first configuration. *)
Lemma measure_nsteps n a a' : nsteps R n a a' → (n + size a' ≤ size a)%nat.
Proof.
  induction 1 as [a | n a a1 a' Ha1 _ IH]; [done|].
  apply Hsize in Ha1. lia.
Qed.

(** When every configuration outside [P] has a successor, every run
    reaches [P]. *)
Lemma measure_eventually (P : A → Prop) :
  (∀ a, P a ∨ red R a) → ∀ a, eventually P a.
Proof.
  intros Hprog a. induction (measure_sn a) as [a _ IH].
  destruct (Hprog a) as [Ha | Hred]; [by apply eventually_now|].
  by apply eventually_step.
Qed.

End Measure.
End Runs.
