(* ===== verification/GoInt.v ===== *)
(** * GoInt: the machine integers of the arithmetic operators

    The operators [plus], [times], [sub], [div], [mod] and [roundup] of
    src/forth.go compute on Go's [int]: a two's-complement integer of 32 or
    64 bits, depending on the platform.  Values are kept as [Z] together with
    the width; every operation writes out its wrap-around.  Division and
    remainder truncate toward zero ([Z.quot], [Z.rem]) and panic with a
    [runtime.Error] when the divisor is zero. *)

From S2P Require Import Prelude.

(** The width of [int]: 32 or 64 bits. *)
Class IntSize : Type := {
  int_bits : Z;
  int_bits_cases : int_bits = 32 ∨ int_bits = 64
}.

Definition int32 : IntSize :=
  {| int_bits := 32; int_bits_cases := or_introl eq_refl |}.

Definition int64 : IntSize :=
  {| int_bits := 64; int_bits_cases := or_intror eq_refl |}.

Section GoInt.
Context `{IntSize}.

Definition int_modulus : Z := 2 ^ int_bits.

Definition MinInt : Z := - 2 ^ (int_bits - 1).

Definition MaxInt : Z := 2 ^ (int_bits - 1) - 1.

(** [is_int z]: [z] is a value of type [int]. *)
Definition is_int (z : Z) : Prop := MinInt ≤ z ≤ MaxInt.

#[global] Instance is_int_dec z : Decision (is_int z).
Proof. unfold is_int. apply _. Defined.

(** The value an [int] holds after an operation whose mathematical result is
    [z]: the representative of [z] modulo [2 ^ int_bits] in the signed range. *)
Definition int_wrap (z : Z) : Z := (z - MinInt) `mod` int_modulus + MinInt.

(** Saturation to the range of [int], as [strconv.Atoi] does on a numeral
    that is out of range. *)
Definition int_clamp (z : Z) : Z := Z.max MinInt (Z.min MaxInt z).

(** [z := x + y] *)
Definition int_add (x y : Z) : Z := int_wrap (x + y).

(** [z := y - x] is [int_sub y x]. *)
Definition int_sub (x y : Z) : Z := int_wrap (x - y).

(** [z := x * y] *)
Definition int_mul (x y : Z) : Z := int_wrap (x * y).

(** [z := y / x] is [int_quo y x]: truncated division; a zero divisor is a
    run-time panic; [MinInt / -1] wraps to [MinInt]. *)
Definition int_quo (y x : Z) : outcome Z :=
  if decide (x = 0) then Panicked (PanicRuntime DivideByZero)
  else Done (int_wrap (y ÷ x)).

(** [z := y % x] is [int_rem y x]: the remainder of the truncated division,
    with the sign of the dividend; a zero divisor is a run-time panic. *)
Definition int_rem (y x : Z) : outcome Z :=
  if decide (x = 0) then Panicked (PanicRuntime DivideByZero)
  else Done (y `rem` x).

(** ** The range *)

Lemma int_half_pos : 0 < 2 ^ (int_bits - 1).
Proof. destruct int_bits_cases as [-> | ->]; reflexivity. Qed.

Lemma int_modulus_half : int_modulus = 2 * 2 ^ (int_bits - 1).
Proof. unfold int_modulus. destruct int_bits_cases as [-> | ->]; reflexivity. Qed.

Lemma int_modulus_pos : 0 < int_modulus.
Proof. rewrite int_modulus_half. pose proof int_half_pos. lia. Qed.

Lemma int_range_width : MaxInt - MinInt = int_modulus - 1.
Proof. unfold MaxInt, MinInt. rewrite int_modulus_half. lia. Qed.

Lemma MinInt_neg : MinInt < 0.
Proof. unfold MinInt. pose proof int_half_pos. lia. Qed.

Lemma MaxInt_nonneg : 0 ≤ MaxInt.
Proof. unfold MaxInt. pose proof int_half_pos. lia. Qed.

Lemma MaxInt_ge_32 : 2147483647 ≤ MaxInt.
Proof. unfold MaxInt. destruct int_bits_cases as [-> | ->]; by vm_compute. Qed.

Lemma MinInt_le_32 : MinInt ≤ -2147483648.
Proof. unfold MinInt. destruct int_bits_cases as [-> | ->]; by vm_compute. Qed.

Lemma MaxInt_lt_2_64 : MaxInt < 2 ^ 63.
Proof. unfold MaxInt. destruct int_bits_cases as [-> | ->]; by vm_compute. Qed.

Lemma MinInt_ge_2_64 : - 2 ^ 63 ≤ MinInt.
Proof. unfold MinInt. destruct int_bits_cases as [-> | ->]; by vm_compute. Qed.

Lemma is_int_0 : is_int 0.
Proof. pose proof MinInt_neg. pose proof MaxInt_nonneg. by split; lia. Qed.

Lemma is_int_small z : -2147483648 ≤ z ≤ 2147483647 → is_int z.
Proof. pose proof MaxInt_ge_32. pose proof MinInt_le_32. unfold is_int. lia. Qed.

(** ** Wrap-around *)

Lemma int_wrap_is_int z : is_int (int_wrap z).
Proof.
  unfold is_int, int_wrap.
  pose proof (Z.mod_pos_bound (z - MinInt) _ int_modulus_pos).
  pose proof int_range_width. lia.
Qed.

Lemma int_wrap_id z : is_int z → int_wrap z = z.
Proof.
  intros [Hlo Hhi]. unfold int_wrap. pose proof int_range_width.
  rewrite Z.mod_small; lia.
Qed.

Lemma int_wrap_idemp z : int_wrap (int_wrap z) = int_wrap z.
Proof. apply int_wrap_id, int_wrap_is_int. Qed.

(** [int_wrap z] differs from [z] by a multiple of the modulus. *)
Lemma int_wrap_eqm z : ∃ k, int_wrap z = z + k * int_modulus.
Proof.
  exists (- ((z - MinInt) `div` int_modulus)). unfold int_wrap.
  pose proof (Z.div_mod (z - MinInt) int_modulus). pose proof int_modulus_pos. lia.
Qed.

(** Two integers that differ by a multiple of the modulus wrap to the same
    value. *)
Lemma int_wrap_shift z k : int_wrap (z + k * int_modulus) = int_wrap z.
Proof.
  unfold int_wrap. f_equal.
  replace (z + k * int_modulus - MinInt) with (z - MinInt + k * int_modulus) by lia.
  apply Z.mod_add. pose proof int_modulus_pos. lia.
Qed.

Lemma int_wrap_add_l x y : int_wrap (int_wrap x + y) = int_wrap (x + y).
Proof.
  destruct (int_wrap_eqm x) as [k ->].
  replace (x + k * int_modulus + y) with (x + y + k * int_modulus) by lia.
  apply int_wrap_shift.
Qed.

Lemma int_wrap_add_r x y : int_wrap (x + int_wrap y) = int_wrap (x + y).
Proof. rewrite Z.add_comm, int_wrap_add_l. f_equal. lia. Qed.

Lemma int_wrap_mul_l x y : int_wrap (int_wrap x * y) = int_wrap (x * y).
Proof.
  destruct (int_wrap_eqm x) as [k ->].
  replace ((x + k * int_modulus) * y) with (x * y + (k * y) * int_modulus) by lia.
  apply int_wrap_shift.
Qed.

Lemma int_wrap_mul_r x y : int_wrap (x * int_wrap y) = int_wrap (x * y).
Proof. rewrite Z.mul_comm, int_wrap_mul_l. f_equal. lia. Qed.

Lemma int_wrap_sub_l x y : int_wrap (int_wrap x - y) = int_wrap (x - y).
Proof. rewrite <- !Z.add_opp_r. apply int_wrap_add_l. Qed.

(** ** Saturation *)

Lemma int_clamp_is_int z : is_int (int_clamp z).
Proof.
  unfold int_clamp, is_int. pose proof MinInt_neg. pose proof MaxInt_nonneg. lia.
Qed.

Lemma int_clamp_id z : is_int z → int_clamp z = z.
Proof. unfold int_clamp, is_int. lia. Qed.

(** ** The operations stay in range *)

Lemma int_add_is_int x y : is_int (int_add x y).
Proof. apply int_wrap_is_int. Qed.

Lemma int_sub_is_int x y : is_int (int_sub x y).
Proof. apply int_wrap_is_int. Qed.

Lemma int_mul_is_int x y : is_int (int_mul x y).
Proof. apply int_wrap_is_int. Qed.

Lemma int_quo_is_int y x z : int_quo y x = Done z → is_int z.
Proof.
  unfold int_quo. case_decide; [done|]. intros [= <-]. apply int_wrap_is_int.
Qed.

Lemma int_rem_is_int y x z : is_int y → int_rem y x = Done z → is_int z.
Proof.
  unfold int_rem, is_int. case_decide as Hx; [done|]. intros Hy [= <-].
  pose proof MinInt_neg. pose proof MaxInt_nonneg.
  destruct (Z.le_gt_cases 0 y) as [Hy0|Hy0].
  - pose proof (Z.rem_nonneg y x Hx Hy0). pose proof (Z.rem_le y x).
    destruct (Z.lt_trichotomy x 0) as [?|[?|?]]; [|done|].
    + rewrite <- (Z.rem_opp_r y x) in * by done.
      pose proof (Z.rem_le y (- x)). lia.
    + lia.
  - pose proof (Z.rem_nonpos y x Hx).
    rewrite <- (Z.opp_involutive y) at 1 2. rewrite Z.rem_opp_l by done.
    destruct (Z.lt_trichotomy x 0) as [?|[?|?]]; [|done|].
    + rewrite <- (Z.rem_opp_r (- y) x) by done.
      pose proof (Z.rem_le (- y) (- x)). pose proof (Z.rem_nonneg (- y) (- x)). lia.
    + pose proof (Z.rem_le (- y) x). pose proof (Z.rem_nonneg (- y) x). lia.
Qed.

(** ** Results when nothing overflows *)

Lemma int_add_exact x y : is_int (x + y) → int_add x y = x + y.
Proof. apply int_wrap_id. Qed.

Lemma int_sub_exact x y : is_int (x - y) → int_sub x y = x - y.
Proof. apply int_wrap_id. Qed.

Lemma int_mul_exact x y : is_int (x * y) → int_mul x y = x * y.
Proof. apply int_wrap_id. Qed.

(** The quotient of two [int]s is in range, except for [MinInt / -1]. *)
Lemma quot_is_int y x :
  is_int y → x ≠ 0 → ¬ (y = MinInt ∧ x = -1) → is_int (y ÷ x).
Proof.
  unfold is_int, MinInt, MaxInt. pose proof int_half_pos.
  set (h := 2 ^ (int_bits - 1)) in *. intros [Hlo Hhi] Hx Hov.
  destruct (decide (x = -1)) as [-> | Hx1].
  - replace (y ÷ -1) with (- y); [lia|].
    change (-1) with (- (1)). by rewrite Z.quot_opp_r, Z.quot_1_r.
  - destruct (decide (x = 1)) as [-> | Hx2]; [rewrite Z.quot_1_r; lia|].
    assert (Z.abs (y ÷ x) * 2 ≤ Z.abs y); [|lia].
    rewrite <- Z.quot_abs by done.
    pose proof (Z.mul_quot_le (Z.abs y) (Z.abs x)).
    assert (0 ≤ Z.abs y ÷ Z.abs x) by (apply Z.quot_pos; lia). nia.
Qed.

Lemma int_quo_exact y x :
  is_int y → x ≠ 0 → ¬ (y = MinInt ∧ x = -1) → int_quo y x = Done (y ÷ x).
Proof.
  intros. unfold int_quo. rewrite decide_False by done.
  by rewrite int_wrap_id by by apply quot_is_int.
Qed.

(** [MinInt / -1] overflows and wraps back to [MinInt]; no panic. *)
Lemma int_quo_MinInt_m1 : int_quo MinInt (-1) = Done MinInt.
Proof.
  unfold int_quo. rewrite decide_False by done. f_equal.
  replace (MinInt ÷ -1) with (- MinInt).
  2:{ change (-1) with (- (1)). by rewrite Z.quot_opp_r, Z.quot_1_r. }
  replace (- MinInt) with (MinInt + 1 * int_modulus).
  2:{ unfold MinInt. rewrite int_modulus_half. lia. }
  rewrite int_wrap_shift. apply int_wrap_id.
  pose proof MinInt_neg. pose proof MaxInt_nonneg. unfold is_int. lia.
Qed.

Lemma int_quo_zero y : int_quo y 0 = Panicked (PanicRuntime DivideByZero).
Proof. done. Qed.

Lemma int_rem_zero y : int_rem y 0 = Panicked (PanicRuntime DivideByZero).
Proof. done. Qed.

(** Division panics on a zero divisor only, with the run-time error. *)
Lemma int_quo_panics y x p :
  int_quo y x = Panicked p → x = 0 ∧ p = PanicRuntime DivideByZero.
Proof. unfold int_quo. case_decide; naive_solver. Qed.

Lemma int_rem_panics y x p :
  int_rem y x = Panicked p → x = 0 ∧ p = PanicRuntime DivideByZero.
Proof. unfold int_rem. case_decide; naive_solver. Qed.

(** Quotient and remainder decompose the dividend. *)
Lemma int_quo_rem y x q r :
  is_int y → ¬ (y = MinInt ∧ x = -1) →
  int_quo y x = Done q → int_rem y x = Done r → y = x * q + r.
Proof.
  intros Hy Hov. unfold int_rem. case_decide as Hx; [done|].
  rewrite int_quo_exact by done. intros [= <-] [= <-]. apply Z.quot_rem'.
Qed.

(** ** Algebra of the wrapped operations *)

Lemma int_add_comm x y : int_add x y = int_add y x.
Proof. unfold int_add. f_equal. lia. Qed.

Lemma int_mul_comm x y : int_mul x y = int_mul y x.
Proof. unfold int_mul. f_equal. lia. Qed.

Lemma int_add_assoc x y z : int_add (int_add x y) z = int_add x (int_add y z).
Proof.
  unfold int_add. rewrite int_wrap_add_l, int_wrap_add_r. f_equal. lia.
Qed.

Lemma int_mul_assoc x y z : int_mul (int_mul x y) z = int_mul x (int_mul y z).
Proof.
  unfold int_mul. rewrite int_wrap_mul_l, int_wrap_mul_r. f_equal. lia.
Qed.

Lemma int_add_0_r x : is_int x → int_add x 0 = x.
Proof. intros. unfold int_add. rewrite Z.add_0_r. by apply int_wrap_id. Qed.

Lemma int_sub_add x y : is_int x → int_sub (int_add x y) y = x.
Proof.
  intros. unfold int_sub, int_add. rewrite int_wrap_sub_l.
  replace (x + y - y) with x by lia. by apply int_wrap_id.
Qed.

(** ** Overflow *)

Lemma is_int_MaxInt : is_int MaxInt.
Proof. pose proof int_range_width. pose proof int_modulus_pos. unfold is_int. lia. Qed.

Lemma is_int_MinInt : is_int MinInt.
Proof. pose proof int_range_width. pose proof int_modulus_pos. unfold is_int. lia. Qed.

(** One past the largest [int] is the smallest. *)
Lemma int_wrap_MaxInt_succ : int_wrap (MaxInt + 1) = MinInt.
Proof.
  replace (MaxInt + 1) with (MinInt + 1 * int_modulus)
    by (pose proof int_range_width; lia).
  rewrite int_wrap_shift. apply int_wrap_id, is_int_MinInt.
Qed.

(** ** Rounding up to a multiple: [((v + rnd - 1) / rnd) * rnd]

    For a non-negative [v] and a positive [rnd] whose sum minus one is an
    [int], the expression is the least multiple of [rnd] that is at least
    [v].  The sum [v + rnd] itself may overflow by one: subtracting 1 wraps
    it back. *)
Lemma int_roundup_quot v rnd :
  0 ≤ v → 0 < rnd → v + rnd - 1 ≤ MaxInt →
  let k := (v + rnd - 1) ÷ rnd in
  int_quo (int_sub (int_add v rnd) 1) rnd = Done k ∧
  int_mul k rnd = k * rnd ∧ v ≤ k * rnd < v + rnd.
Proof.
  intros Hv Hrnd Hmax k. subst k. pose proof MinInt_neg.
  assert (Hs : int_sub (int_add v rnd) 1 = v + rnd - 1).
  { unfold int_sub, int_add. rewrite int_wrap_sub_l.
    apply int_wrap_id. unfold is_int. lia. }
  rewrite Hs.
  rewrite Z.quot_div_nonneg by lia.
  pose proof (Z.div_mod (v + rnd - 1) rnd ltac:(lia)).
  pose proof (Z.mod_pos_bound (v + rnd - 1) rnd ltac:(lia)).
  assert (0 ≤ (v + rnd - 1) `div` rnd) by (apply Z.div_pos; lia).
  split_and!; [| apply int_mul_exact; unfold is_int | |]; try nia.
  rewrite <- (Z.quot_div_nonneg (v + rnd - 1) rnd) by lia.
  apply int_quo_exact; [unfold is_int|..]; lia.
Qed.

Lemma int_roundup_exact v rnd :
  0 ≤ v → 0 < rnd → v + rnd - 1 ≤ MaxInt →
  ∃ k, int_quo (int_sub (int_add v rnd) 1) rnd = Done k ∧
       int_mul k rnd = k * rnd ∧ v ≤ k * rnd < v + rnd.
Proof. intros. eexists. by apply int_roundup_quot. Qed.

End GoInt.

#[export] Hint Resolve int_wrap_is_int int_add_is_int int_sub_is_int
  int_mul_is_int int_clamp_is_int is_int_0 : forth.
#[export] Hint Rewrite @int_wrap_idemp @int_wrap_add_l @int_wrap_add_r
  @int_wrap_mul_l @int_wrap_mul_r @int_wrap_sub_l : forth.
