(* ===== verification/GoStrconv.v ===== *)
(** * GoStrconv: [strconv.Itoa] and [strconv.Atoi]

    The arithmetic operators of src/forth.go keep integers on the stack as
    decimal text: they read an operand with [strconv.Atoi], dropping its error
    result ([x, _ := strconv.Atoi(f.Pop())]), and write a result with
    [strconv.Itoa].  Both belong to Go's library, not to the repository; they
    are modelled here from their documented behaviour, loop by loop:
    - [Itoa] writes the digits of the magnitude from the last to the first
      into a 64-byte buffer ([Uitoa64], fuel 64) and puts a minus sign in front
      of a negative number;
    - [Atoi] takes an optional sign, accumulates decimal digits in an unsigned
      64-bit integer ([Atoui64]), reports a syntax error (value 0) on the
      first byte that is no digit and a range error (saturated value) at the
      first digit that overflows, then narrows to [int], saturating.
    What the operators use is the value; the error is kept for the
    statements that say when the value is the number written.  [reads] is
    what [Atoi] returns for every text, in closed form: the positional value
    of a numeral, clamped, and 0 or a bound for anything else
    ([Atoi_reads]). *)

From S2P Require Import Prelude GoInt.

Inductive NumError : Type :=
| EINVAL
| ERANGE.

#[global] Instance NumError_eq_dec : EqDecision NumError.
Proof. solve_decision. Defined.

(** The digit characters, indexed by their value. *)
Definition digits : string := "0123456789".

Definition digit_char (d : Z) : ascii :=
  default "0"%char (String.get (Z.to_nat d) digits).

(** ['0' <= d && d <= '9'], then [v = d - '0']. *)
Definition digit_val (c : ascii) : option Z :=
  if decide (48 ≤ byte_val c ≤ 57) then Some (byte_val c - 48) else None.

Definition is_digit (c : ascii) : bool := bool_decide (48 ≤ byte_val c ≤ 57).

(** The loop of [Uitob64]: [for u > 0 { j--; buf[j] = digits[u%10]; u /= 10 }];
    [fuel] is the room left in the buffer. *)
Fixpoint uitoa_loop (fuel : nat) (u : Z) (buf : string) : string :=
  match fuel with
  | O => buf
  | S fuel' =>
    if decide (0 < u)
    then uitoa_loop fuel' (u `div` 10) (String (digit_char (u `mod` 10)) buf)
    else buf
  end.

Definition Uitoa64 (u : Z) : string :=
  if decide (u = 0) then "0" else uitoa_loop 64 u "".

Definition Itoa64 (i : Z) : string :=
  if decide (i = 0) then "0"
  else if decide (i < 0) then "-" +:+ Uitoa64 (- i)
  else Uitoa64 i.

(** [strconv.Itoa]: the decimal text of an [int]. *)
Definition Itoa (i : Z) : string := Itoa64 i.

(** The loop of [Btoui64] in base 10, over the bytes left to read, with the
    number read so far.  A byte that is no digit ends it with [EINVAL] and
    the value 0; a digit that takes the number past [2^64 - 1] ends it with
    [ERANGE] and the value [2^64 - 1]. *)
Fixpoint atoui_loop (s : string) (n : Z) : Z * option NumError :=
  match s with
  | EmptyString => (n, None)
  | String d s' =>
    match digit_val d with
    | None => (0, Some EINVAL)
    | Some v =>
      if decide (2 ^ 64 ≤ n * 10 + v) then (2 ^ 64 - 1, Some ERANGE)
      else atoui_loop s' (n * 10 + v)
    end
  end.

Definition Atoui64 (s : string) : Z * option NumError :=
  if decide (s = "") then (0, Some EINVAL) else atoui_loop s 0.

(** [Atoi64]: an optional sign, then [Atoui64]; saturates at the bounds of
    [int64]. *)
Definition Atoi64 (s : string) : Z * option NumError :=
  match s with
  | EmptyString => (0, Some EINVAL)
  | String c s' =>
    let neg := bool_decide (c = "-"%char) in
    let s1 := if decide (c = "+"%char ∨ c = "-"%char) then s' else s in
    match Atoui64 s1 with
    | (_, Some EINVAL) => (0, Some EINVAL)
    | (un, _) =>
      if decide (neg = false ∧ 2 ^ 63 ≤ un) then (2 ^ 63 - 1, Some ERANGE)
      else if decide (neg = true ∧ 2 ^ 63 < un) then (- 2 ^ 63, Some ERANGE)
      else (if neg then - un else un, None)
    end
  end.

Section Atoi.
Context `{IntSize}.

(** [strconv.Atoi]: [Atoi64], narrowed to [int] with saturation. *)
Definition Atoi (s : string) : Z * option NumError :=
  match Atoi64 s with
  | (_, Some EINVAL) => (0, Some EINVAL)
  | (i1, e1) =>
    if decide (is_int i1) then (i1, e1)
    else if decide (i1 < 0) then (MinInt, Some ERANGE)
    else (MaxInt, Some ERANGE)
  end.

(** [x, _ := strconv.Atoi(s)]: the value, whatever the error. *)
Definition atoi (s : string) : Z := (Atoi s).1.

End Atoi.

(** ** Digits *)

Lemma digit_val_char d : 0 ≤ d < 10 → digit_val (digit_char d) = Some d.
Proof.
  intros Hd.
  assert (Hc : d ∈ [0; 1; 2; 3; 4; 5; 6; 7; 8; 9]) by (rewrite !elem_of_cons; lia).
  repeat (apply elem_of_cons in Hc as [-> | Hc]; [done|]).
  by apply elem_of_nil in Hc.
Qed.

Lemma digit_char_is_digit d : 0 ≤ d < 10 → is_digit (digit_char d).
Proof.
  intros Hd%digit_val_char. unfold digit_val, is_digit in *.
  case_decide; [by apply bool_decide_pack | done].
Qed.

Lemma is_digit_val c : is_digit c → ∃ v, digit_val c = Some v ∧ 0 ≤ v < 10.
Proof.
  unfold is_digit, digit_val. intros Hc%bool_decide_unpack.
  rewrite decide_True by done. eexists. split; [done | lia].
Qed.

Lemma digit_val_None c : is_digit c = false → digit_val c = None.
Proof.
  unfold is_digit, digit_val. intros Hc%bool_decide_eq_false.
  by rewrite decide_False.
Qed.

(** ** [Uitoa64]: the buffer is long enough, and holds digits only *)

(** The digits are written in front of what the buffer holds. *)
Lemma uitoa_loop_app fuel u buf :
  uitoa_loop fuel u buf = uitoa_loop fuel u "" +:+ buf.
Proof.
  revert u buf. induction fuel as [|fuel IH]; intros u buf; [done|]. simpl.
  case_decide; [|done].
  rewrite IH, (IH _ (String _ "")). by rewrite string_app_assoc.
Qed.

Lemma uitoa_loop_digits fuel u :
  string_forallb is_digit (uitoa_loop fuel u "").
Proof.
  revert u. induction fuel as [|fuel IH]; intros u; [done|]. simpl.
  case_decide; [|done]. rewrite uitoa_loop_app, string_forallb_app.
  apply andb_prop_intro. split; [apply IH|]. simpl.
  rewrite andb_true_r. apply digit_char_is_digit, Z.mod_pos_bound. lia.
Qed.

Lemma uitoa_loop_nonempty fuel u : 0 < u → uitoa_loop (S fuel) u "" ≠ "".
Proof.
  intros Hu. simpl. rewrite decide_True by done. rewrite uitoa_loop_app.
  by intros [_ ?]%string_app_eq_nil.
Qed.

(** More fuel than digits changes nothing: the loop has stopped on [u = 0]
    before the buffer is full. *)
Lemma uitoa_loop_fuel fuel fuel' u buf :
  0 ≤ u < 10 ^ Z.of_nat fuel → (fuel ≤ fuel')%nat →
  uitoa_loop fuel' u buf = uitoa_loop fuel u buf.
Proof.
  revert fuel' u buf. induction fuel as [|fuel IH]; intros fuel' u buf Hu Hf.
  - assert (u = 0) as -> by (change (10 ^ Z.of_nat 0) with 1 in Hu; lia).
    by destruct fuel'.
  - destruct fuel' as [|fuel']; [lia|]. simpl. case_decide; [|done].
    apply IH; [|lia]. rewrite Nat2Z.inj_succ, Z.pow_succ_r in Hu by lia.
    split; [apply Z.div_pos; lia | apply Z.div_lt_upper_bound; lia].
Qed.

(** ** Reading back what was written *)

(** Reading the digits of [u] after having read [n] continues from
    [n * m + u], where [m] is the power of ten of the digits written. *)
Lemma atoui_uitoa_loop fuel u buf :
  0 ≤ u < 10 ^ Z.of_nat fuel →
  ∃ m, 0 < m ∧ ∀ n, 0 ≤ n → n * m + u < 2 ^ 64 →
    atoui_loop (uitoa_loop fuel u buf) n = atoui_loop buf (n * m + u).
Proof.
  revert u buf. induction fuel as [|fuel IH]; intros u buf Hu.
  { exists 1. split; [lia|]. intros n _ _. simpl. f_equal.
    change (10 ^ Z.of_nat 0) with 1 in Hu. lia. }
  simpl. case_decide as Hpos.
  2:{ exists 1. split; [lia|]. intros n _ _. f_equal. lia. }
  rewrite Nat2Z.inj_succ, Z.pow_succ_r in Hu by lia.
  destruct (IH (u `div` 10) (String (digit_char (u `mod` 10)) buf))
    as (m & Hm & Hread).
  { split; [apply Z.div_pos; lia | apply Z.div_lt_upper_bound; lia]. }
  exists (m * 10). split; [lia|]. intros n Hn Hlt.
  pose proof (Z.div_mod u 10 ltac:(lia)) as Hdm.
  pose proof (Z.mod_pos_bound u 10 ltac:(lia)) as Hmod.
  assert (0 ≤ n * m) by nia.
  rewrite Hread by lia. simpl. rewrite digit_val_char by done.
  rewrite decide_False by lia. f_equal. lia.
Qed.

Lemma Atoui64_Uitoa64 u : 0 ≤ u < 2 ^ 64 → Atoui64 (Uitoa64 u) = (u, None).
Proof.
  intros Hu. unfold Uitoa64, Atoui64.
  destruct (decide (u = 0)) as [-> | Hz]; [done|].
  rewrite decide_False by (apply uitoa_loop_nonempty; lia).
  destruct (atoui_uitoa_loop 64 u "") as (m & Hm & Hread).
  { split; [lia|]. eapply Z.lt_le_trans; [apply Hu | by vm_compute]. }
  rewrite Hread by lia. simpl. f_equal; lia.
Qed.

Lemma Uitoa64_digits u : string_forallb is_digit (Uitoa64 u).
Proof. unfold Uitoa64. case_decide; [done | apply uitoa_loop_digits]. Qed.

Lemma Uitoa64_nonempty u : 0 ≤ u → Uitoa64 u ≠ "".
Proof.
  intros Hu. unfold Uitoa64. case_decide; [done|].
  apply (uitoa_loop_nonempty 63). lia.
Qed.

Lemma is_digit_not_sign c : is_digit c → ¬ (c = "+"%char ∨ c = "-"%char).
Proof. by intros Hc [-> | ->]. Qed.

(** A numeral without sign is read by [Atoui64] as it stands. *)
Lemma Atoi64_unsigned s un :
  string_forallb is_digit s → Atoui64 s = (un, None) → un < 2 ^ 63 →
  Atoi64 s = (un, None).
Proof.
  intros Hs Hun Hlt. destruct s as [|c s]; [done|].
  apply andb_prop_elim in Hs as [Hc%is_digit_not_sign _]. unfold Atoi64.
  rewrite decide_False by done. rewrite Hun.
  rewrite bool_decide_eq_false_2 by tauto.
  rewrite decide_False by lia. by rewrite decide_False by (by intros []).
Qed.

(** ** Round trip: [Atoi] reads back what [Itoa] wrote *)

Lemma Atoi64_Itoa64 z : - 2 ^ 63 ≤ z < 2 ^ 63 → Atoi64 (Itoa64 z) = (z, None).
Proof.
  intros Hz. unfold Itoa64. destruct (decide (z = 0)) as [-> | Hz0]; [done|].
  case_decide as Hneg.
  - rewrite string_app_cons, string_app_nil_l. unfold Atoi64.
    rewrite decide_True by tauto. rewrite Atoui64_Uitoa64 by lia.
    rewrite bool_decide_eq_true_2 by done.
    rewrite decide_False by (by intros []). rewrite decide_False by lia.
    f_equal. lia.
  - apply Atoi64_unsigned; [apply Uitoa64_digits | | lia].
    apply Atoui64_Uitoa64. lia.
Qed.

Section AtoiFacts.
Context `{IntSize}.

Lemma is_int_int64 z : is_int z → - 2 ^ 63 ≤ z < 2 ^ 63.
Proof.
  unfold is_int. pose proof MaxInt_lt_2_64. pose proof MinInt_ge_2_64. lia.
Qed.

Lemma Atoi_Itoa z : is_int z → Atoi (Itoa z) = (z, None).
Proof.
  intros Hz. unfold Atoi, Itoa.
  rewrite Atoi64_Itoa64 by by apply is_int_int64. by rewrite decide_True.
Qed.

Lemma atoi_Itoa z : is_int z → atoi (Itoa z) = z.
Proof. intros Hz. unfold atoi. by rewrite Atoi_Itoa. Qed.

(** Whatever the text, the value [Atoi] returns is an [int]. *)
Lemma atoi_is_int s : is_int (atoi s).
Proof.
  unfold atoi, Atoi. pose proof is_int_0.
  pose proof MinInt_neg. pose proof MaxInt_nonneg.
  destruct (Atoi64 s) as [i1 [[]|]]; simpl; [done|..];
    repeat case_decide; simpl; unfold is_int in *; try done; lia.
Qed.

(** A syntax error gives the value 0. *)
Lemma atoi_EINVAL s : (Atoi s).2 = Some EINVAL → atoi s = 0.
Proof.
  unfold atoi, Atoi. destruct (Atoi64 s) as [i1 [[]|]]; simpl; [done|..];
    repeat case_decide; by simpl.
Qed.

(** [Itoa] is injective on the values of [int]. *)
Lemma Itoa_inj x y : is_int x → is_int y → Itoa x = Itoa y → x = y.
Proof.
  intros Hx Hy Hxy. rewrite <- (atoi_Itoa x), <- (atoi_Itoa y) by done.
  by rewrite Hxy.
Qed.

End AtoiFacts.

(** ** The characters of a numeral *)

Definition is_numeral_char (c : ascii) : bool :=
  is_digit c || bool_decide (c = "-"%char).

Lemma Itoa_chars z : string_forallb is_numeral_char (Itoa z).
Proof.
  assert (Hd : ∀ u, string_forallb is_numeral_char (Uitoa64 u)).
  { intros u. eapply string_forallb_impl, Uitoa64_digits.
    intros c Hc. unfold is_numeral_char. by destruct (is_digit c). }
  unfold Itoa, Itoa64. repeat case_decide; [done | | apply Hd].
  rewrite string_forallb_app. apply andb_prop_intro. split; [done | apply Hd].
Qed.

Lemma Itoa_nonempty z : Itoa z ≠ "".
Proof.
  unfold Itoa, Itoa64. repeat case_decide; [done | done |].
  apply Uitoa64_nonempty. lia.
Qed.

(** A numeral is not the minus sign alone. *)
Lemma Itoa_not_dash z : Itoa z ≠ "-".
Proof.
  unfold Itoa, Itoa64. repeat case_decide; [done | |].
  - rewrite string_app_cons, string_app_nil_l. intros [= Hu].
    by apply (Uitoa64_nonempty (- z)); [lia|].
  - intros Hu. pose proof (Uitoa64_digits z) as Hd. by rewrite Hu in Hd.
Qed.

Lemma Itoa_not_space z : Itoa z ≠ " ".
Proof. intros Hz. pose proof (Itoa_chars z) as Hc. by rewrite Hz in Hc. Qed.

(** Numerals hold no space. *)
Lemma Itoa_no_space z : string_forallb (λ c, bool_decide (c ≠ " "%char)) (Itoa z).
Proof.
  eapply string_forallb_impl, Itoa_chars. intros c Hc.
  apply bool_decide_pack. by intros ->.
Qed.

(** ** What [Atoi] reads, in closed form *)

(** The number that a string of digits writes: each digit times the power
    of ten of its place. *)
Fixpoint decimal (s : string) : Z :=
  match s with
  | EmptyString => 0
  | String c s' =>
    default 0 (digit_val c) * 10 ^ Z.of_nat (String.length s') + decimal s'
  end.

(** The digits a string starts with. *)
Fixpoint digit_prefix (s : string) : string :=
  match s with
  | EmptyString => ""
  | String c s' => if is_digit c then String c (digit_prefix s') else ""
  end.

(** The sign, and what follows it. *)
Definition sign_split (s : string) : bool * string :=
  match s with
  | String c s' =>
    if decide (c = "-"%char) then (true, s')
    else if decide (c = "+"%char) then (false, s')
    else (false, s)
  | EmptyString => (false, s)
  end.

Section Reads.
Context `{IntSize}.

(** What [Atoi] returns, without its loops.  A numeral (an optional sign
    and one digit or more) reads as the number written, clamped to [int],
    with [ERANGE] when it was clamped.  Any other text reads as 0 with
    [EINVAL], unless the digits it starts with pass 64 bits: the loop stops
    there with [ERANGE] and the bound, before it sees what follows. *)
Definition reads (s : string) : Z * option NumError :=
  let '(neg, body) := sign_split s in
  let p := digit_prefix body in
  let z := if neg then - decimal p else decimal p in
  if decide (p = body ∧ body ≠ "")
  then (int_clamp z, if decide (is_int z) then None else Some ERANGE)
  else if decide (2 ^ 64 ≤ decimal p)
       then (if neg then MinInt else MaxInt, Some ERANGE)
  else (0, Some EINVAL).

End Reads.

(** ** The loop reads the positional value *)

Lemma digit_val_range c v : digit_val c = Some v → 0 ≤ v < 10.
Proof. unfold digit_val. case_decide; [|done]. intros [= <-]. lia. Qed.

Lemma digit_val_is_digit c :
  digit_val c = if is_digit c then Some (byte_val c - 48) else None.
Proof. unfold digit_val, is_digit. by case_decide; case_bool_decide. Qed.

Lemma decimal_nonneg s : 0 ≤ decimal s.
Proof.
  induction s as [|c s IH]; simpl; [done|].
  destruct (digit_val c) as [v|] eqn:E; simpl; [|lia].
  apply digit_val_range in E. nia.
Qed.

(** The loop of [Btoui64], started with [n] read so far: it fails on the
    first digit that takes the number past 64 bits, whatever follows;
    otherwise on the first byte that is no digit; otherwise it returns the
    number written. *)
Lemma atoui_loop_reads s n :
  0 ≤ n < 2 ^ 64 →
  let p := digit_prefix s in
  let v := n * 10 ^ Z.of_nat (String.length p) + decimal p in
  atoui_loop s n =
    if decide (2 ^ 64 ≤ v) then (2 ^ 64 - 1, Some ERANGE)
    else if decide (p = s) then (v, None)
    else (0, Some EINVAL).
Proof.
  revert n. induction s as [|c s IH]; intros n Hn;
    cbn [atoui_loop digit_prefix decimal String.length].
  - rewrite Z.mul_1_r, Z.add_0_r, decide_False, decide_True by (done || lia). done.
  - rewrite digit_val_is_digit. destruct (is_digit c) eqn:Ec;
      cbn [decimal String.length].
    + rewrite digit_val_is_digit, Ec. cbn [default from_option id].
      set (d := byte_val c - 48).
      assert (0 ≤ d < 10) by (apply bool_decide_eq_true in Ec; lia).
      pose proof (decimal_nonneg (digit_prefix s)).
      set (k := 10 ^ Z.of_nat (String.length (digit_prefix s))) in *.
      assert (0 < k) by (apply Z.pow_pos_nonneg; lia).
      rewrite Nat2Z.inj_succ, Z.pow_succ_r by lia. fold k.
      case_decide as Ho.
      * rewrite decide_True by nia. done.
      * rewrite IH by lia. cbv zeta. fold k.
        replace (n * (10 * k) + (d * k + decimal (digit_prefix s)))
          with ((n * 10 + d) * k + decimal (digit_prefix s)) by lia.
        repeat case_decide; congruence.
    + rewrite Z.mul_1_r, Z.add_0_r, decide_False, decide_False by (done || lia). done.
Qed.

Lemma Atoui64_reads s :
  Atoui64 s =
    if decide (2 ^ 64 ≤ decimal (digit_prefix s)) then (2 ^ 64 - 1, Some ERANGE)
    else if decide (digit_prefix s = s ∧ s ≠ "")
         then (decimal (digit_prefix s), None)
    else (0, Some EINVAL).
Proof.
  unfold Atoui64. case_decide as Hs; [by subst|].
  rewrite atoui_loop_reads by lia. cbv zeta. rewrite Z.mul_0_l, Z.add_0_l.
  repeat case_decide; first [done | tauto].
Qed.

(** [Atoi64] after the sign: the magnitude is compared with [2^63]. *)
Lemma Atoi64_body (neg : bool) body :
  match Atoui64 body with
  | (_, Some EINVAL) => (0, Some EINVAL)
  | (un, _) =>
    if decide (neg = false ∧ 2 ^ 63 ≤ un) then (2 ^ 63 - 1, Some ERANGE)
    else if decide (neg = true ∧ 2 ^ 63 < un) then (- 2 ^ 63, Some ERANGE)
    else (if neg then - un else un, None)
  end =
  let u := decimal (digit_prefix body) in
  if decide (digit_prefix body = body ∧ body ≠ "" ∧
             u < 2 ^ 63 + (if neg then 1 else 0))
  then (if neg then - u else u, None)
  else if decide (2 ^ 64 ≤ u ∨ (digit_prefix body = body ∧ body ≠ ""))
       then (if neg then - 2 ^ 63 else 2 ^ 63 - 1, Some ERANGE)
  else (0, Some EINVAL).
Proof.
  rewrite Atoui64_reads. cbv zeta.
  destruct neg; repeat case_decide; first [done | intuition lia].
Qed.

Lemma Atoi64_reads s :
  Atoi64 s =
    let '(neg, body) := sign_split s in
    let u := decimal (digit_prefix body) in
    if decide (digit_prefix body = body ∧ body ≠ "" ∧
               u < 2 ^ 63 + (if neg then 1 else 0))
    then (if neg then - u else u, None)
    else if decide (2 ^ 64 ≤ u ∨ (digit_prefix body = body ∧ body ≠ ""))
         then (if neg then - 2 ^ 63 else 2 ^ 63 - 1, Some ERANGE)
    else (0, Some EINVAL).
Proof.
  destruct s as [|c s]; [done|]. unfold Atoi64, sign_split.
  destruct (decide (c = "-"%char)) as [-> | Hm].
  - apply (Atoi64_body true).
  - rewrite bool_decide_eq_false_2 by done.
    destruct (decide (c = "+"%char)) as [-> | Hp].
    + apply (Atoi64_body false).
    + rewrite decide_False by tauto. apply (Atoi64_body false).
Qed.

Section ReadsFacts.
Context `{IntSize}.

(** [Atoi] computes [reads]. *)
Lemma Atoi_reads s : Atoi s = reads s.
Proof.
  unfold Atoi, reads. rewrite Atoi64_reads.
  pose proof MaxInt_lt_2_64. pose proof MinInt_ge_2_64.
  pose proof MinInt_neg. pose proof MaxInt_nonneg.
  destruct (sign_split s) as [neg body]. cbv zeta.
  pose proof (decimal_nonneg (digit_prefix body)).
  unfold int_clamp, is_int.
  destruct neg; repeat case_decide;
    first [done | intuition lia | f_equal; intuition lia].
Qed.

Lemma atoi_reads s : atoi s = (reads s).1.
Proof. unfold atoi. by rewrite Atoi_reads. Qed.

End ReadsFacts.

#[export] Hint Resolve atoi_is_int : forth.
#[export] Hint Rewrite @atoi_Itoa using (eauto with forth) : forth.
