(* ===== verification/GoStrings.v ===== *)
(** * GoStrings: [strings.Split] and [strings.TrimLeft]

    [Eval] cuts its input with [strings.Split(s, " ")] and [hostbase] strips a
    prefix with [strings.TrimLeft(host, cutset)].  Both belong to Go's library;
    they are modelled from their documented behaviour:
    - [Split s sep], for a separator of one byte, is the list of the
      substrings of [s] between the occurrences of [sep]: one more string than
      there are separators, empty strings included;
    - [TrimLeft s cutset] is [s] without its longest prefix of characters that
      occur in [cutset].  Go compares Unicode code points; [cutset] is ASCII in
      src/forth.go, and no byte of a multi-byte code point is an ASCII byte, so
      the comparison of bytes removes the same prefix.
    [Join] is the inverse of [Split], used to state the round trip. *)

From S2P Require Import Prelude.

Fixpoint Split (s : string) (sep : ascii) : list string :=
  match s with
  | EmptyString => [""]
  | String c s' =>
    if decide (c = sep) then "" :: Split s' sep
    else match Split s' sep with
         | [] => [String c ""]
         | w :: ws => String c w :: ws
         end
  end.

Fixpoint Join (a : list string) (sep : ascii) : string :=
  match a with
  | [] => ""
  | [w] => w
  | w :: ws => w +:+ String sep (Join ws sep)
  end.

(** [c] occurs in [cutset]. *)
Fixpoint string_mem (c : ascii) (cutset : string) : bool :=
  match cutset with
  | EmptyString => false
  | String d cutset' => bool_decide (c = d) || string_mem c cutset'
  end.

Fixpoint TrimLeft (s cutset : string) : string :=
  match s with
  | EmptyString => ""
  | String c s' => if string_mem c cutset then TrimLeft s' cutset else s
  end.

(** [no_sep sep w]: the separator does not occur in [w]. *)
Definition no_sep (sep : ascii) (w : string) : bool :=
  string_forallb (λ c, bool_decide (c ≠ sep)) w.

(** The number of occurrences of [sep] in [s] ([strings.Count]). *)
Fixpoint Count (s : string) (sep : ascii) : nat :=
  match s with
  | EmptyString => 0
  | String c s' => (if decide (c = sep) then 1 else 0) + Count s' sep
  end.

(** ** [Split] *)

Lemma Split_nonempty s sep : Split s sep ≠ [].
Proof.
  destruct s as [|c s]; [done|]. simpl.
  case_decide; [done|]. by destruct (Split s sep).
Qed.

Lemma Split_cons_sep s sep : Split (String sep s) sep = "" :: Split s sep.
Proof. simpl. by rewrite decide_True. Qed.

Lemma Split_cons_other c s sep w ws :
  c ≠ sep → Split s sep = w :: ws → Split (String c s) sep = String c w :: ws.
Proof. intros Hc Hs. simpl. by rewrite decide_False, Hs. Qed.

(** One more string than separators. *)
Lemma Split_length s sep : length (Split s sep) = S (Count s sep).
Proof.
  induction s as [|c s IH]; [done|]. simpl. case_decide; simpl; [by rewrite IH|].
  pose proof (Split_nonempty s sep). by destruct (Split s sep).
Qed.

(** No more separators than bytes, so no more strings than bytes and one. *)
Lemma Count_le s sep : (Count s sep ≤ String.length s)%nat.
Proof. induction s as [|c s IH]; [done|]. simpl. case_decide; lia. Qed.

Lemma Split_length_le s sep : (length (Split s sep) ≤ String.length s + 1)%nat.
Proof. rewrite Split_length. pose proof (Count_le s sep). lia. Qed.

(** No string of the result holds the separator. *)
Lemma Split_no_sep s sep : Forall (λ w, no_sep sep w) (Split s sep).
Proof.
  unfold no_sep. induction s as [|c s IH]; [by repeat constructor|]. simpl.
  case_decide as Hc; [by constructor|].
  destruct IH as [|w ws Hw Hws]; constructor; try done;
    simpl; by rewrite bool_decide_eq_true_2.
Qed.

(** Round trip: joining the pieces with the separator gives the input. *)
Lemma Join_Split s sep : Join (Split s sep) sep = s.
Proof.
  induction s as [|c s IH]; [done|]. simpl. case_decide as Hc.
  - subst c. pose proof (Split_nonempty s sep).
    destruct (Split s sep) as [|w ws] eqn:E; [done|]. simpl in *.
    by rewrite string_app_nil_l, IH.
  - pose proof (Split_nonempty s sep).
    destruct (Split s sep) as [|w [|w' ws]] eqn:E; [done|..]; simpl in *.
    + by rewrite IH.
    + by rewrite string_app_cons, IH.
Qed.

(** A word without separator, then the separator: the word is the first
    piece. *)
Lemma Split_app_sep w s sep :
  no_sep sep w → Split (w +:+ String sep s) sep = w :: Split s sep.
Proof.
  induction w as [|c w IH]; intros Hw.
  - by rewrite string_app_nil_l, Split_cons_sep.
  - apply andb_prop_elim in Hw as [Hc%bool_decide_unpack Hw].
    rewrite string_app_cons. by apply Split_cons_other, IH.
Qed.

(** A word without separator is its own single piece. *)
Lemma Split_word w sep : no_sep sep w → Split w sep = [w].
Proof.
  induction w as [|c w IH]; intros Hw; [done|].
  apply andb_prop_elim in Hw as [Hc%bool_decide_unpack Hw].
  by apply Split_cons_other, IH.
Qed.

(** Round trip, the other way: splitting the join of separator-free words
    gives the words. *)
Lemma Split_Join a sep :
  a ≠ [] → Forall (λ w, no_sep sep w) a → Split (Join a sep) sep = a.
Proof.
  induction a as [|w [|w' a] IH]; intros Hne Ha; [done|..].
  - simpl. apply Split_word. by inversion Ha.
  - inversion Ha as [|?? Hw Ha']; subst.
    change (Join (w :: w' :: a) sep) with (w +:+ String sep (Join (w' :: a) sep)).
    rewrite Split_app_sep by done. f_equal. by apply IH.
Qed.

(** ** [TrimLeft] *)

(** The result is a suffix of the input, and what is removed lies in the
    cutset. *)
Lemma TrimLeft_suffix s cutset :
  ∃ p, s = p +:+ TrimLeft s cutset ∧ string_forallb (λ c, string_mem c cutset) p.
Proof.
  induction s as [|c s (p & Hp & Hin)]; [by exists ""|]. simpl.
  destruct (string_mem c cutset) eqn:Hc; [|by exists ""].
  exists (String c p). rewrite string_app_cons, <- Hp. simpl. by rewrite Hc.
Qed.

(** The result does not start with a character of the cutset. *)
Lemma TrimLeft_head s cutset c r :
  TrimLeft s cutset = String c r → string_mem c cutset = false.
Proof.
  induction s as [|d s IH]; [done|]. simpl.
  destruct (string_mem d cutset) eqn:Hd; [done|]. by intros [= <- _].
Qed.

Lemma TrimLeft_idemp s cutset :
  TrimLeft (TrimLeft s cutset) cutset = TrimLeft s cutset.
Proof.
  destruct (TrimLeft s cutset) as [|c r] eqn:E; [done|].
  apply TrimLeft_head in E. simpl. by rewrite E.
Qed.

(** A prefix in the cutset followed by a string that starts outside it:
    exactly the prefix is removed. *)
Lemma TrimLeft_app p r cutset :
  string_forallb (λ c, string_mem c cutset) p → TrimLeft r cutset = r →
  TrimLeft (p +:+ r) cutset = r.
Proof.
  intros Hp Hr. induction p as [|c p IH]; [done|].
  apply andb_prop_elim in Hp as [Hc Hp]. rewrite string_app_cons. simpl.
  destruct (string_mem c cutset); [by apply IH | done].
Qed.

Lemma TrimLeft_length s cutset :
  (String.length (TrimLeft s cutset) ≤ String.length s)%nat.
Proof.
  induction s as [|c s IH]; [done|]. simpl.
  destruct (string_mem c cutset); simpl; lia.
Qed.
