(* ===== verification/Stack.v ===== *)
(** * Stack: the [Forth] interface and its implementation [forthstack]

    src/forth.go:11-76.  The interface [Forth] is a type class; its
    implementation [forthstack] keeps the stack in a Go slice with the top of
    the stack at the END of the slice ([Push] appends, [Pop] takes the last
    element and reslices).  The contract of spec.md section 4.1 is the abstract
    stack [lifo], a list with the top at its HEAD.  [ForthLaws] states what an
    implementation owes its clients: an abstraction function [contents] along
    which every method refines the method of [lifo].  The operators and the
    evaluator are written and proved against [Forth] and [ForthLaws];
    [forthstack_Laws] discharges the laws for the slice, with
    [contents f = reverse (stack f)].

    Here [f.stack] is the list of the elements of the slice.  Its capacity
    and its backing array are in [Slice], which shows that they cannot be
    observed: [f.stack] is the only reference to the array (no method returns
    the slice or a subslice of it). *)

From S2P Require Import Prelude.

(** ** The interface (src/forth.go:32-39)

    [Push], [Pop] and [Reset] mutate the receiver; [Length] and [Empty] read
    it.  The sixth method of the Go interface, [Newop], does not touch its
    receiver: it writes the package-level operator table, and is modelled
    with that table ([Ops.Newop]). *)
Class Forth (F : Type) : Type := {
  Push : string → M F unit;
  Pop : M F string;
  Length : F → Z;
  Empty : F → bool;
  Reset : M F unit
}.

(** The value [Pop] panics with: [os.NewError("Empty stack")]. *)
Definition EmptyStack : panic := PanicError "Empty stack".

(** ** The implementation (src/forth.go:13-15, 41-76) *)

Record forthstack : Type := { stack : list string }.

#[global] Instance forthstack_eq_dec : EqDecision forthstack.
Proof. solve_decision. Defined.

(** [New]: [new(forthstack)], the zero value, whose slice is nil. *)
Definition New : forthstack := {| stack := [] |}.

(** [f.stack = append(f.stack, s)] *)
Definition forthstack_Push (s : string) : M forthstack unit :=
  Mmodify (λ f, {| stack := stack f ++ [s] |}).

(** [Pop]: panics when [len(f.stack) < 1]; else returns
    [f.stack[len(f.stack)-1]] and reslices to [f.stack[0:len(f.stack)-1]].
    The index expression panics when it is out of range. *)
Definition forthstack_Pop : M forthstack string := λ f,
  if decide (length (stack f) < 1)%nat then (f, Panicked EmptyStack)
  else
    match stack f !! (length (stack f) - 1)%nat with
    | None => (f, Panicked (PanicRuntime IndexOutOfRange))
    | Some ret => ({| stack := take (length (stack f) - 1) (stack f) |}, Done ret)
    end.

Definition forthstack_Length (f : forthstack) : Z := Z.of_nat (length (stack f)).

Definition forthstack_Empty (f : forthstack) : bool :=
  bool_decide (length (stack f) = 0%nat).

(** [f.stack = f.stack[0:0]] *)
Definition forthstack_Reset : M forthstack unit :=
  Mmodify (λ f, {| stack := take 0 (stack f) |}).

#[global] Instance forthstack_Forth : Forth forthstack := {|
  Push := forthstack_Push;
  Pop := forthstack_Pop;
  Length := forthstack_Length;
  Empty := forthstack_Empty;
  Reset := forthstack_Reset
|}.

(** ** The abstract stack (spec.md 4.1): a list, top first *)

Definition lifo : Type := list string.

Definition lifo_Push (s : string) : M lifo unit := Mmodify (cons s).

Definition lifo_Pop : M lifo string := λ st,
  match st with
  | [] => ([], Panicked EmptyStack)
  | x :: st' => (st', Done x)
  end.

Definition lifo_Length (st : lifo) : Z := Z.of_nat (length st).

Definition lifo_Empty (st : lifo) : bool := bool_decide (st = []).

Definition lifo_Reset : M lifo unit := Mmodify (λ _, []).

#[global] Instance lifo_Forth : Forth lifo := {|
  Push := lifo_Push;
  Pop := lifo_Pop;
  Length := lifo_Length;
  Empty := lifo_Empty;
  Reset := lifo_Reset
|}.

(** ** What an implementation owes: refinement of the abstract stack *)
Class ForthLaws (F : Type) `{Forth F} : Type := {
  contents : F → lifo;
  Push_refines s : refines contents (Push s) (lifo_Push s);
  Pop_refines : refines contents Pop lifo_Pop;
  Reset_refines : refines contents Reset lifo_Reset;
  Length_contents f : Length f = lifo_Length (contents f);
  Empty_contents f : Empty f = lifo_Empty (contents f)
}.

#[export] Hint Resolve Push_refines Pop_refines Reset_refines : forth.

(** ** [forthstack] refines [lifo] along [reverse] *)

Definition forthstack_contents (f : forthstack) : lifo := reverse (stack f).

(** The guarded index of [Pop] is in range: what it reads is the last
    element, and what it keeps is the rest. *)
Lemma forthstack_Pop_snoc l x :
  forthstack_Pop {| stack := l ++ [x] |} = ({| stack := l |}, Done x).
Proof.
  unfold forthstack_Pop. simpl. rewrite length_app. simpl.
  rewrite decide_False by lia.
  replace (length l + 1 - 1)%nat with (length l) by lia.
  rewrite lookup_app_r, Nat.sub_diag by lia. simpl.
  by rewrite take_app_length.
Qed.

Lemma forthstack_Pop_nil : forthstack_Pop {| stack := [] |} = ({| stack := [] |}, Panicked EmptyStack).
Proof. done. Qed.

Lemma forthstack_Push_refines s :
  refines forthstack_contents (forthstack_Push s) (lifo_Push s).
Proof.
  intros [l]. unfold forthstack_contents. simpl.
  by rewrite reverse_app.
Qed.

Lemma forthstack_Pop_refines : refines forthstack_contents forthstack_Pop lifo_Pop.
Proof.
  intros [l]. destruct l as [|x l _] using rev_ind; [done|].
  rewrite forthstack_Pop_snoc. unfold forthstack_contents. simpl.
  by rewrite reverse_app.
Qed.

Lemma forthstack_Reset_refines :
  refines forthstack_contents forthstack_Reset lifo_Reset.
Proof. by intros [l]. Qed.

Lemma forthstack_Length_contents f :
  forthstack_Length f = lifo_Length (forthstack_contents f).
Proof. unfold forthstack_Length, lifo_Length, forthstack_contents. by rewrite length_reverse. Qed.

Lemma forthstack_Empty_contents f :
  forthstack_Empty f = lifo_Empty (forthstack_contents f).
Proof.
  unfold forthstack_Empty, lifo_Empty, forthstack_contents.
  apply bool_decide_ext. rewrite <- (length_reverse (stack f)).
  by destruct (reverse (stack f)).
Qed.

(** ** Properties of the implementation *)

(** C3: the slice implementation refines the abstract stack along
    [forthstack_contents] (the slice reversed): [Push], [Pop] and [Reset] end
    in the state and with the outcome of the abstract method, the panic of
    [Pop] included, and [Length] and [Empty] read what the abstract stack
    says. *)
Theorem forthstack_implements_lifo :
  (∀ s, refines forthstack_contents (forthstack_Push s) (lifo_Push s)) ∧
  refines forthstack_contents forthstack_Pop lifo_Pop ∧
  refines forthstack_contents forthstack_Reset lifo_Reset ∧
  (∀ f, forthstack_Length f = lifo_Length (forthstack_contents f)) ∧
  (∀ f, forthstack_Empty f = lifo_Empty (forthstack_contents f)).
Proof.
  split_and!; auto using forthstack_Push_refines, forthstack_Pop_refines,
    forthstack_Reset_refines, forthstack_Length_contents,
    forthstack_Empty_contents.
Qed.

(** The index expression [f.stack[len(f.stack)-1]] of [Pop] is never
    out of range: the guard [len(f.stack) < 1] has panicked before it could
    be.  [Pop] has two outcomes only, a value or the [EmptyStack] panic. *)
Theorem forthstack_Pop_in_range f :
  (forthstack_Pop f).2 ≠ Panicked (PanicRuntime IndexOutOfRange).
Proof.
  destruct f as [l]. destruct l as [|x l _] using rev_ind; [done|].
  by rewrite forthstack_Pop_snoc.
Qed.

(** [Pop] undoes [Push]: [Push] of [s] returns, and the [Pop] that
    follows returns [s] and restores the slice exactly. *)
Theorem forthstack_Push_Pop s f :
  (forthstack_Push s f).2 = Done tt ∧
  forthstack_Pop (forthstack_Push s f).1 = (f, Done s).
Proof. split; [done|]. destruct f as [l]. apply forthstack_Pop_snoc. Qed.

(** C17: [Pop] on an empty stack panics with the [os.Error] "Empty stack"
    and does not change the stack. *)
Theorem forthstack_Pop_empty f :
  forthstack_Empty f = true → forthstack_Pop f = (f, Panicked (PanicError "Empty stack")).
Proof.
  by destruct f as [[|x l]].
Qed.

Lemma forthstack_Pop_empty_witness :
  forthstack_Empty New = true ∧
  forthstack_Pop New = (New, Panicked (PanicError "Empty stack")).
Proof. split; [reflexivity | apply (forthstack_Pop_empty New); reflexivity]. Defined.

(** [Reset] empties the stack whatever it holds: afterwards [Length]
    is 0 and [Empty] is true; on an empty stack it changes nothing. *)
Theorem forthstack_Reset_empties f :
  let f' := (forthstack_Reset f).1 in
  f' = New ∧ forthstack_Length f' = 0 ∧ forthstack_Empty f' = true ∧
  (forthstack_Empty f = true → f' = f).
Proof.
  destruct f as [[|x l]]; by split_and!.
Qed.

(** [Length] counts the elements: it is never negative, [Push] adds
    one, a successful [Pop] removes one, and [Empty] holds exactly when it
    is 0. *)
Theorem forthstack_Length_counts s f :
  0 ≤ forthstack_Length f ∧
  forthstack_Length (forthstack_Push s f).1 = forthstack_Length f + 1 ∧
  (∀ f' x, forthstack_Pop f = (f', Done x) →
     forthstack_Length f' = forthstack_Length f - 1) ∧
  forthstack_Empty f = bool_decide (forthstack_Length f = 0).
Proof.
  destruct f as [l]. unfold forthstack_Length, forthstack_Empty. simpl.
  split_and!; [lia | rewrite length_app; simpl; lia | | apply bool_decide_ext; lia].
  intros f' x. destruct l as [|y l _] using rev_ind; [done|].
  rewrite forthstack_Pop_snoc. intros [= <- _]. rewrite length_app. simpl. lia.
Qed.

(** ** The laws hold for the slice and for the abstract stack *)

#[global] Instance forthstack_Laws : ForthLaws forthstack := {|
  contents := forthstack_contents;
  Push_refines := forthstack_Push_refines;
  Pop_refines := forthstack_Pop_refines;
  Reset_refines := forthstack_Reset_refines;
  Length_contents := forthstack_Length_contents;
  Empty_contents := forthstack_Empty_contents
|}.

#[global] Instance lifo_Laws : ForthLaws lifo := {|
  contents := id;
  Push_refines s := refines_id (lifo_Push s);
  Pop_refines := refines_id lifo_Pop;
  Reset_refines := refines_id lifo_Reset;
  Length_contents st := eq_refl;
  Empty_contents st := eq_refl
|}.

(** ** Consequences of the laws, for any implementation *)

Section Laws.
Context `{ForthLaws F}.

(** [Push] always succeeds and puts its argument on top. *)
Lemma Push_run s f :
  ∃ f', Push s f = (f', Done tt) ∧ contents f' = s :: contents f.
Proof. by eapply refines_run; [apply Push_refines|]. Qed.

(** [Pop] of a non-empty stack returns the top and removes it. *)
Lemma Pop_run_cons f x st :
  contents f = x :: st → ∃ f', Pop f = (f', Done x) ∧ contents f' = st.
Proof.
  intros Hf. eapply refines_run; [apply Pop_refines|]. by rewrite Hf.
Qed.

(** [Pop] of an empty stack panics with [EmptyStack] and leaves it empty. *)
Lemma Pop_run_nil f :
  contents f = [] → ∃ f', Pop f = (f', Panicked EmptyStack) ∧ contents f' = [].
Proof.
  intros Hf. eapply refines_run; [apply Pop_refines|]. by rewrite Hf.
Qed.

Lemma Reset_run f : ∃ f', Reset f = (f', Done tt) ∧ contents f' = [].
Proof. by eapply refines_run; [apply Reset_refines|]. Qed.

Lemma Length_nonneg f : 0 ≤ Length f.
Proof. rewrite Length_contents. unfold lifo_Length. lia. Qed.

Lemma Empty_Length f : Empty f = bool_decide (Length f = 0).
Proof.
  rewrite Empty_contents, Length_contents. unfold lifo_Empty, lifo_Length.
  apply bool_decide_ext. destruct (contents f); simpl; [done|]. split; [done|lia].
Qed.

Lemma Empty_true_contents f : Empty f = true ↔ contents f = [].
Proof. rewrite Empty_contents. unfold lifo_Empty. apply bool_decide_eq_true. Qed.

(** The panics of the methods: [Pop] raises [EmptyStack] and nothing else,
    [Push] and [Reset] never panic. *)
Lemma Pop_panics P : P EmptyStack → panics_within P Pop.
Proof.
  intros HP f f' p Hp. pose proof (Pop_refines f) as Hr. rewrite Hp in Hr.
  destruct (contents f); by simplify_eq/=.
Qed.

Lemma Push_panics P s : panics_within P (Push s).
Proof. intros f f' p Hp. pose proof (Push_refines s f) as Hr. by rewrite Hp in Hr. Qed.

Lemma Reset_panics P : panics_within P Reset.
Proof. intros f f' p Hp. pose proof (Reset_refines f) as Hr. by rewrite Hp in Hr. Qed.

End Laws.

(** [panics_tac] bounds the panics of a computation built from the methods
    of the interface, leaving what the panics of integer division and of
    explicit [panic] calls must satisfy. *)
Ltac panics_tac :=
  walk_tac ltac:(apply panics_within_bind)
           ltac:(first [ apply Push_panics | apply Pop_panics
                       | apply Reset_panics | apply panics_within_ret
                       | apply panics_within_panic
                       | apply panics_within_lift; intros ? ]).

(** ** Automation for refinement goals

    A computation built from [Push], [Pop], [Reset], [mret], panics and
    binds refines the same computation over [lifo]: [refines_tac] walks the
    term, splitting on the tests it meets. *)
Ltac refines_tac :=
  walk_tac ltac:(apply refines_bind)
           ltac:(first [ apply Push_refines | apply Pop_refines
                       | apply Reset_refines | apply refines_ret
                       | apply refines_panic | apply refines_lift ]).
