(* ===== verification/Ops.v ===== *)
(** * Ops: the built-in operators and the operator table

    src/forth.go:11, 17-30, 46-48 and 108-191.  An operator ([forthop]) is a
    Go function value [func (f Forth)]: a computation on any implementation of
    the interface, or [nil].  The package-level table [opmap] maps names to
    operators; [Newop] overwrites an entry.  Each operator is translated call
    by call: every [f.Pop()] and [f.Push()] in the order of the source, with
    the panics of [Pop] and of integer division threaded through. *)

From S2P Require Import Prelude GoInt GoStrconv GoStrings Stack.

(** The host environment: what [os.Hostname()] returns, [None] when it
    returns an error. *)
Class HostEnv : Type := { os_Hostname : option string }.

Section Ops.
Context `{IntSize} `{HostEnv} `{Forth F}.

(** [type forthop func (f Forth)]; [None] is the nil function. *)
Definition forthop : Type := option (M F unit).

Definition plus : M F unit :=
  sx ← Pop; let x := atoi sx in
  sy ← Pop; let y := atoi sy in
  let z := int_add x y in
  Push (Itoa z).

Definition times : M F unit :=
  sx ← Pop; let x := atoi sx in
  sy ← Pop; let y := atoi sy in
  let z := int_mul x y in
  Push (Itoa z).

Definition sub : M F unit :=
  sx ← Pop; let x := atoi sx in
  sy ← Pop; let y := atoi sy in
  let z := int_sub y x in
  Push (Itoa z).

Definition div : M F unit :=
  sx ← Pop; let x := atoi sx in
  sy ← Pop; let y := atoi sy in
  z ← Mlift (int_quo y x);
  Push (Itoa z).

Definition mod_ : M F unit :=
  sx ← Pop; let x := atoi sx in
  sy ← Pop; let y := atoi sy in
  z ← Mlift (int_rem y x);
  Push (Itoa z).

(** [v = ((v + rnd-1)/rnd)*rnd] *)
Definition roundup : M F unit :=
  srnd ← Pop; let rnd := atoi srnd in
  sv ← Pop; let v := atoi sv in
  q ← Mlift (int_quo (int_sub (int_add v rnd) 1) rnd);
  let v' := int_mul q rnd in
  Push (Itoa v').

Definition swap : M F unit :=
  x ← Pop;
  y ← Pop;
  Push x;;
  Push y.

Definition strcat : M F unit :=
  x ← Pop;
  y ← Pop;
  Push (y +:+ x).

Definition dup : M F unit :=
  x ← Pop;
  Push x;;
  Push x.

Definition ifelse : M F unit :=
  sx ← Pop; let x := atoi sx in
  y ← Pop;
  z ← Pop;
  if decide (x ≠ 0) then Push y else Push z.

Definition hostname : M F unit :=
  match os_Hostname with
  | None => Mpanic (PanicString "No hostname")
  | Some h => Push h
  end.

Definition hostbase : M F unit :=
  host ← Pop;
  Push (TrimLeft host "abcdefghijklmnopqrstuvwxyz -").

(** The entries of the map literal [opmap], in the order of the source. *)
Definition builtins : list (string * forthop) :=
  [ ("+", Some plus);
    ("-", Some sub);
    ("*", Some times);
    ("/", Some div);
    ("%", Some mod_);
    ("swap", Some swap);
    ("ifelse", Some ifelse);
    ("hostname", Some hostname);
    ("hostbase", Some hostbase);
    ("strcat", Some strcat);
    ("roundup", Some roundup);
    ("dup", Some dup) ].

(** [var opmap = map[string] forthop { ... }]: the table as the package
    initialises it. *)
Definition opmap : gmap string forthop := list_to_map builtins.

(** [Newop]: [opmap[n] = op], on the current table. *)
Definition Newop (n : string) (op : forthop) (ops : gmap string forthop) :
    gmap string forthop :=
  <[n := op]> ops.

(** [fun := opmap[val]]: the operator under [val], nil when there is none. *)
Definition lookup_op (ops : gmap string forthop) (val : string) : forthop :=
  match ops !! val with
  | Some op => op
  | None => None
  end.

End Ops.

Arguments forthop F : clear implicits.

(** What holds of every entry of the map literal holds of every operator
    that a lookup in the initial table finds. *)
Lemma opmap_Forall `{IntSize} `{HostEnv} `{Forth F} (P : M F unit → Prop) :
  Forall (λ e : string * forthop F, ∀ fn, e.2 = Some fn → P fn) builtins →
  ∀ val fn, lookup_op (F := F) opmap val = Some fn → P fn.
Proof.
  intros Hb val fn. unfold lookup_op, opmap.
  destruct (list_to_map builtins !! val) as [op|] eqn:E; [|done]. intros ->.
  by eapply (list_to_map_Forall (λ op, ∀ fn, op = Some fn → P fn) _ _ _ Hb E).
Qed.

(** ** Reference definitions: the stack effect of each operator

    What spec.md section 4.2 tabulates, as total functions on the abstract
    stack: the state and outcome on every branch, the panics included.  An
    operator that finds too few operands has popped what there was: it
    panics with [EmptyStack] on an empty stack. *)

Section Specs.
Context `{IntSize} `{HostEnv}.

(** Pops [sx] then [sy], pushes the text of [op (atoi sx) (atoi sy)]; a
    panic of [op] comes after both pops. *)
Definition binop_spec (op : Z → Z → outcome Z) (st : lifo) : lifo * outcome unit :=
  match st with
  | sx :: sy :: st' =>
    match op (atoi sx) (atoi sy) with
    | Done z => (Itoa z :: st', Done tt)
    | Panicked p => (st', Panicked p)
    end
  | _ => ([], Panicked EmptyStack)
  end.

Definition plus_spec : M lifo unit := binop_spec (λ x y, Done (int_add x y)).

Definition times_spec : M lifo unit := binop_spec (λ x y, Done (int_mul x y)).

Definition sub_spec : M lifo unit := binop_spec (λ x y, Done (int_sub y x)).

Definition div_spec : M lifo unit := binop_spec (λ x y, int_quo y x).

Definition mod_spec : M lifo unit := binop_spec (λ x y, int_rem y x).

Definition roundup_spec : M lifo unit :=
  binop_spec (λ rnd v,
    match int_quo (int_sub (int_add v rnd) 1) rnd with
    | Done q => Done (int_mul q rnd)
    | Panicked p => Panicked p
    end).

Definition swap_spec : M lifo unit := λ st,
  match st with
  | x :: y :: st' => (y :: x :: st', Done tt)
  | _ => ([], Panicked EmptyStack)
  end.

Definition strcat_spec : M lifo unit := λ st,
  match st with
  | x :: y :: st' => ((y +:+ x) :: st', Done tt)
  | _ => ([], Panicked EmptyStack)
  end.

Definition dup_spec : M lifo unit := λ st,
  match st with
  | x :: st' => (x :: x :: st', Done tt)
  | [] => ([], Panicked EmptyStack)
  end.

Definition ifelse_spec : M lifo unit := λ st,
  match st with
  | sx :: y :: z :: st' => ((if decide (atoi sx ≠ 0) then y else z) :: st', Done tt)
  | _ => ([], Panicked EmptyStack)
  end.

Definition hostname_spec : M lifo unit := λ st,
  match os_Hostname with
  | Some h => (h :: st, Done tt)
  | None => (st, Panicked (PanicString "No hostname"))
  end.

Definition hostbase_spec : M lifo unit := λ st,
  match st with
  | host :: st' => (TrimLeft host "abcdefghijklmnopqrstuvwxyz -" :: st', Done tt)
  | [] => ([], Panicked EmptyStack)
  end.

(** *** On the abstract stack, each operator is its reference definition *)

Lemma plus_lifo : plus ≡ plus_spec.
Proof. by intros [|x [|y st]]. Qed.

Lemma times_lifo : times ≡ times_spec.
Proof. by intros [|x [|y st]]. Qed.

Lemma sub_lifo : sub ≡ sub_spec.
Proof. by intros [|x [|y st]]. Qed.

Lemma div_lifo : div ≡ div_spec.
Proof. by intros [|x [|y st]]. Qed.

Lemma mod_lifo : mod_ ≡ mod_spec.
Proof. by intros [|x [|y st]]. Qed.

Lemma roundup_lifo : roundup ≡ roundup_spec.
Proof.
  intros [|x [|y st]]; try done. unfold roundup, roundup_spec, binop_spec. mstep.
  by destruct (int_quo _ (atoi x)).
Qed.

Lemma swap_lifo : swap ≡ swap_spec.
Proof. by intros [|x [|y st]]. Qed.

Lemma strcat_lifo : strcat ≡ strcat_spec.
Proof. by intros [|x [|y st]]. Qed.

Lemma dup_lifo : dup ≡ dup_spec.
Proof. by intros [|x st]. Qed.

Lemma ifelse_lifo : ifelse ≡ ifelse_spec.
Proof.
  intros [|x [|y [|z st]]]; try done. unfold ifelse, ifelse_spec. mstep.
  by case_decide.
Qed.

Lemma hostname_lifo : hostname ≡ hostname_spec.
Proof. intros st. unfold hostname, hostname_spec. by destruct os_Hostname. Qed.

Lemma hostbase_lifo : hostbase ≡ hostbase_spec.
Proof. by intros [|x st]. Qed.

(** *** The reference table

    The reference definitions under the names of the map literal, in the
    order of [builtins]. *)

Definition builtin_specs : list (string * M lifo unit) :=
  [ ("+", plus_spec);
    ("-", sub_spec);
    ("*", times_spec);
    ("/", div_spec);
    ("%", mod_spec);
    ("swap", swap_spec);
    ("ifelse", ifelse_spec);
    ("hostname", hostname_spec);
    ("hostbase", hostbase_spec);
    ("strcat", strcat_spec);
    ("roundup", roundup_spec);
    ("dup", dup_spec) ].

Definition specs : gmap string (M lifo unit) := list_to_map builtin_specs.

(** On the abstract stack, every entry of the table is a non-nil operator
    that is the reference definition under its name. *)
Lemma builtins_lifo :
  Forall2 (λ (b : string * forthop lifo) (sp : string * M lifo unit),
             b.1 = sp.1 ∧ ∃ fn, b.2 = Some fn ∧ fn ≡ sp.2)
    builtins builtin_specs.
Proof.
  unfold builtins, builtin_specs.
  repeat (constructor; [split; [done|]; eexists; split; [done|]; simpl|]);
    [ apply plus_lifo | apply sub_lifo | apply times_lifo | apply div_lifo
    | apply mod_lifo | apply swap_lifo | apply ifelse_lifo | apply hostname_lifo
    | apply hostbase_lifo | apply strcat_lifo | apply roundup_lifo
    | apply dup_lifo | constructor ].
Qed.

End Specs.

(** ** The operators over any implementation of the interface *)

Section Refinement.
Context `{IntSize} `{HostEnv} `{ForthLaws F}.

(** An operator, or nil, over [F] against one over the abstract stack. *)
Definition forthop_refines (op : forthop F) (op' : forthop lifo) : Prop :=
  option_Forall2 (refines contents) op op'.

(** Two operator tables with the same names, whose operators correspond. *)
Definition ops_refines (ops : gmap string (forthop F))
    (ops' : gmap string (forthop lifo)) : Prop :=
  ∀ k, option_Forall2 forthop_refines (ops !! k) (ops' !! k).

Lemma plus_refines : refines contents plus plus.
Proof. unfold plus. refines_tac. Qed.

Lemma times_refines : refines contents times times.
Proof. unfold times. refines_tac. Qed.

Lemma sub_refines : refines contents sub sub.
Proof. unfold sub. refines_tac. Qed.

Lemma div_refines : refines contents div div.
Proof. unfold div. refines_tac. Qed.

Lemma mod_refines : refines contents mod_ mod_.
Proof. unfold mod_. refines_tac. Qed.

Lemma roundup_refines : refines contents roundup roundup.
Proof. unfold roundup. refines_tac. Qed.

Lemma swap_refines : refines contents swap swap.
Proof. unfold swap. refines_tac. Qed.

Lemma strcat_refines : refines contents strcat strcat.
Proof. unfold strcat. refines_tac. Qed.

Lemma dup_refines : refines contents dup dup.
Proof. unfold dup. refines_tac. Qed.

Lemma ifelse_refines : refines contents ifelse ifelse.
Proof. unfold ifelse. refines_tac. Qed.

Lemma hostname_refines : refines contents hostname hostname.
Proof. unfold hostname. refines_tac. Qed.

Lemma hostbase_refines : refines contents hostbase hostbase.
Proof. unfold hostbase. refines_tac. Qed.

Lemma opmap_refines : ops_refines opmap opmap.
Proof.
  intros k. apply list_to_map_Forall2.
  repeat (constructor; [split; [done|]; constructor|]);
    eauto using plus_refines, times_refines, sub_refines, div_refines,
      mod_refines, roundup_refines, swap_refines, strcat_refines, dup_refines,
      ifelse_refines, hostname_refines, hostbase_refines.
Qed.

Lemma Newop_refines n op op' ops ops' :
  forthop_refines op op' → ops_refines ops ops' →
  ops_refines (Newop n op ops) (Newop n op' ops').
Proof.
  intros Hop Hops k. unfold Newop. rewrite !lookup_insert.
  case_decide; [by constructor | apply Hops].
Qed.

Lemma lookup_op_refines ops ops' val :
  ops_refines ops ops' → forthop_refines (lookup_op ops val) (lookup_op ops' val).
Proof.
  intros Hops. unfold lookup_op. destruct (Hops val); simpl; [done | constructor].
Qed.

End Refinement.

(** ** The panics of the built-in operators *)

Section Panics.
Context `{IntSize} `{HostEnv} `{ForthLaws F}.

(** What a built-in operator can panic with: the [os.Error] of [Pop], the
    run-time error of a division by zero, and the string of [hostname], the
    last only when the host name is unknown. *)
Definition builtin_panic (p : panic) : Prop :=
  p = EmptyStack ∨ p = PanicRuntime DivideByZero ∨
  (p = PanicString "No hostname" ∧ os_Hostname = None).

Lemma builtins_panics :
  Forall (λ e : string * forthop F,
            ∀ fn, e.2 = Some fn → panics_within builtin_panic fn) builtins.
Proof.
  assert (Hq : ∀ y x p, int_quo y x = Panicked p → builtin_panic p).
  { intros y x p [_ ->]%int_quo_panics. right. by left. }
  assert (Hr : ∀ y x p, int_rem y x = Panicked p → builtin_panic p).
  { intros y x p [_ ->]%int_rem_panics. right. by left. }
  assert (He : builtin_panic EmptyStack) by by left.
  repeat (apply Forall_cons; split; [simpl; intros fn [= <-]|]);
    [..|by apply Forall_nil];
    unfold plus, sub, times, div, mod_, swap, ifelse, hostname, hostbase,
      strcat, roundup, dup;
    panics_tac; eauto.
  right. by right.
Qed.

(** Every operator of the initial table panics with those values only. *)
Lemma opmap_panics val fn :
  lookup_op (F := F) opmap val = Some fn → panics_within builtin_panic fn.
Proof. apply opmap_Forall, builtins_panics. Qed.

End Panics.

(** ** What the built-in operators respect

    A built-in operator acts on the stack through [Push] and [Pop] only
    (none calls [Reset]), for any implementation of the interface, lawful or
    not: a reflexive and transitive relation between the state before and the
    state after that the two methods respect is respected by every built-in
    operator. *)

Section Preserved.
Context `{IntSize} `{HostEnv} `{Forth F} (R : relation F) `{!PreOrder R}.
Context (HPush : ∀ s, preserves R (Push s)) (HPop : preserves R Pop).

Lemma builtins_preserve :
  Forall (λ e : string * forthop F, ∀ fn, e.2 = Some fn → preserves R fn)
    builtins.
Proof.
  repeat (apply Forall_cons; split; [simpl; intros fn [= <-]|]);
    [..|by apply Forall_nil];
    unfold plus, sub, times, div, mod_, swap, ifelse, hostname, hostbase,
      strcat, roundup, dup;
    preserves_tac.
Qed.

Lemma opmap_preserves val fn :
  lookup_op (F := F) opmap val = Some fn → preserves R fn.
Proof. apply opmap_Forall, builtins_preserve. Qed.

End Preserved.

(** ** Each operator implements its reference definition

    Stated for every implementation [F] of the interface that satisfies
    [ForthLaws]: run on a stack [f], the operator ends with the outcome that
    the reference definition has on [contents f], in a stack whose contents
    are the reference definition's result. *)

Section Correct.
Context `{IntSize} `{HostEnv} `{ForthLaws F}.

(** [plus] pops [x] then [y] and pushes the decimal text of [x + y],
    computed on [int] with wrap-around; operands are read with [Atoi], so a
    text that is no numeral counts as 0.  With fewer than two elements it
    panics with [EmptyStack], having emptied the stack. *)
Theorem plus_correct : refines contents plus plus_spec.
Proof. rewrite <- plus_lifo. apply plus_refines. Qed.

(** [sub] pops [x] then [y] and pushes [y - x]: the second operand
    popped minus the first, wrapped to [int]; [EmptyStack] with fewer than two
    elements. *)
Theorem sub_correct : refines contents sub sub_spec.
Proof. rewrite <- sub_lifo. apply sub_refines. Qed.

(** [times] pops [x] then [y] and pushes [x * y] wrapped to [int];
    [EmptyStack] with fewer than two elements. *)
Theorem times_correct : refines contents times times_spec.
Proof. rewrite <- times_lifo. apply times_refines. Qed.

(** [div] pops [x] then [y] and pushes [y / x], truncated toward
    zero; when [x] is 0 (or no numeral) both operands are gone and the
    run-time panic of integer division is raised; [EmptyStack] with fewer than
    two elements. *)
Theorem div_correct : refines contents div div_spec.
Proof. rewrite <- div_lifo. apply div_refines. Qed.

(** [mod_] (the operator [%]) pops [x] then [y] and pushes the
    remainder [y % x] of the truncated division; when [x] is 0 both operands
    are gone and the run-time panic is raised; [EmptyStack] with fewer than
    two elements. *)
Theorem mod_correct : refines contents mod_ mod_spec.
Proof. rewrite <- mod_lifo. apply mod_refines. Qed.

(** [roundup] pops [rnd] then [v] and pushes
    [((v + rnd - 1) / rnd) * rnd], every operation on [int]; a zero [rnd]
    raises the run-time panic of the division after both pops; [EmptyStack]
    with fewer than two elements. *)
Theorem roundup_correct : refines contents roundup roundup_spec.
Proof. rewrite <- roundup_lifo. apply roundup_refines. Qed.

(** [swap] exchanges the two elements on top of the stack;
    [EmptyStack] with fewer than two elements, the stack left empty. *)
Theorem swap_correct : refines contents swap swap_spec.
Proof. rewrite <- swap_lifo. apply swap_refines. Qed.

(** [strcat] pops [x] then [y] and pushes [y + x]: the strings are
    concatenated in the order they were pushed. *)
Theorem strcat_correct : refines contents strcat strcat_spec.
Proof. rewrite <- strcat_lifo. apply strcat_refines. Qed.

(** [dup] duplicates the top element; [EmptyStack] on an empty
    stack. *)
Theorem dup_correct : refines contents dup dup_spec.
Proof. rewrite <- dup_lifo. apply dup_refines. Qed.

(** [ifelse] pops the flag [x], then [y], then [z], and pushes [y]
    when [Atoi x] is not 0 and [z] when it is; [EmptyStack] with fewer than
    three elements, the stack left empty. *)
Theorem ifelse_correct : refines contents ifelse ifelse_spec.
Proof. rewrite <- ifelse_lifo. apply ifelse_refines. Qed.

(** [hostname] pushes the host name and pops nothing; when the host
    name is unknown it panics with the string "No hostname" and leaves the
    stack as it was. *)
Theorem hostname_correct : refines contents hostname hostname_spec.
Proof. rewrite <- hostname_lifo. apply hostname_refines. Qed.

(** [hostbase] replaces the top element by what is left of it after
    its longest prefix of lower-case letters, spaces and hyphens is removed;
    [EmptyStack] on an empty stack. *)
Theorem hostbase_correct : refines contents hostbase hostbase_spec.
Proof. rewrite <- hostbase_lifo. apply hostbase_refines. Qed.

(** C9: the initial table implements the reference table.  Under each of
    the twelve names of the map literal the table holds an operator that is
    not nil and that, on every implementation of the stack, does what the
    reference definition of that name does on the contents: the same pops
    and pushes, the same result, the same panic.  Under any other name the
    table holds nothing. *)
Theorem opmap_implements_specs val :
  option_Forall2
    (λ (op : forthop F) spec, ∃ fn, op = Some fn ∧ refines contents fn spec)
    (opmap !! val) (specs !! val).
Proof.
  eapply option_Forall2_compose;
    [ apply opmap_refines
    | apply (list_to_map_Forall2
               (λ (op : forthop lifo) sp, ∃ fn, op = Some fn ∧ fn ≡ sp)
               _ _ val builtins_lifo) |].
  intros op op' spec Hop (fn' & -> & Hfn).
  inversion Hop as [fn ? Hfn'|]; subst. exists fn. split; [done|].
  by rewrite <- Hfn.
Qed.

End Correct.

(** ** The operators on numerals

    What the arithmetic operators compute when their operands are the
    decimal texts of [int] values, as [Itoa] writes them and as an evaluation
    leaves them on the stack. *)

Section Numerals.
Context `{IntSize} `{HostEnv} `{ForthLaws F}.

(** A numeral names no operator of the initial table. *)
Lemma opmap_numeral val :
  string_forallb is_numeral_char val → val ≠ "-" →
  lookup_op (F := F) opmap val = None.
Proof.
  intros Hnum Hdash. unfold lookup_op, opmap.
  rewrite (not_elem_of_list_to_map_1 (M := gmap string)); [done|].
  simpl. rewrite !elem_of_cons, elem_of_nil. intros Hin.
  destruct_or!; by subst.
Qed.

Lemma opmap_Itoa z : lookup_op (F := F) opmap (Itoa z) = None.
Proof. apply opmap_numeral; [apply Itoa_chars | apply Itoa_not_dash]. Qed.

(** [plus] adds.  On the numerals of [a] and [b], when [a + b] is an
    [int], it leaves the numeral of [a + b] in their place. *)
Theorem plus_numerals f a b st :
  is_int a → is_int b → is_int (a + b) →
  contents f = Itoa a :: Itoa b :: st →
  ∃ f', plus f = (f', Done tt) ∧ contents f' = Itoa (a + b) :: st.
Proof.
  intros Ha Hb Hab Hf.
  eapply refines_run_equiv; [apply plus_refines | apply plus_lifo |].
  rewrite Hf. unfold plus_spec, binop_spec.
  by rewrite !atoi_Itoa, int_add_exact.
Qed.

(** C38: [plus] overflows silently.  Adding 1 to the largest [int] leaves
    the numeral of the smallest [int]; no error is raised. *)
Theorem plus_wraps f st :
  contents f = Itoa 1 :: Itoa MaxInt :: st →
  ∃ f', plus f = (f', Done tt) ∧ contents f' = Itoa MinInt :: st.
Proof.
  intros Hf.
  eapply refines_run_equiv; [apply plus_refines | apply plus_lifo |].
  rewrite Hf. unfold plus_spec, binop_spec.
  rewrite !atoi_Itoa by (apply is_int_MaxInt || by apply is_int_small).
  unfold int_add. by rewrite Z.add_comm, int_wrap_MaxInt_succ.
Qed.

(** C19: [plus] on any two texts.  Whatever the two texts on top of the
    stack are, [plus] returns, and leaves in their place the numeral of the
    sum, wrapped around to [int], of what they read as: a numeral (an
    optional sign and digits, leading zeros included) reads as its value,
    clamped to the range of [int]; a text that is no numeral reads as 0,
    unless the digits it starts with pass 64 bits, and then as the bound.  No
    error is raised for a text that is no number, for a numeral out of range
    or for a sum that overflows. *)
Theorem plus_reads f sx sy st :
  contents f = sx :: sy :: st →
  ∃ f', plus f = (f', Done tt) ∧
        contents f' = Itoa (int_wrap ((reads sx).1 + (reads sy).1)) :: st.
Proof.
  intros Hf.
  eapply refines_run_equiv; [apply plus_refines | apply plus_lifo |].
  rewrite Hf. unfold plus_spec, binop_spec. by rewrite !atoi_reads.
Qed.

(** C37: [div] divides the second operand popped by the first, rounding
    toward zero.  With [a] on top of [b], [a] not 0 and the quotient an [int],
    it leaves the numeral of [b ÷ a], whose absolute value is that of the
    exact quotient rounded down: [|b ÷ a| * |a| <= |b| < (|b ÷ a| + 1) * |a|]. *)
Theorem div_numerals f a b st :
  is_int a → is_int b → a ≠ 0 → ¬ (b = MinInt ∧ a = -1) →
  contents f = Itoa a :: Itoa b :: st →
  (∃ f', div f = (f', Done tt) ∧ contents f' = Itoa (b ÷ a) :: st) ∧
  Z.abs (b ÷ a) * Z.abs a ≤ Z.abs b < (Z.abs (b ÷ a) + 1) * Z.abs a.
Proof.
  intros Ha Hb Ha0 Hov Hf. split.
  - eapply refines_run_equiv; [apply div_refines | apply div_lifo |].
    rewrite Hf. unfold div_spec, binop_spec.
    by rewrite !atoi_Itoa, int_quo_exact.
  - rewrite <- Z.quot_abs by done.
    pose proof (Z.quot_rem' (Z.abs b) (Z.abs a)).
    pose proof (Z.rem_bound_pos (Z.abs b) (Z.abs a)). lia.
Qed.

(** C14: a divisor that reads as 0 crashes [div].  When the text on top
    is "0", or any text that [Atoi] reads as 0 (a word, the empty string),
    [div] has popped both operands and raises the run-time panic of integer
    division: it returns no error value. *)
Theorem div_by_zero f sx sy st :
  atoi sx = 0 → contents f = sx :: sy :: st →
  ∃ f', div f = (f', Panicked (PanicRuntime DivideByZero)) ∧ contents f' = st.
Proof.
  intros Hx Hf.
  eapply refines_run_equiv; [apply div_refines | apply div_lifo |].
  rewrite Hf. unfold div_spec, binop_spec. by rewrite Hx.
Qed.

(** [mod_] leaves the remainder of the truncated division, which
    has the sign of the dividend: with [a] on top of [b] and [a] not 0, the
    numeral of [r = b rem a], where [b = a * (b ÷ a) + r], [|r| < |a|], and
    [r] is 0 or has the sign of [b]. *)
Theorem mod_numerals f a b st :
  is_int a → is_int b → a ≠ 0 →
  contents f = Itoa a :: Itoa b :: st →
  (∃ f', mod_ f = (f', Done tt) ∧ contents f' = Itoa (b `rem` a) :: st) ∧
  b = a * (b ÷ a) + b `rem` a ∧ Z.abs (b `rem` a) < Z.abs a ∧ 0 ≤ (b `rem` a) * b.
Proof.
  intros Ha Hb Ha0 Hf. split_and!.
  - eapply refines_run_equiv; [apply mod_refines | apply mod_lifo |].
    rewrite Hf. unfold mod_spec, binop_spec. rewrite !atoi_Itoa by done.
    unfold int_rem. by rewrite decide_False.
  - apply Z.quot_rem'.
  - by apply Z.rem_bound_abs.
  - by apply Z.rem_sign_mul.
Qed.

(** C16: [roundup] rounds up to a multiple.  With the numeral of a
    positive [int] [rnd] on top of that of a non-negative [v], and
    [v + rnd - 1] an [int], it leaves the numeral of the least multiple of [rnd] that is at
    least [v]. *)
Theorem roundup_rounds_up f rnd v st :
  0 ≤ v → 0 < rnd ≤ MaxInt → v + rnd - 1 ≤ MaxInt →
  contents f = Itoa rnd :: Itoa v :: st →
  ∃ f' k, roundup f = (f', Done tt) ∧ contents f' = Itoa (k * rnd) :: st ∧
          v ≤ k * rnd < v + rnd.
Proof.
  intros Hv Hrnd Hmax Hf. pose proof MinInt_neg.
  destruct (int_roundup_exact v rnd) as (k & Hq & Hm & Hk); [lia..|].
  destruct (refines_run_equiv contents roundup roundup roundup_spec f
    (Itoa (k * rnd) :: st) (Done tt)) as (f' & Hrun & Hf');
    [apply roundup_refines | apply roundup_lifo | | by eauto].
  rewrite Hf. unfold roundup_spec, binop_spec.
  rewrite !atoi_Itoa by (unfold is_int; lia). cbv beta. by rewrite Hq, Hm.
Qed.

(** C40: [hostbase] strips lower-case letters, spaces and hyphens from
    the front.  What it leaves is a suffix [r] of the text [host] on top of
    the stack; the prefix removed consists of those characters only, and [r]
    does not begin with one of them. *)
Theorem hostbase_strips f host st :
  contents f = host :: st →
  ∃ f' p r, hostbase f = (f', Done tt) ∧ contents f' = r :: st ∧
    host = p +:+ r ∧
    string_forallb (λ c, string_mem c "abcdefghijklmnopqrstuvwxyz -") p ∧
    TrimLeft r "abcdefghijklmnopqrstuvwxyz -" = r.
Proof.
  intros Hf. set (cutset := "abcdefghijklmnopqrstuvwxyz -").
  destruct (TrimLeft_suffix host cutset) as (p & Hp & Hin).
  destruct (refines_run_equiv contents hostbase hostbase hostbase_spec f
    (TrimLeft host cutset :: st) (Done tt)) as (f' & Hrun & Hf');
    [apply hostbase_refines | apply hostbase_lifo | by rewrite Hf |].
  exists f', p, (TrimLeft host cutset).
  split_and!; [done.. | apply TrimLeft_idemp].
Qed.

End Numerals.

(** ** The registry *)

Section Registry.
Context `{IntSize} `{HostEnv} `{Forth F}.
Implicit Types ops : gmap string (forthop F).

(** Reading the table after [Newop]: the name registered has the new
    operator, every other name what it had. *)
Lemma lookup_op_Newop ops n op val :
  lookup_op (Newop n op ops) val = if decide (n = val) then op else lookup_op ops val.
Proof. unfold lookup_op, Newop. rewrite lookup_insert. by case_decide. Qed.

Lemma lookup_op_Newop_eq ops n op : lookup_op (Newop n op ops) n = op.
Proof. by rewrite lookup_op_Newop, decide_True. Qed.

Lemma lookup_op_Newop_ne ops n op val :
  n ≠ val → lookup_op (Newop n op ops) val = lookup_op ops val.
Proof. intros. by rewrite lookup_op_Newop, decide_False. Qed.

(** The names of the initial table are those of the map literal. *)
Lemma opmap_names val :
  is_Some (opmap (F := F) !! val) ↔
  val ∈ ["+"; "-"; "*"; "/"; "%"; "swap"; "ifelse"; "hostname"; "hostbase";
         "strcat"; "roundup"; "dup"].
Proof.
  unfold opmap. rewrite <- elem_of_dom, dom_list_to_map_L, elem_of_list_to_set.
  done.
Qed.

(** The last registration wins.  Registering [op2] under a name
    that [op1] was registered under leaves the table that registering [op2]
    alone gives, and a lookup of that name finds [op2]. *)
Theorem Newop_last_wins ops n op1 op2 :
  Newop n op2 (Newop n op1 ops) = Newop n op2 ops ∧
  lookup_op (Newop n op2 (Newop n op1 ops)) n = op2.
Proof. split; [apply insert_insert_eq | apply lookup_op_Newop_eq]. Qed.

End Registry.

(** ** The properties at concrete inputs: 64-bit [int], the slice
    implementation *)

(** Host environments for the examples: a host called "sb43", and one whose
    name cannot be read. *)
Definition host_sb43 : HostEnv := {| os_Hostname := Some "sb43" |}.

Definition host_unknown : HostEnv := {| os_Hostname := None |}.

#[local] Existing Instance int64.
#[local] Existing Instance host_sb43.

Lemma plus_numerals_witness :
  is_int 2 ∧ is_int 3 ∧ is_int (2 + 3) ∧
  contents {| stack := ["3"; "2"] |} = [Itoa 2; Itoa 3] ∧
  ∃ f', plus {| stack := ["3"; "2"] |} = (f', Done tt) ∧ contents f' = [Itoa (2 + 3)].
Proof.
  assert (H2 : is_int 2) by (apply is_int_small; lia).
  assert (H3 : is_int 3) by (apply is_int_small; lia).
  assert (H5 : is_int (2 + 3)) by (apply is_int_small; lia).
  refine (conj H2 (conj H3 (conj H5 (conj eq_refl _)))).
  exact (plus_numerals {| stack := ["3"; "2"] |} 2 3 [] H2 H3 H5 eq_refl).
Defined.

Lemma plus_wraps_witness :
  contents {| stack := ["9223372036854775807"; "1"] |} = [Itoa 1; Itoa MaxInt] ∧
  ∃ f', plus {| stack := ["9223372036854775807"; "1"] |} = (f', Done tt) ∧
        contents f' = [Itoa MinInt].
Proof.
  split; [reflexivity|].
  exact (plus_wraps {| stack := ["9223372036854775807"; "1"] |} [] eq_refl).
Defined.

(** "+1" on top of a numeral of twenty digits: the numeral reads as the
    largest [int] and the sum wraps around to the smallest. *)
Lemma plus_reads_witness :
  contents {| stack := ["99999999999999999999"; "+1"] |} =
    ["+1"; "99999999999999999999"] ∧
  ∃ f', plus {| stack := ["99999999999999999999"; "+1"] |} = (f', Done tt) ∧
        contents f' =
          [Itoa (int_wrap ((reads "+1").1 + (reads "99999999999999999999").1))].
Proof.
  split; [reflexivity|].
  exact (plus_reads {| stack := ["99999999999999999999"; "+1"] |} _ _ [] eq_refl).
Defined.

Lemma div_numerals_witness :
  is_int 2 ∧ is_int (-7) ∧ 2 ≠ 0 ∧ ¬ (-7 = MinInt ∧ 2 = -1) ∧
  contents {| stack := ["-7"; "2"] |} = [Itoa 2; Itoa (-7)] ∧
  (∃ f', div {| stack := ["-7"; "2"] |} = (f', Done tt) ∧
         contents f' = [Itoa (-7 ÷ 2)]) ∧
  Z.abs (-7 ÷ 2) * Z.abs 2 ≤ Z.abs (-7) < (Z.abs (-7 ÷ 2) + 1) * Z.abs 2.
Proof.
  assert (H2 : is_int 2) by (apply is_int_small; lia).
  assert (H7 : is_int (-7)) by (apply is_int_small; lia).
  assert (Hne : 2 ≠ 0) by lia.
  assert (Hov : ¬ (-7 = MinInt ∧ 2 = -1)) by lia.
  refine (conj H2 (conj H7 (conj Hne (conj Hov (conj eq_refl _))))).
  exact (div_numerals {| stack := ["-7"; "2"] |} 2 (-7) [] H2 H7 Hne Hov eq_refl).
Defined.

Lemma div_by_zero_witness :
  atoi "x" = 0 ∧ contents {| stack := ["4"; "x"] |} = ["x"; "4"] ∧
  ∃ f', div {| stack := ["4"; "x"] |} = (f', Panicked (PanicRuntime DivideByZero)) ∧
        contents f' = [].
Proof.
  split_and!; [reflexivity..|].
  exact (div_by_zero {| stack := ["4"; "x"] |} "x" "4" [] eq_refl eq_refl).
Defined.

Lemma mod_numerals_witness :
  is_int 2 ∧ is_int (-7) ∧ 2 ≠ 0 ∧
  contents {| stack := ["-7"; "2"] |} = [Itoa 2; Itoa (-7)] ∧
  (∃ f', mod_ {| stack := ["-7"; "2"] |} = (f', Done tt) ∧
         contents f' = [Itoa (-7 `rem` 2)]) ∧
  -7 = 2 * (-7 ÷ 2) + -7 `rem` 2 ∧ Z.abs (-7 `rem` 2) < Z.abs 2 ∧
  0 ≤ (-7 `rem` 2) * -7.
Proof.
  assert (H2 : is_int 2) by (apply is_int_small; lia).
  assert (H7 : is_int (-7)) by (apply is_int_small; lia).
  assert (Hne : 2 ≠ 0) by lia.
  refine (conj H2 (conj H7 (conj Hne (conj eq_refl _)))).
  exact (mod_numerals {| stack := ["-7"; "2"] |} 2 (-7) [] H2 H7 Hne eq_refl).
Defined.

Lemma roundup_rounds_up_witness :
  0 ≤ 4095 ∧ 0 < 4096 ≤ MaxInt ∧ 4095 + 4096 - 1 ≤ MaxInt ∧
  contents {| stack := ["4095"; "4096"] |} = [Itoa 4096; Itoa 4095] ∧
  ∃ f' k, roundup {| stack := ["4095"; "4096"] |} = (f', Done tt) ∧
          contents f' = [Itoa (k * 4096)] ∧ 4095 ≤ k * 4096 < 4095 + 4096.
Proof.
  assert (Hv : 0 ≤ 4095) by lia.
  assert (Hrnd : 0 < 4096 ≤ MaxInt) by (pose proof MaxInt_ge_32; lia).
  assert (Hmax : 4095 + 4096 - 1 ≤ MaxInt) by (pose proof MaxInt_ge_32; lia).
  refine (conj Hv (conj Hrnd (conj Hmax (conj eq_refl _)))).
  exact (roundup_rounds_up {| stack := ["4095"; "4096"] |} 4096 4095 []
           Hv Hrnd Hmax eq_refl).
Defined.

Lemma hostbase_strips_witness :
  contents {| stack := ["sb43"] |} = ["sb43"] ∧
  ∃ f' p r, hostbase {| stack := ["sb43"] |} = (f', Done tt) ∧ contents f' = [r] ∧
    "sb43" = p +:+ r ∧
    string_forallb (λ c, string_mem c "abcdefghijklmnopqrstuvwxyz -") p ∧
    TrimLeft r "abcdefghijklmnopqrstuvwxyz -" = r.
Proof.
  split; [reflexivity|].
  exact (hostbase_strips {| stack := ["sb43"] |} "sb43" [] eq_refl).
Defined.
