(* ===== verification/Eval.v ===== *)
(** * Eval: the evaluation loop and its recover boundary

    src/forth.go:78-106.  [Eval] splits its input on the space character,
    runs every non-empty token (an operator of the table is called, any other
    token is pushed), pops the result, and returns it.  The deferred
    [errRecover] turns a panic whose value is an [os.Error] into the returned
    error; it panics again on a [runtime.Error], and its type assertion
    [e.(os.Error)] panics on any other value.

    The operator table is a parameter [ops]: the value of the package-level
    variable [opmap] when [Eval] is called.  No built-in operator writes the
    table, so the table the loop reads is the same at every token.

    [Eval_spec] is what a call promises, said without the interface: a
    function on the list of the values on the stack, from the reference
    definitions of the operators ([Ops.specs]).  [Eval_implements_spec]
    shows that [Eval] with the initial table computes it on every lawful
    implementation of the stack. *)

From S2P Require Import Prelude GoInt GoStrconv GoStrings Stack Ops.

(** An [os.Error] made by [os.NewError] is known by its message. *)
Definition os_Error : Type := string.

(** [errRecover(errp)], given the value [e] that [recover()] returns
    ([None] when the function is not panicking) and the current [*errp]:
    the new [*errp], or the panic it raises. *)
Definition errRecover (e : option panic) (err : option os_Error) :
    outcome (option os_Error) :=
  match e with
  | None => Done err
  | Some (PanicRuntime r) => Panicked (PanicRuntime r)
  | Some (PanicError msg) => Done (Some msg)
  | Some (PanicString _) => Panicked (PanicRuntime TypeAssertionFailed)
  end.

Section Eval.
Context `{IntSize} `{HostEnv} `{Forth F}.

(** The body of the loop for one token [val]. *)
Definition eval_token (ops : gmap string (forthop F)) (val : string) : M F unit :=
  if decide (String.length val = 0%nat ∨ val = " ") then mret tt
  else
    match lookup_op ops val with
    | Some fn => fn
    | None => Push val
    end.

(** [for _, val := range(strings.Split(s, " ")) { ... }] *)
Fixpoint eval_loop (ops : gmap string (forthop F)) (vals : list string) : M F unit :=
  match vals with
  | [] => mret tt
  | val :: vals' => eval_token ops val;; eval_loop ops vals'
  end.

(** The statements of [Eval] before the deferred call runs: the loop, then
    [ret = f.Pop()]. *)
Definition eval_body (ops : gmap string (forthop F)) (s : string) : M F string :=
  eval_loop ops (Split s " ");; Pop.

(** [Eval]: the body, then the deferred [errRecover(&err)] on the way out.
    A panic leaves the named result [ret] at its zero value. *)
Definition Eval (ops : gmap string (forthop F)) (s : string) :
    M F (string * option os_Error) := λ f,
  let '(f', o) := eval_body ops s f in
  let ret := match o with Done r => r | Panicked _ => "" end in
  let e := match o with Done _ => None | Panicked p => Some p end in
  (f', err ← errRecover e None; mret (ret, err)).

End Eval.

(** What [Eval] returns for an outcome [o] of its body: the way out through
    [errRecover], as a function of [o] alone.  This table is no definition of
    the source: [Eval_unfold] derives it from [Eval] and [errRecover], and the
    statements below use it to say what a call returns. *)
Definition Eval_return (o : outcome string) : outcome (string * option os_Error) :=
  match o with
  | Done ret => Done (ret, None)
  | Panicked (PanicError msg) => Done ("", Some msg)
  | Panicked (PanicRuntime r) => Panicked (PanicRuntime r)
  | Panicked (PanicString _) => Panicked (PanicRuntime TypeAssertionFailed)
  end.

(** ** The loop *)

Section Loop.
Context `{IntSize} `{HostEnv} `{Forth F}.
Implicit Types ops : gmap string (forthop F).

(** An empty token is skipped. *)
Lemma eval_token_empty ops : eval_token ops "" = mret tt.
Proof. done. Qed.

(** A token that names an operator runs it. *)
Lemma eval_token_op ops val fn :
  val ≠ "" → val ≠ " " → ops !! val = Some (Some fn) → eval_token ops val = fn.
Proof.
  intros Hne Hsp Hop. unfold eval_token, lookup_op, forthop in *. rewrite Hop.
  rewrite decide_False; [done|]. intros [Hl | ?]; [|done]. by destruct val.
Qed.

(** A token that names no operator, or the nil operator, is pushed. *)
Lemma eval_token_literal ops val :
  val ≠ "" → val ≠ " " → lookup_op ops val = None → eval_token ops val = Push val.
Proof.
  intros Hne Hsp Hop. unfold eval_token. rewrite Hop.
  rewrite decide_False; [done|]. intros [Hl | ?]; [|done]. by destruct val.
Qed.

(** The loop over a concatenation runs the first part, then the second. *)
Lemma eval_loop_app ops vals1 vals2 :
  eval_loop ops (vals1 ++ vals2) ≡ (eval_loop ops vals1;; eval_loop ops vals2).
Proof.
  induction vals1 as [|val vals1 IH]; simpl.
  - by rewrite M_left_id.
  - rewrite M_assoc. by setoid_rewrite IH.
Qed.

(** Empty tokens, which runs of spaces produce, change nothing. *)
Lemma eval_loop_filter ops vals :
  eval_loop ops (filter (λ val, val ≠ "") vals) ≡ eval_loop ops vals.
Proof.
  induction vals as [|val vals IH]; [done|].
  destruct (decide (val = "")) as [-> | Hval].
  - rewrite filter_cons_False by naive_solver. simpl.
    rewrite eval_token_empty, M_left_id. apply IH.
  - rewrite filter_cons_True by done. simpl. by setoid_rewrite IH.
Qed.

(** A panic ends the loop: the tokens after it are not run. *)
Lemma eval_loop_panic ops vals1 vals2 f f' p :
  eval_loop ops vals1 f = (f', Panicked p) →
  eval_loop ops (vals1 ++ vals2) f = (f', Panicked p).
Proof. intros Hp. rewrite eval_loop_app. munfold. by rewrite Hp. Qed.

(** When it returns, the loop goes on with the tokens that follow. *)
Lemma eval_loop_seq ops vals1 vals2 f f1 :
  eval_loop ops vals1 f = (f1, Done tt) →
  eval_loop ops (vals1 ++ vals2) f = eval_loop ops vals2 f1.
Proof. intros Hd. rewrite eval_loop_app. munfold. by rewrite Hd. Qed.

(** The loop over one token that names an operator is that operator. *)
Lemma eval_loop_single ops val fn :
  val ≠ "" → val ≠ " " → ops !! val = Some (Some fn) → eval_loop ops [val] ≡ fn.
Proof. intros. simpl. by rewrite M_right_id_tt, (eval_token_op _ _ fn). Qed.

(** The loop reads the table at its tokens only. *)
Lemma eval_loop_ext ops1 ops2 vals :
  Forall (λ val, lookup_op ops1 val = lookup_op ops2 val) vals →
  eval_loop ops1 vals = eval_loop ops2 vals.
Proof.
  induction 1 as [|val vals Hval _ IH]; [done|]. simpl.
  unfold eval_token. by rewrite Hval, IH.
Qed.

(** No token that [Split] cuts on the space is the string [" "]. *)
Lemma Split_not_space s val : val ∈ Split s " " → val ≠ " ".
Proof.
  intros Hval ->. pose proof (Split_no_sep s " ") as Hs.
  rewrite Forall_forall in Hs. by apply Hs in Hval.
Qed.

End Loop.

(** ** Refinement: the evaluator over any implementation of the interface *)

Section Refinement.
Context `{IntSize} `{HostEnv} `{ForthLaws F}.

Lemma eval_token_refines ops ops' val :
  ops_refines ops ops' →
  refines contents (eval_token ops val) (eval_token ops' val).
Proof.
  intros Hops. unfold eval_token. case_decide; [apply refines_ret|].
  destruct (lookup_op_refines ops ops' val Hops); [done | apply Push_refines].
Qed.

Lemma eval_loop_refines ops ops' vals :
  ops_refines ops ops' →
  refines contents (eval_loop ops vals) (eval_loop ops' vals).
Proof.
  intros Hops. induction vals as [|val vals IH]; [apply refines_ret|].
  apply refines_bind; [by apply eval_token_refines | done].
Qed.

Lemma eval_body_refines ops ops' s :
  ops_refines ops ops' →
  refines contents (eval_body ops s) (eval_body ops' s).
Proof.
  intros Hops. apply refines_bind; [by apply eval_loop_refines|].
  intros _. apply Pop_refines.
Qed.

(** [Eval] is its body followed by [Eval_return]. *)
Lemma Eval_unfold ops s f :
  Eval ops s f = prod_map id Eval_return (eval_body ops s f).
Proof.
  unfold Eval. destruct (eval_body ops s f) as [f' [ret|[msg|r|v]]]; done.
Qed.

(** [Eval] of a single token: the operator it names is run, or the token is
    pushed; then the result is popped. *)
Lemma Eval_one_token ops val f :
  val ≠ "" → no_sep " " val →
  Eval ops val f =
    prod_map id Eval_return ((default (Push val) (lookup_op ops val);; Pop) f).
Proof.
  intros Hne Hsp. rewrite Eval_unfold. f_equal. unfold eval_body.
  rewrite Split_word by done.
  assert (Hloop : eval_loop ops [val] ≡ default (Push val) (lookup_op ops val)).
  { simpl. rewrite M_right_id_tt. unfold eval_token.
    rewrite decide_False; [by destruct (lookup_op ops val)|].
    intros [Hl | ->]; [by destruct val | done]. }
  munfold. by rewrite (Hloop f).
Qed.

(** A specification of the body gives one of [Eval]. *)
Lemma Eval_refines_body ops s (spec : M lifo string) :
  refines contents (eval_body ops s) spec →
  refines contents (Eval ops s) (λ st, prod_map id Eval_return (spec st)).
Proof.
  intros Hb f. rewrite Eval_unfold, <- (Hb f).
  by destruct (eval_body ops s f).
Qed.

(** *** The panics of the loop with the initial table *)

Lemma eval_token_panics val :
  panics_within builtin_panic (eval_token (F := F) opmap val).
Proof.
  unfold eval_token. case_decide; [apply panics_within_ret|].
  destruct (lookup_op opmap val) as [fn|] eqn:E;
    [by eapply opmap_panics | apply Push_panics].
Qed.

Lemma eval_body_panics s :
  panics_within builtin_panic (eval_body (F := F) opmap s).
Proof.
  apply panics_within_bind; [|intros _; apply Pop_panics; by left].
  induction (Split s " ") as [|val vals IH]; [apply panics_within_ret|].
  apply panics_within_bind; [apply eval_token_panics | done].
Qed.

(** The panics of the body with the initial table, on its outcome. *)
Lemma eval_body_outcome s f p :
  (eval_body (F := F) opmap s f).2 = Panicked p → builtin_panic p.
Proof.
  intros Hp. apply (eval_body_panics s f (eval_body opmap s f).1 p).
  rewrite <- Hp. apply surjective_pairing.
Qed.

End Refinement.

(** ** The abstract evaluator

    What a call of [Eval] with the initial table does, as a function on the
    list of the values on the stack, the top first.  The input is cut at
    the spaces and the empty pieces are dropped.  The tokens are taken from
    left to right: a token that names a built-in operator is run by the
    reference definition of that operator, any other token is put on top
    of the stack.  The first panic ends the run and leaves the stack as it
    is.  A run that ends without a panic takes the top value as the result;
    when there is none, or when the run panicked with an [os.Error], the
    result is the empty string and that error; any other panic goes on
    into the caller, as itself when it is a [runtime.Error] and as the
    failed type assertion when it is not. *)

Section Spec.
Context `{IntSize} `{HostEnv}.

Definition token_spec (val : string) : M lifo unit :=
  match specs !! val with
  | Some spec => spec
  | None => λ st, (val :: st, Done tt)
  end.

Fixpoint tokens_spec (vals : list string) (st : lifo) : lifo * outcome unit :=
  match vals with
  | [] => (st, Done tt)
  | val :: vals' =>
      match token_spec val st with
      | (st', Done _) => tokens_spec vals' st'
      | (st', Panicked p) => (st', Panicked p)
      end
  end.

Definition Eval_spec (s : string) (st : lifo) :
    lifo * outcome (string * option os_Error) :=
  match tokens_spec (filter (λ val, val ≠ "") (Split s " ")) st with
  | (ret :: st', Done _) => (st', Done (ret, None))
  | ([], Done _) => ([], Done ("", Some "Empty stack"))
  | (st', Panicked (PanicError msg)) => (st', Done ("", Some msg))
  | (st', Panicked (PanicRuntime r)) => (st', Panicked (PanicRuntime r))
  | (st', Panicked (PanicString _)) =>
      (st', Panicked (PanicRuntime TypeAssertionFailed))
  end.

(** On the abstract stack the body of the loop, for a token that passes its
    guard, is [token_spec]. *)
Lemma token_spec_lifo val :
  val ≠ "" → val ≠ " " → eval_token (F := lifo) opmap val ≡ token_spec val.
Proof.
  intros Hne Hsp. unfold eval_token, token_spec, lookup_op.
  rewrite decide_False by (intros [Hl | ->]; [by destruct val | done]).
  pose proof (list_to_map_Forall2
    (λ (op : forthop lifo) sp, ∃ fn, op = Some fn ∧ fn ≡ sp) _ _ val builtins_lifo) as Hrel.
  change (option_Forall2 (λ (op : forthop lifo) sp, ∃ fn, op = Some fn ∧ fn ≡ sp)
            (opmap !! val) (specs !! val)) in Hrel.
  by destruct Hrel as [op sp (fn & -> & Hfn)|].
Qed.

Lemma tokens_spec_lifo vals :
  Forall (λ val, val ≠ "" ∧ val ≠ " ") vals →
  eval_loop (F := lifo) opmap vals ≡ tokens_spec vals.
Proof.
  induction 1 as [|val vals [Hne Hsp] _ IH]; [done|]. intros st.
  cbn [eval_loop tokens_spec]. munfold. rewrite (token_spec_lifo val Hne Hsp st).
  destruct (token_spec val st) as [st' [[]|p]]; [apply IH | done].
Qed.

(** The pieces of an input that are not empty are not a space either. *)
Lemma Split_tokens s :
  Forall (λ val, val ≠ "" ∧ val ≠ " ") (filter (λ val, val ≠ "") (Split s " ")).
Proof.
  apply Forall_forall. intros val [Hne Hval]%list_elem_of_filter.
  split; [done | by eapply Split_not_space].
Qed.

End Spec.

(** The ways out through [errRecover], for a body that panics as the
    built-in operators do. *)
Lemma Eval_return_ways_out `{HostEnv} (o : outcome string) :
  (∀ p, o = Panicked p → builtin_panic p) →
  (∃ ret, Eval_return o = Done (ret, None)) ∨
  Eval_return o = Done ("", Some "Empty stack") ∨
  Eval_return o = Panicked (PanicRuntime DivideByZero) ∨
  (Eval_return o = Panicked (PanicRuntime TypeAssertionFailed) ∧ os_Hostname = None).
Proof.
  intros Hp. destruct o as [ret|p]; simpl; [by eauto|].
  destruct (Hp p eq_refl) as [-> | [-> | [-> ?]]]; simpl; auto.
Qed.

(** ** Properties of [Eval] *)

Section Properties.
Context `{IntSize} `{HostEnv} `{ForthLaws F}.
Implicit Types ops : gmap string (forthop F).

(** C2: [Eval] implements the abstract evaluator.  On every implementation
    of the interface that satisfies [ForthLaws], for every input and from
    every stack, a call of [Eval] with the initial table returns, or panics
    with, what [Eval_spec] gives for that input on the contents of the
    stack, and leaves a stack whose contents are those [Eval_spec] leaves:
    the guard on empty tokens, the lookup in the table, the twelve
    operators, the stop at the first panic, the final [Pop] and the way out
    through [errRecover] together do what the reference definitions say. *)
Theorem Eval_implements_spec s (f : F) :
  prod_map contents id (Eval opmap s f) = Eval_spec s (contents f).
Proof.
  rewrite (Eval_refines_body opmap s _
             (eval_body_refines opmap opmap s opmap_refines) f).
  unfold eval_body, Eval_spec. munfold.
  rewrite <- (eval_loop_filter opmap (Split s " ") (contents f)).
  rewrite (tokens_spec_lifo _ (Split_tokens s) (contents f)).
  by destruct (tokens_spec _ _) as [[|ret st'] [[]|[msg|r|v]]].
Qed.

(** C1: the ways out of [Eval] with the initial table.  It returns a
    result and no error; or the empty string and the error "Empty stack"; or
    it panics, with the run-time error of a division by zero, or, when the
    host name is unknown, with the run-time error of the failed type assertion
    in [errRecover].  It returns no other error, and a division by zero or an
    unknown host name is never returned as an error. *)
Theorem Eval_outcomes s f :
  let o := (Eval opmap s f).2 in
  (∃ ret, o = Done (ret, None)) ∨
  o = Done ("", Some "Empty stack") ∨
  o = Panicked (PanicRuntime DivideByZero) ∨
  (o = Panicked (PanicRuntime TypeAssertionFailed) ∧ os_Hostname = None).
Proof.
  rewrite Eval_unfold. simpl.
  apply Eval_return_ways_out, eval_body_outcome.
Qed.

(** C33: the empty input.  [Eval] of the empty string runs no token and
    pops: on an empty stack it returns the error "Empty stack" and the empty
    string; on a stack that a previous evaluation left non-empty it returns
    the top of that stack, and no error. *)
Theorem Eval_empty_input ops :
  refines contents (Eval ops "")
    (λ st, match st with
           | [] => ([], Done ("", Some "Empty stack"))
           | x :: st' => (st', Done (x, None))
           end).
Proof.
  intros f. etrans; [apply (Eval_refines_body ops "" lifo_Pop)|].
  - intros f0. apply (Pop_refines f0).
  - by destruct (contents f).
Qed.

(** A literal.  [Eval] of one token that holds no space and names no
    operator pushes it and pops it again: it returns the token, no error, and
    leaves the stack as it was. *)
Theorem Eval_literal ops val :
  val ≠ "" → no_sep " " val → lookup_op ops val = None →
  refines contents (Eval ops val) (λ st, (st, Done (val, None))).
Proof.
  intros Hne Hsp Hop f.
  etrans;
    [apply (Eval_refines_body ops val ((lifo_Push val;; mret tt);; lifo_Pop))|done].
  unfold eval_body. rewrite Split_word by done. simpl.
  rewrite eval_token_literal; [|done|by intros ->|done]. refines_tac.
Qed.

(** C30: numbers survive the trip through Eval.  The decimal text that
    Itoa writes for an int z is never empty, holds no space and names no
    operator of the built-in table, a negative one included although it
    starts with the name of sub.  So Eval pushes it and pops it again: the
    call returns, without an error, a text that Atoi reads back as z, and
    the contents of the stack are what they were. *)
Theorem Eval_Itoa_roundtrip z f :
  is_int z →
  ∃ f' ret, Eval opmap (Itoa z) f = (f', Done (ret, None)) ∧
            atoi ret = z ∧ contents f' = contents f.
Proof.
  intros Hz.
  rewrite Eval_one_token, opmap_Itoa by (apply Itoa_nonempty || apply Itoa_no_space).
  destruct (Push_run (Itoa z) f) as (f1 & HPush & Hf1).
  destruct (Pop_run_cons f1 _ _ Hf1) as (f' & HPop & Hf').
  exists f', (Itoa z). simpl. munfold. rewrite HPush, HPop.
  by rewrite atoi_Itoa.
Qed.

(** C13: runs of spaces.  Two inputs with the same non-empty tokens are
    evaluated alike: the empty tokens that consecutive, leading or trailing
    spaces produce are skipped. *)
Theorem Eval_ignores_empty_tokens ops s s' :
  filter (λ val, val ≠ "") (Split s " ") = filter (λ val, val ≠ "") (Split s' " ") →
  Eval ops s ≡ Eval ops s'.
Proof.
  intros Hs f. rewrite !Eval_unfold. f_equal. unfold eval_body. munfold.
  rewrite <- (eval_loop_filter ops (Split s " ") f), Hs.
  by rewrite (eval_loop_filter ops (Split s' " ") f).
Qed.

(** C36: the test [val == " "] of the loop never holds: for a token that
    [Split] produced, the loop body is the one without that test. *)
Theorem eval_token_space_dead ops s val :
  val ∈ Split s " " →
  eval_token ops val =
    if decide (val = "") then mret tt
    else match lookup_op ops val with Some fn => fn | None => Push val end.
Proof.
  intros Hval%Split_not_space. unfold eval_token.
  destruct (decide (val = "")) as [-> | Hne]; [done|].
  rewrite decide_False; [done|]. intros [Hl | ?]; [|done]. by destruct val.
Qed.

(** A panic ends the evaluation.  When the loop panics on a prefix
    of the tokens, the tokens that follow are not run: the stack is left as
    the panic found it, and [Eval] goes out through [errRecover] with that
    panic. *)
Theorem Eval_stops_at_panic ops s vals1 vals2 f f' p :
  Split s " " = vals1 ++ vals2 →
  eval_loop ops vals1 f = (f', Panicked p) →
  Eval ops s f = (f', Eval_return (Panicked p)).
Proof.
  intros Hs Hp. rewrite Eval_unfold. unfold eval_body. rewrite Hs.
  munfold. by rewrite (eval_loop_panic ops vals1 vals2 f f' p Hp).
Qed.

(** Registering an operator changes nothing for the inputs that do
    not name it: [Eval] of an input without the token [n] is the same function
    after [Newop n op] as before. *)
Theorem Eval_Newop_frame ops n op s :
  n ∉ Split s " " → Eval (Newop n op ops) s = Eval ops s.
Proof.
  intros Hn. unfold Eval, eval_body.
  rewrite (eval_loop_ext (Newop n op ops) ops); [done|].
  apply Forall_forall. intros val Hval. apply lookup_op_Newop_ne. by intros ->.
Qed.

(** A registered operator is called.  After [Newop val (Some fn)],
    whatever [val] named before, [Eval] of the token [val] runs [fn], pops the
    result, and goes out through [errRecover]; after [Newop val None] (the nil
    operator) the token is a literal again: it is pushed and popped. *)
Theorem Eval_Newop_call ops val op f :
  val ≠ "" → no_sep " " val →
  Eval (Newop val op ops) val f =
    prod_map id Eval_return ((default (Push val) op;; Pop) f).
Proof.
  intros Hne Hsp. by rewrite Eval_one_token, lookup_op_Newop_eq.
Qed.

End Properties.

(** ** The properties at concrete inputs: 64-bit [int], host "sb43", the
    slice implementation *)

#[local] Existing Instance int64.
#[local] Existing Instance host_sb43.

(** The abstract evaluator on four inputs: a result, with the rest of the
    stack kept; an operator short of an operand; a division by zero, which
    leaves what was below the operands; the empty input, which pops. *)
Example Eval_spec_run :
  Eval_spec "2 3 + 4  *" ["x"] = (["x"], Done ("20", None)) ∧
  Eval_spec "1 +" [] = ([], Done ("", Some "Empty stack")) ∧
  Eval_spec "7 1 0 / +" [] = (["7"], Panicked (PanicRuntime DivideByZero)) ∧
  Eval_spec "" ["x"] = ([], Done ("x", None)).
Proof. by vm_compute. Qed.

Lemma Eval_literal_witness :
  "sb43" ≠ "" ∧ no_sep " " "sb43" ∧ lookup_op (F := forthstack) opmap "sb43" = None ∧
  refines contents (Eval (F := forthstack) opmap "sb43")
    (λ st, (st, Done ("sb43", None))).
Proof.
  assert (Hne : "sb43" ≠ "") by discriminate.
  assert (Hsp : no_sep " " "sb43") by exact I.
  assert (Hop : lookup_op (F := forthstack) opmap "sb43" = None) by reflexivity.
  split_and!; [done..|]. exact (Eval_literal opmap "sb43" Hne Hsp Hop).
Defined.

Lemma Eval_ignores_empty_tokens_witness :
  filter (λ val, val ≠ "") (Split " 2  2 + " " ") =
    filter (λ val, val ≠ "") (Split "2 2 +" " ") ∧
  Eval (F := forthstack) opmap " 2  2 + " ≡ Eval opmap "2 2 +".
Proof.
  split; [reflexivity|].
  apply (Eval_ignores_empty_tokens (F := forthstack) opmap " 2  2 + " "2 2 +").
  reflexivity.
Defined.

Lemma eval_token_space_dead_witness :
  "+" ∈ Split "2 2 +" " " ∧
  eval_token (F := forthstack) opmap "+" =
    if decide ("+" = "") then mret tt
    else match lookup_op opmap "+" with Some fn => fn | None => Push "+" end.
Proof.
  assert (Hin : "+" ∈ Split "2 2 +" " ") by (vm_compute; set_solver).
  split; [done|]. exact (eval_token_space_dead opmap "2 2 +" "+" Hin).
Defined.

Lemma Eval_stops_at_panic_witness :
  Split "+ 7" " " = ["+"] ++ ["7"] ∧
  eval_loop opmap ["+"] New = (New, Panicked EmptyStack) ∧
  Eval opmap "+ 7" New = (New, Done ("", Some "Empty stack")).
Proof.
  split_and!; [reflexivity..|].
  apply (Eval_stops_at_panic opmap "+ 7" ["+"] ["7"] New New EmptyStack);
    reflexivity.
Defined.

Lemma Eval_Newop_frame_witness :
  ("neg" ∉ Split "2 2 +" " ") ∧
  (Eval (F := forthstack) (Newop "neg" (Some (Push "-1";; times)) opmap) "2 2 +" =
     Eval opmap "2 2 +").
Proof.
  assert (Hn : "neg" ∉ Split "2 2 +" " ") by compute_done.
  split; [done|].
  exact (Eval_Newop_frame opmap "neg" (Some (Push "-1";; times)) "2 2 +" Hn).
Defined.

Lemma Eval_Newop_call_witness :
  "+" ≠ "" ∧ no_sep " " "+" ∧
  Eval (Newop "+" (Some times) opmap) "+" {| stack := ["3"; "4"] |} =
    prod_map id Eval_return
      ((default (Push "+") (Some times);; Pop) {| stack := ["3"; "4"] |}).
Proof.
  assert (Hne : "+" ≠ "") by discriminate.
  assert (Hsp : no_sep " " "+") by exact I.
  refine (conj Hne (conj Hsp _)).
  exact (Eval_Newop_call opmap "+" (Some times) {| stack := ["3"; "4"] |} Hne Hsp).
Defined.

(** The numeral of -5 starts with the name of [sub] and is pushed all the
    same. *)
Lemma Eval_Itoa_roundtrip_witness :
  is_int (-5) ∧
  ∃ f' ret, Eval opmap (Itoa (-5)) New = (f', Done (ret, None)) ∧
            atoi ret = -5 ∧ contents f' = contents New.
Proof.
  assert (Hz : is_int (-5)) by (apply is_int_small; lia).
  split; [done|]. exact (Eval_Itoa_roundtrip (-5) New Hz).
Defined.
