(* ===== verification/Defer.v ===== *)
(** * Defer: [defer], [panic] and [recover], and [Eval] as a call

    src/forth.go:78-106.  [Eval.Eval] gives the result of a call of [Eval]
    with the rules of the run time built in: the body runs, and the
    function goes out through [errRecover].  This file gives the rules
    themselves, for any function with named results, and [Eval] as the
    source writes it: a body whose first statement defers
    [errRecover(&err)].

    A function is called with its named results at their zero values.  Its
    body works on a [frame]: the state, the named results and the calls it
    has deferred, the last one first.  When the body is left, by its end or
    by a panic, the deferred calls run in that order.  A deferred call
    reaches the state, the named results (through a pointer, as
    [errRecover] does, or as a closure) and, through [recover], the panic
    that is on its way: [recover] returns its value and stops it.  A
    deferred call that panics puts its panic in the place of the one on its
    way, and the deferred calls that are left still run.  After the last of
    them the function returns its named results, or the panic goes on into
    the caller.

    The theorems: [invoke] of the body of [Eval] is [Eval.Eval]; what a
    function that defers [errRecover] first gives its caller, for any body;
    a function that defers nothing returns or panics as its body does; the
    deferred calls run last deferred first. *)

From S2P Require Import Prelude GoInt GoStrconv GoStrings Stack Ops Eval.

Section RunTime.
Context {S R : Type}.

(** What a deferred call can reach while the function that deferred it is
    on its way out: the state, the named results, the panic on its way. *)
Record unwinding : Type :=
  { u_state : S; u_results : R; u_panic : option panic }.

Definition deferred_call : Type := M unwinding unit.

(** What the body of a function works on. *)
Record frame : Type :=
  { f_state : S; f_results : R; f_deferred : list deferred_call }.

(** [defer d()] *)
Definition defer (d : deferred_call) : M frame unit :=
  Mmodify (λ fr, {| f_state := f_state fr; f_results := f_results fr;
                    f_deferred := d :: f_deferred fr |}).

(** A statement of the body that works on the state. *)
Definition in_frame {A} (m : M S A) : M frame A := λ fr,
  let '(s', o) := m (f_state fr) in
  ({| f_state := s'; f_results := f_results fr; f_deferred := f_deferred fr |}, o).

(** An assignment to the named results, in the body. *)
Definition assign (g : R → R) : M frame unit :=
  Mmodify (λ fr, {| f_state := f_state fr; f_results := g (f_results fr);
                    f_deferred := f_deferred fr |}).

(** [recover()] in a deferred call: the value of the panic on its way, which
    stops; [nil] when there is none. *)
Definition recover : M unwinding (option panic) := λ u,
  ({| u_state := u_state u; u_results := u_results u; u_panic := None |},
   Done (u_panic u)).

(** An assignment to the named results, in a deferred call. *)
Definition assign_deferred (g : R → R) : M unwinding unit :=
  Mmodify (λ u, {| u_state := u_state u; u_results := g (u_results u);
                   u_panic := u_panic u |}).

(** One deferred call on the way out.  Its own panic takes the place of the
    one on its way. *)
Definition run_deferred (d : deferred_call) (u : unwinding) : unwinding :=
  match d u with
  | (u', Done _) => u'
  | (u', Panicked p) =>
      {| u_state := u_state u'; u_results := u_results u'; u_panic := Some p |}
  end.

(** The deferred calls, the last deferred first. *)
Definition unwind (ds : list deferred_call) (u : unwinding) : unwinding :=
  foldl (λ u d, run_deferred d u) u ds.

(** The body is left with the outcome [o]: the deferred calls run, and the
    function returns its named results or panics into its caller. *)
Definition leave (fr : frame) (o : outcome unit) : S * outcome R :=
  let u := unwind (f_deferred fr)
             {| u_state := f_state fr; u_results := f_results fr;
                u_panic := match o with Done _ => None | Panicked p => Some p end |} in
  (u_state u, match u_panic u with None => Done (u_results u) | Some p => Panicked p end).

(** The call of a function with the body [body] and named results whose
    zero value is [zero]. *)
Definition invoke (zero : R) (body : M frame unit) : M S R := λ s,
  let '(fr, o) := body {| f_state := s; f_results := zero; f_deferred := [] |} in
  leave fr o.

(** The frame a call starts in, and a frame with other deferred calls. *)
Definition enter (zero : R) (s : S) : frame :=
  {| f_state := s; f_results := zero; f_deferred := [] |}.

Definition set_deferred (ds : list deferred_call) (fr : frame) : frame :=
  {| f_state := f_state fr; f_results := f_results fr; f_deferred := ds |}.

(** [defers_nothing body]: the body neither defers a call nor depends on
    the calls deferred before it. *)
Definition defers_nothing {A} (body : M frame A) : Prop :=
  ∀ ds fr, body (set_deferred ds fr) = prod_map (set_deferred ds) id (body fr).

(** How the body was left, the deferred calls apart. *)
Definition body_outcome (fr : frame) (o : outcome unit) : S * outcome R :=
  (f_state fr, match o with Done _ => Done (f_results fr) | Panicked p => Panicked p end).

(** ** The rules *)

Lemma unwind_app ds1 ds2 u : unwind (ds1 ++ ds2) u = unwind ds2 (unwind ds1 u).
Proof. apply foldl_app. Qed.

Lemma leave_nil fr o : f_deferred fr = [] → leave fr o = body_outcome fr o.
Proof. unfold leave, body_outcome. intros ->. by destruct o. Qed.

Lemma defers_nothing_in_frame {A} (m : M S A) : defers_nothing (in_frame m).
Proof. intros ds fr. unfold in_frame. simpl. by destruct (m (f_state fr)). Qed.

Lemma defers_nothing_assign g : defers_nothing (assign g).
Proof. done. Qed.

Lemma defers_nothing_ret {A} (a : A) : defers_nothing (mret a).
Proof. done. Qed.

Lemma defers_nothing_bind {A B} (m : M frame A) (k : A → M frame B) :
  defers_nothing m → (∀ a, defers_nothing (k a)) → defers_nothing (m ≫= k).
Proof.
  intros Hm Hk ds fr. specialize (Hm ds fr). munfold. rewrite Hm.
  destruct (m fr) as [fr1 [a|p]]; simpl; [apply Hk | done].
Qed.

(** A function that defers nothing returns or panics as its body does. *)
Lemma invoke_defers_nothing zero (body : M frame unit) s :
  defers_nothing body →
  invoke zero body s = uncurry body_outcome (body (enter zero s)).
Proof.
  intros Hb. unfold invoke. fold (enter zero s).
  specialize (Hb [] (enter zero s)). change (set_deferred [] (enter zero s)) with (enter zero s) in Hb.
  destruct (body (enter zero s)) as [fr o]. simpl in *.
  apply leave_nil. by injection Hb as ->.
Qed.

Lemma body_deferred ds zero s {A} (body : M frame A) :
  defers_nothing body →
  body {| f_state := s; f_results := zero; f_deferred := ds |} =
    prod_map (set_deferred ds) id (body (enter zero s)).
Proof. intros Hb. apply (Hb ds (enter zero s)). Qed.

(** After [defer d()] the call [d] runs when the body is left, whatever way
    it is left. *)
Lemma invoke_defer zero d (body : M frame unit) s :
  defers_nothing body →
  invoke zero (defer d;; body) s =
    (let '(fr, o) := body (enter zero s) in leave (set_deferred [d] fr) o).
Proof.
  intros Hb. unfold invoke, defer. munfold. cbn.
  rewrite body_deferred by done. by destruct (body (enter zero s)).
Qed.

(** The deferred calls run last deferred first. *)
Lemma invoke_defer_order zero d1 d2 (body : M frame unit) s :
  defers_nothing body →
  invoke zero (defer d1;; defer d2;; body) s =
    (let '(fr, o) := body (enter zero s) in leave (set_deferred [d2; d1] fr) o).
Proof.
  intros Hb. unfold invoke, defer. munfold. cbn.
  rewrite body_deferred by done. by destruct (body (enter zero s)).
Qed.

(** A deferred call that only calls [recover] stops every panic: the
    function returns the named results as the body left them. *)
Lemma invoke_recover zero (body : M frame unit) s :
  defers_nothing body →
  invoke zero (defer (recover;; mret tt);; body) s =
    (let '(fr, o) := body (enter zero s) in (f_state fr, Done (f_results fr))).
Proof.
  intros Hb. rewrite invoke_defer by done.
  destruct (body (enter zero s)) as [fr [[]|p]]; by destruct fr.
Qed.

End RunTime.

Arguments unwinding : clear implicits.
Arguments frame : clear implicits.
Arguments deferred_call : clear implicits.

(** ** [errRecover] as a deferred call *)

Section ErrRecover.
Context {S A : Type}.

(** [errRecover(&err)], deferred by a function whose named results are
    [(ret, err)]: the value of [recover()] and [*errp] go to
    [Eval.errRecover], which gives the new [*errp] or panics. *)
Definition errRecover_deferred : deferred_call S (A * option os_Error) :=
  e ← recover;
  err ← Mgets (λ u, (u_results u).2);
  err' ← Mlift (errRecover e err);
  assign_deferred (λ r, (r.1, err')).

(** What the caller gets from a function that was left with the outcome [o]
    and goes out through [errRecover]. *)
Definition errRecover_return (fr : frame S (A * option os_Error)) (o : outcome unit) :
    S * outcome (A * option os_Error) :=
  (f_state fr,
   match o with
   | Done _ => Done (f_results fr)
   | Panicked (PanicError msg) => Done ((f_results fr).1, Some msg)
   | Panicked (PanicRuntime r) => Panicked (PanicRuntime r)
   | Panicked (PanicString _) => Panicked (PanicRuntime TypeAssertionFailed)
   end).

Lemma leave_errRecover fr o :
  leave (set_deferred [errRecover_deferred] fr) o = errRecover_return fr o.
Proof.
  unfold leave, errRecover_return. destruct fr as [s [ret err] ds].
  by destruct o as [[]|[msg|r|v]].
Qed.

Lemma invoke_errRecover zero (body : M (frame S (A * option os_Error)) unit) s :
  defers_nothing body →
  invoke zero (defer errRecover_deferred;; body) s =
    uncurry errRecover_return (body (enter zero s)).
Proof.
  intros Hb. rewrite invoke_defer by done.
  destruct (body (enter zero s)) as [fr o]. apply leave_errRecover.
Qed.

(** C18: the recover boundary, for any body.  A function with the named
    results (ret, err) that defers errRecover(&err) first and nothing else
    gives its caller, whatever its body does: its named results when the
    body returns; the value of ret at the panic and the error when the body
    panics with an os.Error; the same panic when the body panics with a
    runtime.Error; the panic of the failed type assertion e.(os.Error) when
    the body panics with any other value.  The state is the one the body
    left. *)
Theorem errRecover_boundary zero (body : M (frame S (A * option os_Error)) unit) s fr o :
  defers_nothing body →
  body (enter zero s) = (fr, o) →
  invoke zero (defer errRecover_deferred;; body) s =
    (f_state fr,
     match o with
     | Done _ => Done (f_results fr)
     | Panicked (PanicError msg) => Done ((f_results fr).1, Some msg)
     | Panicked (PanicRuntime r) => Panicked (PanicRuntime r)
     | Panicked (PanicString _) => Panicked (PanicRuntime TypeAssertionFailed)
     end).
Proof. intros Hb Hfr. by rewrite invoke_errRecover, Hfr. Qed.

End ErrRecover.

(** ** [Eval] *)

Section EvalCall.
Context `{IntSize} `{HostEnv} `{Forth F}.

(** [func Eval(f Forth, s string) (ret string, err os.Error)], statement by
    statement: the loop, [ret = f.Pop()] and [return], after the deferred
    call. *)
Definition Eval_statements (ops : gmap string (forthop F)) (s : string) :
    M (frame F (string * option os_Error)) unit :=
  in_frame (eval_loop ops (Split s " "));;
  ret ← in_frame Pop;
  assign (λ r, (ret, r.2)).

Definition Eval_func (ops : gmap string (forthop F)) (s : string) :
    M (frame F (string * option os_Error)) unit :=
  defer errRecover_deferred;; Eval_statements ops s.

Lemma Eval_statements_defers_nothing ops s : defers_nothing (Eval_statements ops s).
Proof.
  repeat first [ apply defers_nothing_bind; [|intros ?]
               | apply defers_nothing_in_frame | apply defers_nothing_assign
               | apply defers_nothing_ret ].
Qed.

(** C10: Eval by the rules of the run time.  The call of the function
    Eval as the source writes it (the deferred errRecover(&err), the loop,
    ret = f.Pop(), return, with the named results starting at the empty
    string and nil), run by the rules of defer, panic and recover, gives
    the state, the results and the panics of Eval. *)
Theorem Eval_func_invoke ops s f :
  invoke ("", None) (Eval_func ops s) f = Eval ops s f.
Proof.
  unfold Eval_func. rewrite invoke_errRecover by apply Eval_statements_defers_nothing.
  rewrite Eval_unfold. unfold Eval_statements, eval_body, in_frame, assign, enter.
  munfold. cbn.
  destruct (eval_loop ops (Split s " ") f) as [f1 [[]|[msg|r|v]]]; cbn; [|done..].
  by destruct (Pop f1) as [f2 [ret|[msg|r|v]]].
Qed.

End EvalCall.

(** ** The theorems at concrete inputs *)

#[local] Existing Instance int64.
#[local] Existing Instance host_sb43.

(** The body of [Eval] on the input "+" and a new stack panics in [Pop]. *)
Lemma errRecover_boundary_witness :
  defers_nothing (Eval_statements (F := forthstack) opmap "+") ∧
  Eval_statements opmap "+" (enter ("", None) New) =
    (enter ("", None) New, Panicked (PanicError "Empty stack")) ∧
  invoke ("", None) (defer errRecover_deferred;; Eval_statements opmap "+") New =
    (New, Done ("", Some "Empty stack")).
Proof.
  pose proof (Eval_statements_defers_nothing (F := forthstack) opmap "+") as Hb.
  split_and!; [done | done |].
  exact (errRecover_boundary ("", None) _ New _ _ Hb eq_refl).
Defined.

(** Two deferred calls: the one deferred last runs first, so the error that
    the first one stores is what the caller sees of the panic of the
    second. *)
Example deferred_last_first :
  invoke (S := unit) ("", None)
    (defer errRecover_deferred;; defer (Mpanic (PanicError "late"));; mret tt) tt =
  (tt, Done ("", Some "late")).
Proof. done. Qed.
