(* ===== verification/Slice.v ===== *)
(** * Slice: the stack in a Go slice with its backing array

    src/forth.go:13-15 and 41-76, at the level of the slice.  [Stack] takes
    [f.stack] for the list of its elements.  A Go slice is a window on an
    array: it has a length and a capacity, [append] writes into the array
    when there is room and moves the elements to a larger array when there
    is none, and the slice expressions [f.stack[0:n]] of [Pop] and [Reset]
    change the length and nothing else, so what was popped stays in the
    array until a later [Push] overwrites it.

    This file gives the methods of [forthstack] on such slices
    ([slicestack]), shows that they implement the methods of [Stack] along
    the function that forgets the array behind the elements ([view]), so
    that [slicestack] is one more lawful implementation of [Forth], and
    states what happens to the array: it is never indexed or sliced out of
    its bounds, [Pop] and [Reset] leave it as it is, and [Push] allocates
    only when the slice is full.  No method hands out the slice, so the
    array cannot be observed: [Eval] on [slicestack] is [Eval] on
    [Stack.forthstack]. *)

From S2P Require Import Prelude GoInt GoStrconv GoStrings Stack Ops Eval.

(** ** Slices of strings

    The methods slice from index 0 only, so the slice starts where its
    array starts: [elems] are the cells [0, len) and [room] the cells
    [len, cap) of the array. *)
Record slice : Type := { elems : list string; room : list string }.

#[global] Instance slice_eq_dec : EqDecision slice.
Proof. solve_decision. Defined.

(** [len(sl)] and [cap(sl)] *)
Definition len (sl : slice) : nat := length (elems sl).

Definition cap (sl : slice) : nat := (length (elems sl) + length (room sl))%nat.

Definition array (sl : slice) : list string := elems sl ++ room sl.

(** The nil slice, the zero value of [[]string]. *)
Definition nil_slice : slice := {| elems := []; room := [] |}.

(** [sl[i]]: panics when [i] is not below the length. *)
Definition index (sl : slice) (i : nat) : outcome string :=
  match elems sl !! i with
  | Some x => Done x
  | None => Panicked (PanicRuntime IndexOutOfRange)
  end.

(** [sl[0:n]]: panics when [n] is above the capacity; the array stays. *)
Definition reslice (sl : slice) (n : nat) : outcome slice :=
  if decide (n ≤ cap sl)%nat
  then Done {| elems := take n (array sl); room := drop n (array sl) |}
  else Panicked (PanicRuntime SliceOutOfRange).

(** The capacity that the run time gives the array it allocates when
    [append] finds a slice of capacity [c] full. *)
Class SliceGrowth : Type := { growslice : nat → nat }.

(** [append(sl, s)]: into the cell behind the elements when there is one;
    else into a new array, with the elements copied and the cells after
    [s] zero. *)
Definition append `{SliceGrowth} (sl : slice) (s : string) : slice :=
  match room sl with
  | _ :: room' => {| elems := elems sl ++ [s]; room := room' |}
  | [] => {| elems := elems sl ++ [s];
             room := replicate (growslice (cap sl) - S (cap sl)) "" |}
  end.

(** ** The stack (src/forth.go:13-15, 41-76) *)

Record slicestack : Type := { slice_of : slice }.

#[global] Instance slicestack_eq_dec : EqDecision slicestack.
Proof. solve_decision. Defined.

(** [New]: [new(forthstack)], whose slice is nil. *)
Definition slicestack_New : slicestack := {| slice_of := nil_slice |}.

Section Methods.
Context `{SliceGrowth}.

(** [f.stack = append(f.stack, s)] *)
Definition slicestack_Push (s : string) : M slicestack unit :=
  Mmodify (λ f, {| slice_of := append (slice_of f) s |}).

Definition slicestack_Pop : M slicestack string :=
  sl ← Mgets slice_of;
  if decide (len sl < 1)%nat then Mpanic EmptyStack
  else
    ret ← Mlift (index sl (len sl - 1));
    sl' ← Mlift (reslice sl (len sl - 1));
    Mmodify (λ _, {| slice_of := sl' |});;
    mret ret.

Definition slicestack_Length (f : slicestack) : Z := Z.of_nat (len (slice_of f)).

Definition slicestack_Empty (f : slicestack) : bool :=
  bool_decide (len (slice_of f) = 0%nat).

(** [f.stack = f.stack[0:0]] *)
Definition slicestack_Reset : M slicestack unit :=
  sl ← Mgets slice_of;
  sl' ← Mlift (reslice sl 0);
  Mmodify (λ _, {| slice_of := sl' |}).

#[global] Instance slicestack_Forth : Forth slicestack := {|
  Push := slicestack_Push;
  Pop := slicestack_Pop;
  Length := slicestack_Length;
  Empty := slicestack_Empty;
  Reset := slicestack_Reset
|}.

End Methods.

(** [view f]: the stack of [Stack], the elements without the array. *)
Definition view (f : slicestack) : forthstack := {| stack := elems (slice_of f) |}.

(** ** Slices *)

Lemma array_length sl : length (array sl) = cap sl.
Proof. unfold array, cap. by rewrite length_app. Qed.

Lemma len_le_cap sl : (len sl ≤ cap sl)%nat.
Proof. unfold len, cap. lia. Qed.

(** A slice expression within the length keeps the elements below the
    bound; the others join the room. *)
Lemma reslice_le sl n :
  (n ≤ len sl)%nat →
  reslice sl n =
    Done {| elems := take n (elems sl); room := drop n (elems sl) ++ room sl |}.
Proof.
  intros Hn. unfold reslice, array. pose proof (len_le_cap sl).
  rewrite decide_True by lia. unfold len in Hn.
  by rewrite take_app_le, drop_app_le by done.
Qed.

Lemma reslice_array sl n sl' : reslice sl n = Done sl' → array sl' = array sl.
Proof.
  unfold reslice. case_decide; [|done]. intros [= <-]. apply take_drop.
Qed.

Lemma index_last l x room0 :
  index {| elems := l ++ [x]; room := room0 |} (length l) = Done x.
Proof. unfold index. simpl. by rewrite lookup_app_r, Nat.sub_diag by lia. Qed.

Section Append.
Context `{SliceGrowth}.

Lemma elems_append sl s : elems (append sl s) = elems sl ++ [s].
Proof. unfold append. by destruct (room sl). Qed.

Lemma cap_append sl s :
  cap (append sl s) =
    if decide (len sl < cap sl)%nat then cap sl
    else (S (cap sl) `max` growslice (cap sl))%nat.
Proof.
  unfold append, cap, len. destruct (room sl) as [|y room']; simpl;
    rewrite length_app; simpl; [|rewrite decide_True by lia; lia].
  rewrite decide_False, length_replicate by lia. lia.
Qed.

End Append.

(** ** The methods on the slice implement the methods on the list *)

Section Refinement.
Context `{SliceGrowth}.

(** [Pop] on a stack that is not empty: the index and the bound of the
    slice expression are in range, the last element is returned, and its
    cell becomes the first of the room. *)
Lemma slicestack_Pop_snoc l x room0 :
  slicestack_Pop {| slice_of := {| elems := l ++ [x]; room := room0 |} |} =
    ({| slice_of := {| elems := l; room := x :: room0 |} |}, Done x).
Proof.
  unfold slicestack_Pop. munfold. simpl. unfold len. simpl.
  rewrite length_app. simpl. rewrite decide_False by lia.
  replace (length l + 1 - 1)%nat with (length l) by lia.
  rewrite index_last, reslice_le by (unfold len; simpl; rewrite length_app; lia).
  simpl. by rewrite take_app_length, drop_app_length.
Qed.

Lemma slicestack_Pop_nil room0 :
  slicestack_Pop {| slice_of := {| elems := []; room := room0 |} |} =
    ({| slice_of := {| elems := []; room := room0 |} |}, Panicked EmptyStack).
Proof. done. Qed.

Lemma slicestack_Reset_run f :
  slicestack_Reset f =
    ({| slice_of := {| elems := []; room := array (slice_of f) |} |}, Done tt).
Proof.
  unfold slicestack_Reset. munfold. rewrite reslice_le by lia.
  by rewrite take_0, drop_0.
Qed.

Lemma slicestack_Push_view s :
  refines view (slicestack_Push s) (forthstack_Push s).
Proof. intros f. unfold view. simpl. by rewrite elems_append. Qed.

Lemma slicestack_Pop_view : refines view slicestack_Pop forthstack_Pop.
Proof.
  intros [[l room0]]. destruct l as [|x l _] using rev_ind; [done|].
  rewrite slicestack_Pop_snoc. unfold view. simpl.
  by rewrite forthstack_Pop_snoc.
Qed.

Lemma slicestack_Reset_view : refines view slicestack_Reset forthstack_Reset.
Proof. intros f. by rewrite slicestack_Reset_run. Qed.

Lemma slicestack_Length_view f : slicestack_Length f = forthstack_Length (view f).
Proof. done. Qed.

Lemma slicestack_Empty_view f : slicestack_Empty f = forthstack_Empty (view f).
Proof. done. Qed.

(** C12: the stack on a slice with its array implements the stack on the
    list of its elements.  Along [view], which forgets the array behind
    the elements, [Push], [Pop] and [Reset] on the slice end in the state and
    with the outcome of the methods of [Stack.forthstack], and [Length] and
    [Empty] read the same: the bounds checks of the index and of the slice
    expressions never fail, and whether [append] allocates makes no
    difference. *)
Theorem slicestack_implements_forthstack :
  (∀ s, refines view (slicestack_Push s) (forthstack_Push s)) ∧
  refines view slicestack_Pop forthstack_Pop ∧
  refines view slicestack_Reset forthstack_Reset ∧
  (∀ f, slicestack_Length f = forthstack_Length (view f)) ∧
  (∀ f, slicestack_Empty f = forthstack_Empty (view f)).
Proof.
  split_and!; auto using slicestack_Push_view, slicestack_Pop_view,
    slicestack_Reset_view.
Qed.

#[global] Instance slicestack_Laws : ForthLaws slicestack := {|
  contents := forthstack_contents ∘ view;
  Push_refines s :=
    refines_compose _ _ _ _ _ (slicestack_Push_view s) (forthstack_Push_refines s);
  Pop_refines := refines_compose _ _ _ _ _ slicestack_Pop_view forthstack_Pop_refines;
  Reset_refines :=
    refines_compose _ _ _ _ _ slicestack_Reset_view forthstack_Reset_refines;
  Length_contents f := forthstack_Length_contents (view f);
  Empty_contents f := forthstack_Empty_contents (view f)
|}.

End Refinement.

(** ** What happens to the array *)

Section Array.
Context `{SliceGrowth}.

(** C32: the array under the methods.  A [Pop] that returns leaves the
    array as it is: the value popped stays in its cell, now the first of the
    room.  A [Pop] panics on the slice of length 0 only, with the error
    "Empty stack" and never with an index or a slice bound out of range,
    and then changes nothing.  [Reset] leaves the array as it is and turns
    all of it into room.  [Push] puts its argument behind the elements: it
    writes the cell there when the slice has room, and the array keeps its
    other cells and its capacity; it allocates only when the slice is full,
    an array of the capacity the run time chooses and of one cell more at
    least, and then the room is zero. *)
Theorem slicestack_array s f :
  match slicestack_Pop f with
  | (f', Done x) =>
    array (slice_of f') = array (slice_of f) ∧
    room (slice_of f') = x :: room (slice_of f)
  | (f', Panicked p) => f' = f ∧ p = EmptyStack ∧ len (slice_of f) = 0%nat
  end ∧
  slice_of (slicestack_Reset f).1 =
    {| elems := []; room := array (slice_of f) |} ∧
  (let sl := slice_of f in let sl' := slice_of (slicestack_Push s f).1 in
   elems sl' = elems sl ++ [s] ∧
   if decide (len sl < cap sl)%nat
   then array sl' = <[len sl := s]> (array sl)
   else cap sl' = (S (cap sl) `max` growslice (cap sl))%nat ∧
        Forall (λ x, x = "") (room sl')).
Proof.
  destruct f as [[l room0]]. split_and!.
  - destruct l as [|y l _] using rev_ind; [done|].
    rewrite slicestack_Pop_snoc. unfold array. simpl.
    by rewrite <- (assoc_L (++)).
  - by rewrite slicestack_Reset_run.
  - cbv zeta. split; [apply elems_append|].
    unfold slicestack_Push, Mmodify, append, cap, len, array. simpl.
    destruct room0 as [|y room0]; simpl.
    + rewrite decide_False by lia. rewrite !length_app, length_replicate. simpl.
      rewrite !Nat.add_0_r. split; [lia | by apply Forall_replicate].
    + rewrite decide_True by lia. rewrite insert_app_r_alt, Nat.sub_diag by lia.
      simpl. by rewrite <- (assoc_L (++)).
Qed.

End Array.

(** ** The array cannot be observed *)

Section Unobservable.
Context `{IntSize} `{HostEnv} `{SliceGrowth}.

(** Evaluation does not depend on the array.  [Eval] with the
    built-in table on a stack kept in a slice ends with the elements, the
    result, the error or the panic of [Eval] on the list of the elements:
    neither the capacity, nor what the array holds behind the elements, nor
    the growth policy of [append] can change what a call returns. *)
Theorem Eval_slicestack s f :
  prod_map view id (Eval opmap s f) = Eval opmap s (view f).
Proof.
  rewrite !Eval_unfold.
  pose proof (eval_body_refines opmap opmap s opmap_refines f) as Hf.
  pose proof (eval_body_refines opmap opmap s opmap_refines (view f)) as Hv.
  change (contents f) with (contents (view f)) in Hf. rewrite <- Hv in Hf.
  destruct (eval_body opmap s f) as [[sl1] o1],
    (eval_body opmap s (view f)) as [[l2] o2].
  simpl in *. injection Hf as Hc ->. unfold view. simpl. repeat f_equal.
  by apply (inj reverse).
Qed.

End Unobservable.

(** ** A run, with the run time doubling the capacity *)

Definition doubling : SliceGrowth := {| growslice c := (2 * c)%nat |}.

#[local] Existing Instance doubling.

(** Three values pushed on a new stack take arrays of 1, 2 and 4 cells;
    [Pop] and [Reset] keep the last array with what it holds, and the next
    [Push] overwrites its first cell. *)
Example slicestack_run :
  let run : M slicestack unit :=
    Push "a";; Push "b";; Push "c";; Pop;; Reset;; Push "d" in
  (run slicestack_New).1 =
    {| slice_of := {| elems := ["d"]; room := ["b"; "c"; ""] |} |}.
Proof. reflexivity. Qed.

