(* ===== verification/Package.v ===== *)
(** * Package: [Eval] with the operator table where the source has it

    src/forth.go:17-30 and 89-106.  In the source the operator table is the
    package-level variable [opmap], and the loop of [Eval] reads it at every
    token ([fun := opmap[val]]).  An operator is a Go function that is handed
    the stack; through it, it can call [Newop], which writes the variable.
    So a token can change what the tokens after it mean.

    [Eval.Eval] takes the table as a parameter, read once.  This file gives
    the evaluator as the source has it: the state [W] is whatever the
    operators can reach, the stack and the table included; [pkg_opmap w] is
    the value of the variable in the state [w]; the loop looks the token up
    in the table of the state it is in.  The theorem that ties the two: when
    the operators that the tokens of the input name leave the table alone,
    as the built-in ones do, [Eval_pkg] is [Eval.Eval] with the table of the
    state the call starts in.  An input that registers an operator on its way
    shows that the hypothesis is needed. *)

From S2P Require Import Prelude GoInt GoStrconv GoStrings Stack Ops Eval.

(** The package state: the methods of the stack that a call of [Eval] is
    given act on it, and the variable [opmap] can be read from it. *)
Class Package (W : Type) `{Forth W} : Type := {
  pkg_opmap : W → gmap string (forthop W)
}.

(** Two states with the same table. *)
Definition same_opmap `{Package W} : relation W :=
  λ w w', pkg_opmap w' = pkg_opmap w.

#[global] Instance same_opmap_preorder `{Package W} : PreOrder same_opmap.
Proof.
  unfold same_opmap. split; [done|]. intros w1 w2 w3 H12 H23. by rewrite H23.
Qed.

(** [keeps_opmap m]: the computation [m] leaves the variable as it was. *)
Definition keeps_opmap `{Package W} {A} (m : M W A) : Prop :=
  preserves same_opmap m.

(** What the methods of the stack owe: they do not write the table.
    ([Newop], the method that does, is not a method of [Forth] here.) *)
Class PackageLaws (W : Type) `{Package W} : Prop := {
  Push_keeps s : keeps_opmap (Push s);
  Pop_keeps : keeps_opmap Pop;
  Reset_keeps : keeps_opmap Reset
}.

Section Package.
Context `{IntSize} `{HostEnv} `{Package W}.

(** The body of the loop for one token: [opmap] is read now. *)
Definition eval_token_pkg (val : string) : M W unit := λ w,
  if decide (String.length val = 0%nat ∨ val = " ") then (w, Done tt)
  else
    match lookup_op (pkg_opmap w) val with
    | Some fn => fn w
    | None => Push val w
    end.

Fixpoint eval_loop_pkg (vals : list string) : M W unit :=
  match vals with
  | [] => mret tt
  | val :: vals' => eval_token_pkg val;; eval_loop_pkg vals'
  end.

Definition eval_body_pkg (s : string) : M W string :=
  eval_loop_pkg (Split s " ");; Pop.

(** [Eval], with the deferred [errRecover(&err)] on the way out. *)
Definition Eval_pkg (s : string) : M W (string * option os_Error) := λ w,
  let '(w', o) := eval_body_pkg s w in
  let ret := match o with Done r => r | Panicked _ => "" end in
  let e := match o with Done _ => None | Panicked p => Some p end in
  (w', err ← errRecover e None; mret (ret, err)).

(** [stable ops vals]: pushing a token leaves the table alone, and so does
    every operator that the table [ops] has under a token of [vals]. *)
Definition stable (ops : gmap string (forthop W)) (vals : list string) : Prop :=
  (∀ s, keeps_opmap (Push s)) ∧
  Forall (λ val, ∀ fn, lookup_op ops val = Some fn → keeps_opmap fn) vals.

(** ** The loop *)

Lemma eval_token_pkg_eq val w :
  eval_token_pkg val w = eval_token (pkg_opmap w) val w.
Proof.
  unfold eval_token_pkg, eval_token. case_decide; [done|].
  by destruct (lookup_op _ _).
Qed.

Lemma Eval_pkg_unfold s w :
  Eval_pkg s w = prod_map id Eval_return (eval_body_pkg s w).
Proof.
  unfold Eval_pkg. destruct (eval_body_pkg s w) as [w' [ret|[msg|r|v]]]; done.
Qed.

(** The loop over a concatenation: the second part starts in the state, and
    with the table, that the first part leaves. *)
Lemma eval_loop_pkg_app vals1 vals2 :
  eval_loop_pkg (vals1 ++ vals2) ≡ (eval_loop_pkg vals1;; eval_loop_pkg vals2).
Proof.
  induction vals1 as [|val vals1 IH]; simpl.
  - by rewrite M_left_id.
  - rewrite M_assoc. by setoid_rewrite IH.
Qed.

(** A token that leaves the table alone. *)
Lemma eval_token_keeps ops val w :
  stable ops [val] → pkg_opmap w = ops →
  pkg_opmap (eval_token ops val w).1 = ops.
Proof.
  intros [HPush Hval%Forall_inv] <-. unfold eval_token.
  case_decide; [done|].
  destruct (lookup_op (pkg_opmap w) val) as [fn|] eqn:E;
    [by apply Hval | apply HPush].
Qed.

Lemma eval_loop_pkg_stable vals w :
  stable (pkg_opmap w) vals →
  eval_loop_pkg vals w = eval_loop (pkg_opmap w) vals w.
Proof.
  revert w. induction vals as [|val vals IH]; intros w [HPush Hs]; [done|].
  apply Forall_cons_1 in Hs as [Hval Hs]. simpl. munfold.
  rewrite eval_token_pkg_eq.
  pose proof (eval_token_keeps (pkg_opmap w) val w) as Hk.
  destruct (eval_token (pkg_opmap w) val w) as [w1 [[]|p]]; [|done].
  simpl in Hk. rewrite <- Hk by (by repeat split; try constructor).
  apply IH. split; [done|]. by rewrite Hk by (by repeat split; try constructor).
Qed.

(** ** The theorems *)

(** C7: the table can be passed as a parameter.  When pushing leaves the
    variable opmap alone and so does every operator that the table has under
    a token of the input, Eval as the source has it, reading the variable at
    every token, is Eval with the table of the state the call starts in,
    read once: the same state after the call, the same result, error or
    panic. *)
Theorem Eval_pkg_stable s w :
  stable (pkg_opmap w) (Split s " ") →
  Eval_pkg s w = Eval (pkg_opmap w) s w.
Proof.
  intros Hs. rewrite Eval_pkg_unfold, Eval_unfold. f_equal.
  unfold eval_body_pkg, eval_body. munfold.
  by rewrite eval_loop_pkg_stable.
Qed.

End Package.

(** ** No built-in operator writes the table *)

Section Builtins.
Context `{IntSize} `{HostEnv} `{PackageLaws W}.

Lemma opmap_keeps_opmap val fn :
  lookup_op (F := W) opmap val = Some fn → keeps_opmap fn.
Proof.
  apply (opmap_preserves same_opmap); [apply Push_keeps | apply Pop_keeps].
Qed.

(** With the built-in table, the evaluator of the source is the
    evaluator with the table as a parameter.  In a state whose table is the
    initial one, whatever else the state holds, Eval reading the variable
    opmap at every token is Eval with the initial table: no built-in operator
    writes the table. *)
Theorem Eval_pkg_opmap s w :
  pkg_opmap w = opmap → Eval_pkg s w = Eval opmap s w.
Proof.
  intros Hw. rewrite Eval_pkg_unfold, Eval_unfold. f_equal.
  unfold eval_body_pkg, eval_body. munfold.
  rewrite eval_loop_pkg_stable, Hw; [done|]. rewrite Hw.
  split; [apply Push_keeps|]. apply Forall_forall. intros val _ fn.
  apply opmap_keeps_opmap.
Qed.

End Builtins.

(** ** A state in which an operator registers another

    The state is a stack and a flag: the table holds the operator "double"
    when the flag is set, and the operator "define" sets it.  "define" is the
    Go function [func(f Forth) { f.Newop("double", double) }]. *)

Record defining : Type := { defined : bool; stk : forthstack }.

(** A method of the stack, on the stack of the state. *)
Definition on_stk {A} (m : M forthstack A) : M defining A := λ w,
  ({| defined := defined w; stk := (m (stk w)).1 |}, (m (stk w)).2).

#[global] Instance defining_Forth : Forth defining := {|
  Push s := on_stk (Push s);
  Pop := on_stk Pop;
  Length w := Length (stk w);
  Empty w := Empty (stk w);
  Reset := on_stk Reset
|}.

Section Defining.
Context `{IntSize} `{HostEnv}.

Definition double : M defining unit := dup;; plus.

Definition define : M defining unit := λ w,
  ({| defined := true; stk := stk w |}, Done tt).

Definition defining_opmap (w : defining) : gmap string (forthop defining) :=
  let ops := Newop "define" (Some define) opmap in
  if defined w then Newop "double" (Some double) ops else ops.

#[global] Instance defining_Package : Package defining :=
  {| pkg_opmap := defining_opmap |}.

#[global] Instance defining_Laws : PackageLaws defining.
Proof. by split. Qed.

Lemma double_keeps : keeps_opmap double.
Proof.
  apply (preserves_bind same_opmap);
    [by apply (opmap_keeps_opmap "dup") | intros _; by apply (opmap_keeps_opmap "+")].
Qed.

(** An input without the token "define" is stable, in every state. *)
Lemma defining_stable w vals : "define" ∉ vals → stable (pkg_opmap w) vals.
Proof.
  intros Hv. split; [apply Push_keeps|]. apply Forall_forall. intros val Hin fn.
  assert (Hne : "define" ≠ val) by (by intros <-).
  simpl. unfold defining_opmap. destruct (defined w).
  - rewrite lookup_op_Newop. case_decide.
    + intros [= <-]. apply double_keeps.
    + rewrite lookup_op_Newop_ne by done. apply opmap_keeps_opmap.
  - rewrite lookup_op_Newop_ne by done. apply opmap_keeps_opmap.
Qed.

End Defining.

(** The operator registered by the first token is the one the third token
    calls; with the table read once, before the call, the third token is a
    literal. *)
Example Eval_pkg_sees_Newop `{IntSize} `{HostEnv} :
  let w := {| defined := false; stk := New |} in
  (Eval_pkg "define 4 double" w).2 = Done ("8", None) ∧
  (Eval (pkg_opmap w) "define 4 double" w).2 = Done ("double", None).
Proof. destruct H as [bits [-> | ->]]; by vm_compute. Qed.

(** ** The theorems at concrete inputs *)

#[local] Existing Instance int64.
#[local] Existing Instance host_sb43.

(** In the state of the example, an input without "define" is stable. *)
Lemma Eval_pkg_stable_witness :
  stable (pkg_opmap {| defined := false; stk := New |}) (Split "4 dup +" " ") ∧
  Eval_pkg "4 dup +" {| defined := false; stk := New |} =
    Eval (pkg_opmap {| defined := false; stk := New |}) "4 dup +"
      {| defined := false; stk := New |}.
Proof.
  assert (Hs : stable (pkg_opmap {| defined := false; stk := New |})
                 (Split "4 dup +" " ")) by (apply defining_stable; compute_done).
  split; [done|]. exact (Eval_pkg_stable _ _ Hs).
Defined.

(** The stack alone as the state, with the table a constant. *)
Definition const_Package (ops : gmap string (forthop forthstack)) :
    Package forthstack := {| pkg_opmap _ := ops |}.

Lemma Eval_pkg_opmap_witness :
  pkg_opmap (Package := const_Package opmap) New = opmap ∧
  Eval_pkg (H2 := const_Package opmap) "2 2 +" New = Eval opmap "2 2 +" New.
Proof.
  split; [done|].
  by apply (Eval_pkg_opmap (H2 := const_Package opmap)
              (H3 := Build_PackageLaws _ _ (const_Package opmap)
                       (λ _ _, eq_refl) (λ _, eq_refl) (λ _, eq_refl))).
Defined.
