(* ===== verification/Machine.v ===== *)
(** * Machine: the control of [Eval], one statement at a time

    src/forth.go:89-106.  [Eval.Eval] gives the result of a call of [Eval]
    as a function.  This file gives the same call as a transition system
    whose configurations say where the control is: at the head of the range
    loop with the tokens that are left, at the deferred call after the body
    was left (by [return] or by a panic), or out of the function (returned
    to the caller, or unwinding the caller with a panic).  One step is one
    iteration of the loop, the statement [ret = f.Pop()], or the deferred
    [errRecover(&err)].

    The relation [eval_step] is written rule by rule from the source; the
    function [eval_exec] computes the successor.  The theorems are those of
    a machine: it is deterministic, every step decreases a measure, so no
    run is infinite and every run ends in a configuration out of the
    function, and that configuration is the one [Eval.Eval] computes.

    The operators of the table are total functions of the stack (a Go
    operator that does not return has no model here), so the only loop of
    the machine is the range loop of [Eval]. *)

From S2P Require Import Prelude GoInt GoStrconv GoStrings Stack Ops Eval Defer.

Section Machine.
Context `{IntSize} `{HostEnv} `{Forth F}.

(** Where the control of a call of [Eval] is, with the stack [f] and what
    the function has stored so far:
    - [Loop vals f]: at the head of the loop, [vals] are the tokens left;
    - [Deferred f ret e]: the body was left with [ret] in the named result
      and [e] the value [recover()] will return; the deferred call is next;
    - [Returned f ret err]: back in the caller with the results;
    - [Crashed f p]: the panic [p] unwinds the caller. *)
Inductive config : Type :=
| Loop (vals : list string) (f : F)
| Deferred (f : F) (ret : string) (e : option panic)
| Returned (f : F) (ret : string) (err : option os_Error)
| Crashed (f : F) (p : panic).

(** After [fun(f)] or [f.Push(val)] in the body of the loop: the next
    iteration, or the deferred call when the call panicked ([ret] is then
    still the empty string). *)
Definition after_call (vals : list string) (r : F * outcome unit) : config :=
  match r with
  | (f', Done _) => Loop vals f'
  | (f', Panicked p) => Deferred f' "" (Some p)
  end.

(** After [ret = f.Pop()] and [return]. *)
Definition after_Pop (r : F * outcome string) : config :=
  match r with
  | (f', Done ret) => Deferred f' ret None
  | (f', Panicked p) => Deferred f' "" (Some p)
  end.

(** After the deferred [errRecover(&err)]. *)
Definition after_defer (f : F) (ret : string)
    (o : outcome (option os_Error)) : config :=
  match o with
  | Done err => Returned f ret err
  | Panicked p => Crashed f p
  end.

(** The configuration a call of [Eval] starts in, and the one it ends in
    when its result is [r]. *)
Definition start (s : string) (f : F) : config := Loop (Split s " ") f.

Definition halt (r : F * outcome (string * option os_Error)) : config :=
  match r with
  | (f', Done (ret, err)) => Returned f' ret err
  | (f', Panicked p) => Crashed f' p
  end.

Definition halted (c : config) : bool :=
  match c with
  | Returned _ _ _ | Crashed _ _ => true
  | Loop _ _ | Deferred _ _ _ => false
  end.

(** The measure: the statements a run has left at most. *)
Definition steps_left (c : config) : nat :=
  match c with
  | Loop vals _ => length vals + 2
  | Deferred _ _ _ => 1
  | Returned _ _ _ | Crashed _ _ => 0
  end.

Variable ops : gmap string (forthop F).

(** One step of [Eval] with the table [ops]. *)
Inductive eval_step : relation config :=
| step_continue val vals f :
    String.length val = 0%nat ∨ val = " " →
    eval_step (Loop (val :: vals) f) (Loop vals f)
| step_call val vals f fn :
    ¬ (String.length val = 0%nat ∨ val = " ") →
    lookup_op ops val = Some fn →
    eval_step (Loop (val :: vals) f) (after_call vals (fn f))
| step_Push val vals f :
    ¬ (String.length val = 0%nat ∨ val = " ") →
    lookup_op ops val = None →
    eval_step (Loop (val :: vals) f) (after_call vals (Push val f))
| step_Pop f :
    eval_step (Loop [] f) (after_Pop (Pop f))
| step_defer f ret e :
    eval_step (Deferred f ret e) (after_defer f ret (errRecover e None)).

(** The successor of a configuration, [None] out of the function. *)
Definition eval_exec (c : config) : option config :=
  match c with
  | Loop [] f => Some (after_Pop (Pop f))
  | Loop (val :: vals) f => Some (after_call vals (eval_token ops val f))
  | Deferred f ret e => Some (after_defer f ret (errRecover e None))
  | Returned _ _ _ | Crashed _ _ => None
  end.

(** [n] steps, or as many as there are. *)
Fixpoint eval_run (n : nat) (c : config) : config :=
  match n with
  | O => c
  | S n' =>
    match eval_exec c with
    | Some c' => eval_run n' c'
    | None => c
    end
  end.

(** ** The relation and the function *)

Lemma eval_step_exec c c' : eval_step c c' ↔ eval_exec c = Some c'.
Proof.
  split.
  - destruct 1 as [val vals f Hs | val vals f fn Hs Hfn | val vals f Hs Hfn | |];
      simpl; unfold eval_token; rewrite ?Hfn;
      [by rewrite decide_True | by rewrite decide_False..| done | done].
  - destruct c as [[|val vals] f | f ret e | |]; simpl; intros [= <-];
      [apply step_Pop | | apply step_defer].
    unfold eval_token. case_decide; [by apply step_continue|].
    destruct (lookup_op ops val) as [fn|] eqn:Hfn;
      [by apply step_call | by apply step_Push].
Qed.

Lemma eval_step_det : deterministic eval_step.
Proof. intros c c1 c2 Hc1%eval_step_exec Hc2%eval_step_exec. congruence. Qed.

(** A configuration out of the function has no successor, any other has one. *)
Lemma eval_exec_halted c : eval_exec c = None ↔ halted c.
Proof. by destruct c as [[|val vals] f | | |]. Qed.

Lemma halted_nf c : halted c → nf eval_step c.
Proof.
  intros Hh [c' Hc'%eval_step_exec]. apply eval_exec_halted in Hh. congruence.
Qed.

Lemma eval_step_progress c : halted c ∨ red eval_step c.
Proof.
  destruct (eval_exec c) as [c'|] eqn:E.
  - right. exists c'. by apply eval_step_exec.
  - left. by apply eval_exec_halted.
Qed.

(** Every step decreases the measure. *)
Lemma eval_step_steps_left c c' :
  eval_step c c' → (steps_left c' < steps_left c)%nat.
Proof.
  destruct 1 as [val vals f Hs | val vals f fn Hs Hfn | val vals f Hs Hfn | f | f ret e];
    simpl;
    [ lia
    | destruct (fn f) as [f' [[]|p]]
    | destruct (Push val f) as [f' [[]|p]]
    | destruct (Pop f) as [f' [ret|p]]
    | destruct (errRecover e None) as [err|p] ];
    simpl; lia.
Qed.

(** ** Runs *)

Lemma eval_run_steps n c : rtc eval_step c (eval_run n c).
Proof.
  revert c. induction n as [|n IH]; intros c; simpl; [done|].
  destruct (eval_exec c) as [c'|] eqn:E; [|done].
  eapply rtc_l; [by apply eval_step_exec | apply IH].
Qed.

Lemma eval_run_halted n c : halted c → eval_run n c = c.
Proof.
  intros Hh%eval_exec_halted. destruct n as [|n]; simpl; [done|]. by rewrite Hh.
Qed.

(** The deferred call is the last step. *)
Lemma eval_run_Deferred n f ret e :
  eval_run (S n) (Deferred f ret e) = after_defer f ret (errRecover e None).
Proof. simpl. apply eval_run_halted. by destruct (errRecover e None). Qed.

Lemma eval_run_panic n f p :
  eval_run (S n) (Deferred f "" (Some p)) = halt (f, Eval_return (Panicked p)).
Proof. rewrite eval_run_Deferred. by destruct p. Qed.

(** With a unit of fuel for each token, one for [Pop] and one for the
    deferred call, the run from the head of the loop ends where the body of
    [Eval] followed by [Eval_return] does. *)
Lemma eval_run_body n vals f :
  (length vals + 2 ≤ n)%nat →
  eval_run n (Loop vals f) =
    halt (prod_map id Eval_return ((eval_loop ops vals;; Pop) f)).
Proof.
  revert n f. induction vals as [|val vals IH]; intros [|n] f Hn;
    simpl in Hn; [lia | | lia |]; cbn [eval_run eval_exec eval_loop]; munfold.
  - destruct n as [|n]; [lia|].
    destruct (Pop f) as [f' [ret|p]]; cbn [after_Pop];
      [apply eval_run_Deferred | apply eval_run_panic].
  - destruct (eval_token ops val f) as [f' [[]|p]]; cbn [after_call].
    + apply IH. lia.
    + destruct n as [|n]; [lia|]. apply eval_run_panic.
Qed.

(** The run of the machine from the start of a call ends where [Eval]
    does. *)
Lemma eval_steps_Eval s f : rtc eval_step (start s f) (halt (Eval ops s f)).
Proof.
  rewrite Eval_unfold. unfold eval_body.
  rewrite <- (eval_run_body (length (Split s " ") + 2)) by done.
  apply eval_run_steps.
Qed.

(** The step out of [Deferred f ret e] is the rule of the run time for a
    function that is left with [ret] stored, [err] still nil, the panic [e]
    on its way if any, and [errRecover(&err)] deferred ([Defer.leave]). *)
Lemma after_defer_leave f ret e :
  after_defer f ret (errRecover e None) =
    halt (leave {| f_state := f; f_results := (ret, None);
                   f_deferred := [errRecover_deferred] |}
            (match e with None => Done tt | Some p => Panicked p end)).
Proof. by destruct e as [[msg|r|v]|]. Qed.

(** ** An invariant of the runs of a call

    What holds of every configuration that a call on the input [s] goes
    through: the tokens left are the last ones of the split input, and
    whenever a panic is on its way or an error is returned, the named result
    [ret] is still the empty string. *)

Definition config_ok (s : string) (c : config) : Prop :=
  match c with
  | Loop vals _ => vals `suffix_of` Split s " "
  | Deferred _ ret (Some _) | Returned _ ret (Some _) => ret = ""
  | Deferred _ _ None | Returned _ _ None | Crashed _ _ => True
  end.

Lemma config_ok_after_call s val vals r :
  val :: vals `suffix_of` Split s " " → config_ok s (after_call vals r).
Proof.
  intros Hs. destruct r as [f' [[]|p]]; simpl; [|done].
  by eapply suffix_cons_l.
Qed.

Lemma config_ok_step s c c' : config_ok s c → eval_step c c' → config_ok s c'.
Proof.
  intros Hc.
  destruct 1 as [val vals f Hs | val vals f fn Hs Hfn | val vals f Hs Hfn | f | f ret e];
    simpl in Hc;
    [ by eapply suffix_cons_l
    | by eapply config_ok_after_call
    | by eapply config_ok_after_call
    | by destruct (Pop f) as [f' [ret|p]]
    | by destruct e as [[msg|r|v]|] ].
Qed.

(** ** The theorems of the machine *)

(** C26: an invariant of Eval, by induction on its run.  In every
    configuration a call on the input s reaches, the tokens still to run are
    a suffix of the split input, and the named result is the empty string
    whenever a panic is being handled or an error is returned: Eval never
    returns an error together with a result. *)
Theorem machine_invariant s f c :
  rtc eval_step (start s f) c → config_ok s c.
Proof.
  revert c. apply (rtc_ind_r (config_ok s)); [by exists []|].
  intros c c' _ Hstep Hc. by eapply config_ok_step.
Qed.

(** At every configuration the machine has at most one step to
    take, and the configurations with no step are exactly those out of the
    function: a call of Eval is never stuck inside its body. *)
Theorem eval_step_functional c :
  (∀ c1 c2, eval_step c c1 → eval_step c c2 → c1 = c2) ∧
  (halted c ↔ nf eval_step c).
Proof.
  split; [apply eval_step_det|]. split; [apply halted_nf|].
  intros Hnf. by destruct (eval_step_progress c).
Qed.

(** C11: the loop of Eval terminates.  Every step of the machine lowers
    the number of statements left, so no run from any configuration is
    infinite, with any table of operators that return or panic (a call of
    an operator is one step; an operator that does not come back is
    outside the model). *)
Theorem machine_terminates c : sn eval_step c.
Proof. apply (measure_sn _ steps_left), eval_step_steps_left. Qed.

(** C6: every call of Eval comes back.  From the start of a call, every
    run of the machine reaches, without being stuck before, the
    configuration out of the function that holds the result of Eval: the
    returned string and error, or the panic that unwinds the caller.  The
    operators of the table are functions of the stack that return or
    panic, as the twelve built-in ones are. *)
Theorem machine_reaches_Eval s f :
  eventually eval_step (eq (halt (Eval ops s f))) (start s f).
Proof. apply rtc_eventually; [apply eval_step_det | apply eval_steps_Eval]. Qed.

(** A unit of fuel for each string of the split input, one for the
    final Pop and one for the deferred call is enough for the executable
    machine to end in the result of Eval. *)
Theorem eval_run_Eval n s f :
  (length (Split s " ") + 2 ≤ n)%nat →
  eval_run n (start s f) = halt (Eval ops s f).
Proof. intros Hn. rewrite Eval_unfold. by apply eval_run_body. Qed.

(** C39: a call of Eval executes at most three statements more than its
    input has bytes: a run of the machine from the start of a call on the
    input s has at most String.length s + 3 steps. *)
Theorem machine_step_bound n s f c :
  nsteps eval_step n (start s f) c → (n ≤ String.length s + 3)%nat.
Proof.
  intros Hrun%(measure_nsteps _ steps_left eval_step_steps_left).
  pose proof (Split_length_le s " "). simpl in Hrun. lia.
Qed.

End Machine.

(** ** The theorems at concrete inputs *)

#[local] Existing Instance int64.
#[local] Existing Instance host_sb43.

(** The call [Eval("1 2 +")] on a new stack: three tokens, [Pop] and the
    deferred call. *)
Lemma eval_run_Eval_witness :
  (length (Split "1 2 +" " ") + 2 ≤ 5)%nat ∧
  eval_run opmap 5 (start "1 2 +" New) = halt (Eval opmap "1 2 +" New).
Proof.
  assert (Hn : (length (Split "1 2 +" " ") + 2 ≤ 5)%nat) by (simpl; lia).
  split; [done|]. exact (eval_run_Eval opmap 5 "1 2 +" New Hn).
Defined.

(** The call [Eval("+")] on a new stack is out of the function after two
    steps: the operator panics, the deferred call recovers. *)
Lemma machine_step_bound_witness :
  nsteps (eval_step opmap) 2 (start "+" New)
    (Returned New "" (Some "Empty stack")) ∧
  (2 ≤ String.length "+" + 3)%nat.
Proof.
  assert (Hrun : nsteps (eval_step opmap) 2 (start "+" New)
                   (Returned New "" (Some "Empty stack"))).
  { eapply nsteps_l; [by apply eval_step_exec|].
    eapply nsteps_l; [by apply eval_step_exec|]. apply nsteps_O. }
  split; [done|].
  exact (machine_step_bound opmap 2 "+" New _ Hrun).
Defined.

(** The same call returns its error with the empty string. *)
Lemma machine_invariant_witness :
  rtc (eval_step opmap) (start "+" New) (Returned New "" (Some "Empty stack")) ∧
  config_ok "+" (Returned New "" (Some "Empty stack")).
Proof.
  assert (Hrun : rtc (eval_step opmap) (start "+" New)
                   (Returned New "" (Some "Empty stack")))
    by exact (eval_run_steps opmap 2 (start "+" New)).
  split; [done|]. exact (machine_invariant opmap "+" New _ Hrun).
Defined.
