(* ===== verification/Effect.v ===== *)
(** * Effect: stack effects and the depth check, for any operator table

    src/forth.go:46-48, 59-68 and 89-106.  The loop of [Eval] has no branch
    that depends on a value, so the depth of the stack after each token
    follows from the number of values each operator pops and pushes: its
    effect.  The table can grow ([Newop]); this file is about any table whose
    operators have an effect that is declared under their name ([declared]).
    [Depth] shows that the built-in table is one.

    [typed effs vals n m] is the typing judgment: on a stack of [n] values
    the tokens [vals] never pop an empty stack and leave [m] values when they
    all return; [check] decides it.  [has_effect m e] is what an effect says
    of an operator; the effect of a sequence is computed from the effects of
    its parts ([effect_seq]), so an operator written with operators of the
    table has an effect that can be declared.  The lemmas are those of a
    type system: on a declared table, a loop that checks never panics with
    "Empty stack" and leaves the depth computed; a loop that returns checks;
    what lies below the values the check asks for is not touched. *)

From S2P Require Import Prelude GoInt GoStrconv GoStrings Stack Ops Eval.

Section Check.
Context (effs : gmap string (nat * nat)).

(** The effect of a token of the loop: nothing for a token the loop skips,
    that declared for the operator it names, one value pushed otherwise. *)
Definition token_effect (val : string) : nat * nat :=
  if decide (String.length val = 0%nat ∨ val = " ") then (0, 0)%nat
  else default (0, 1)%nat (effs !! val).

(** [check vals n]: the depth after the tokens [vals] on a stack of depth
    [n], [None] when one of them pops more than there is. *)
Fixpoint check (vals : list string) (n : nat) : option nat :=
  match vals with
  | [] => Some n
  | val :: vals' =>
    let '(i, o) := token_effect val in
    if decide (i ≤ n)%nat then check vals' (n - i + o)%nat else None
  end.

(** The same as a judgment. *)
Inductive typed : list string → nat → nat → Prop :=
| typed_nil n : typed [] n n
| typed_cons val vals n m :
    ((token_effect val).1 ≤ n)%nat →
    typed vals (n - (token_effect val).1 + (token_effect val).2)%nat m →
    typed (val :: vals) n m.

End Check.

(** [has_effect m e]: the computation [m] on the abstract stack has the
    effect [e].  When it returns, the stack had the values it pops and has
    the depth the effect gives; when it panics with "Empty stack", the stack
    had fewer values than it pops and is now empty; and on a stack that has
    the values it pops, it reads and writes nothing below them. *)
Definition has_effect (m : M lifo unit) (e : nat * nat) : Prop :=
  ∀ st,
    match m st with
    | (st', Done _) =>
      (e.1 ≤ length st)%nat ∧ length st' = (length st - e.1 + e.2)%nat
    | (st', Panicked p) =>
      p = EmptyStack → (length st < e.1)%nat ∧ st' = []
    end ∧
    ((e.1 ≤ length st)%nat →
     ∀ st0, m (st ++ st0) = prod_map (λ st', st' ++ st0) id (m st)).

(** The effect of one computation after another: the second pops what the
    first pushed before it pops what was there. *)
Definition effect_seq (e1 e2 : nat * nat) : nat * nat :=
  (e1.1 + (e2.1 - e1.2), e2.2 + (e1.2 - e2.1))%nat.

(** [declared ops effs]: every operator of the table has an effect, which
    [effs] holds under its name, and [effs] holds nothing else. *)
Definition declared (ops : gmap string (forthop lifo))
    (effs : gmap string (nat * nat)) : Prop :=
  ∀ val,
    match lookup_op ops val with
    | Some fn => ∃ e, effs !! val = Some e ∧ has_effect fn e
    | None => effs !! val = None
    end.

(** The depth of a stack, as [Length] gives it. *)
Definition depth `{Forth F} (f : F) : nat := Z.to_nat (Length f).

(** ** The checker decides the judgment *)

Section Checker.
Context (effs : gmap string (nat * nat)).

Lemma check_typed vals n m : check effs vals n = Some m ↔ typed effs vals n m.
Proof.
  revert n. induction vals as [|val vals IH]; intros n; simpl.
  - split; [intros [= <-]; constructor | by inversion 1].
  - destruct (token_effect effs val) as [i o] eqn:E. case_decide as Hi.
    + rewrite IH. split; [intros Hv; constructor; by rewrite E|].
      inversion 1 as [|???? _ Hv]; subst. by rewrite E in Hv.
    + split; [done|]. inversion 1 as [|???? Hle _]; subst. by rewrite E in Hle.
Qed.

#[global] Instance typed_dec vals n m : Decision (typed effs vals n m).
Proof.
  refine (cast_if (decide (check effs vals n = Some m))); by rewrite <- check_typed.
Defined.

(** The judgment is a function of the tokens and the depth before. *)
Lemma typed_functional vals n m1 m2 :
  typed effs vals n m1 → typed effs vals n m2 → m1 = m2.
Proof. rewrite <- !check_typed. congruence. Qed.

(** A list of tokens checks when its parts do, one after the other. *)
Lemma typed_app vals1 vals2 n m :
  typed effs (vals1 ++ vals2) n m ↔
  ∃ k, typed effs vals1 n k ∧ typed effs vals2 k m.
Proof.
  revert n. induction vals1 as [|val vals1 IH]; intros n; simpl.
  - split; [intros Hv; exists n; split; [constructor | done]|].
    by intros (k & Hk & Hv); inversion Hk; subst.
  - split.
    + inversion 1 as [|???? Hle Hv]; subst. apply IH in Hv as (k & Hk & Hv).
      exists k. split; [by constructor | done].
    + intros (k & Hk & Hv). inversion Hk as [|???? Hle Hk']; subst.
      constructor; [done|]. apply IH. by exists k.
Qed.

End Checker.

(** ** The algebra of effects *)

Lemma has_effect_equiv (m m' : M lifo unit) e :
  m ≡ m' → has_effect m' e → has_effect m e.
Proof. intros Hm He st. rewrite (Hm st). setoid_rewrite (Hm _). apply He. Qed.

Lemma has_effect_ret : has_effect (mret tt) (0, 0)%nat.
Proof. intros st. simpl. split; [lia | done]. Qed.

Lemma has_effect_Push x : has_effect (Push x) (0, 1)%nat.
Proof. intros st. simpl. split; [lia | done]. Qed.

(** A sequence has the effect computed from those of its parts. *)
Lemma has_effect_seq (m1 m2 : M lifo unit) e1 e2 :
  has_effect m1 e1 → has_effect m2 e2 →
  has_effect (m1;; m2) (effect_seq e1 e2).
Proof.
  intros H1 H2 st. destruct (H1 st) as [Hd1 Hf1]. munfold. simpl.
  destruct (m1 st) as [st1 [[]|p1]] eqn:E1.
  - destruct Hd1 as [Hle1 Hlen1]. destruct (H2 st1) as [Hd2 Hf2]. split.
    + destruct (m2 st1) as [st2 [[]|p2]]; [lia|].
      intros Hp. destruct (Hd2 Hp). split; [lia | done].
    + intros Hle st0. rewrite Hf1 by lia. simpl. apply Hf2. lia.
  - split; [intros Hp; destruct (Hd1 Hp); split; [lia | done]|].
    intros Hle st0. by rewrite Hf1 by lia.
Qed.

(** ** Declared tables *)

(** [Newop] of an operator with its effect keeps the table declared. *)
Lemma declared_Newop ops effs n fn e :
  declared ops effs → has_effect fn e →
  declared (Newop n (Some fn) ops) (<[n := e]> effs).
Proof.
  intros Hd He val. rewrite lookup_op_Newop, lookup_insert.
  case_decide; [by eauto | apply Hd].
Qed.

(** [Newop] of nil withdraws the name: the token is a literal again. *)
Lemma declared_Newop_nil ops effs n :
  declared ops effs → declared (Newop n None ops) (delete n effs).
Proof.
  intros Hd val. rewrite lookup_op_Newop.
  case_decide as Hn; [subst; by rewrite lookup_delete_eq|].
  rewrite lookup_delete_ne by done. apply Hd.
Qed.

(** ** The loop on a declared table, on the abstract stack *)

Section Loop.
Context (ops : gmap string (forthop lifo)) (effs : gmap string (nat * nat)).
Context (Hd : declared ops effs).

(** A token of the loop has its effect. *)
Lemma eval_token_effect val :
  has_effect (eval_token ops val) (token_effect effs val).
Proof.
  unfold eval_token, token_effect. case_decide; [apply has_effect_ret|].
  specialize (Hd val). destruct (lookup_op ops val) as [fn|].
  - destruct Hd as (e & -> & He). done.
  - rewrite Hd. apply has_effect_Push.
Qed.

Lemma eval_loop_typed vals (st : lifo) m :
  typed effs vals (length st) m →
  match eval_loop ops vals st with
  | (st', Done _) => length st' = m
  | (_, Panicked p) => p ≠ EmptyStack
  end.
Proof.
  remember (length st) as n eqn:En. intros Hv. revert st En.
  induction Hv as [n | val vals n m Hle _ IH]; intros st ->; simpl; [done|].
  munfold. destruct (eval_token_effect val st) as [He _].
  destruct (eval_token ops val st) as [st1 [[]|p]].
  - apply IH. by destruct He as [_ ->].
  - intros Hp. destruct (He Hp). lia.
Qed.

(** After the panic "Empty stack" the stack is empty: it is raised on a
    stack that ran out, and nothing is pushed on the way out. *)
Lemma eval_loop_EmptyStack vals (st st' : lifo) :
  eval_loop ops vals st = (st', Panicked EmptyStack) → st' = [].
Proof.
  revert st. induction vals as [|val vals IH]; intros st; simpl; [done|].
  munfold. destruct (eval_token_effect val st) as [He _].
  destruct (eval_token ops val st) as [st1 [[]|p]]; [apply IH|].
  intros [= <- ->]. by apply He.
Qed.

Lemma eval_loop_Done_typed vals (st st' : lifo) :
  eval_loop ops vals st = (st', Done tt) →
  typed effs vals (length st) (length st').
Proof.
  revert st. induction vals as [|val vals IH]; intros st; simpl.
  - intros [= <-]. constructor.
  - munfold. destruct (eval_token_effect val st) as [He _].
    destruct (eval_token ops val st) as [st1 [[]|p]]; [|done].
    destruct He as [Hle He]. intros Hr%IH. constructor; [done|]. by rewrite <- He.
Qed.

(** What lies below the values the tokens need stays where it is. *)
Lemma eval_loop_frame vals (st st0 : lifo) m :
  typed effs vals (length st) m →
  eval_loop ops vals (st ++ st0) =
    prod_map (λ st', st' ++ st0) id (eval_loop ops vals st).
Proof.
  remember (length st) as n eqn:En. intros Hv. revert st En.
  induction Hv as [n | val vals n m Hle _ IH]; intros st ->; simpl; [done|].
  munfold. destruct (eval_token_effect val st) as [He Hf]. rewrite (Hf Hle st0).
  destruct (eval_token ops val st) as [st1 [[]|p]]; simpl; [|done].
  apply IH. by destruct He as [_ ->].
Qed.

(** The same for the body of [Eval]: the loop, then [Pop]. *)
Lemma eval_body_typed s (st : lifo) m :
  typed effs (Split s " ") (length st) (S m) →
  match eval_body ops s st with
  | (st', Done _) => length st' = m
  | (_, Panicked p) => p ≠ EmptyStack
  end.
Proof.
  intros Hv%eval_loop_typed. unfold eval_body. munfold.
  destruct (eval_loop ops (Split s " ") st) as [[|x st1] [[]|p]];
    simpl in *; [done.. | lia | done].
Qed.

Lemma eval_body_EmptyStack s (st st' : lifo) :
  eval_body ops s st = (st', Panicked EmptyStack) → st' = [].
Proof.
  unfold eval_body. munfold.
  destruct (eval_loop ops (Split s " ") st)
    as [st1 [[]|p]] eqn:E; [by destruct st1; intros [= <-]|].
  intros [= <- ->]. by eapply eval_loop_EmptyStack.
Qed.

Lemma eval_body_Done_typed s (st st' : lifo) r :
  eval_body ops s st = (st', Done r) →
  typed effs (Split s " ") (length st) (S (length st')).
Proof.
  unfold eval_body. munfold.
  destruct (eval_loop ops (Split s " ") st)
    as [st1 [[]|p]] eqn:E; [|done].
  apply eval_loop_Done_typed in E. destruct st1 as [|x st1]; [done|].
  by intros [= <- _].
Qed.

Lemma eval_body_frame s (st st0 : lifo) m :
  typed effs (Split s " ") (length st) (S m) →
  eval_body ops s (st ++ st0) =
    prod_map (λ st', st' ++ st0) id (eval_body ops s st).
Proof.
  intros Hv. unfold eval_body. munfold. rewrite (eval_loop_frame _ _ _ _ Hv).
  apply eval_loop_typed in Hv.
  destruct (eval_loop ops (Split s " ") st) as [[|x st1] [[]|p]];
    done.
Qed.

End Loop.

(** ** The body of [Eval] on a declared table, for every implementation *)

Section Sound.
Context `{ForthLaws F} (ops : gmap string (forthop F)).
Context (ops' : gmap string (forthop lifo)) (effs : gmap string (nat * nat)).
Context (Hr : ops_refines ops ops') (Hd : declared ops' effs).

Lemma depth_contents (f : F) : depth f = length (contents f).
Proof. unfold depth. rewrite Length_contents. apply Nat2Z.id. Qed.

(** When the body returns, the tokens check with the depth it leaves plus
    the popped result; when it panics with "Empty stack", the stack is
    empty. *)
Lemma eval_body_depth_table s f :
  match eval_body ops s f with
  | (f', Done _) => typed effs (Split s " ") (depth f) (S (depth f'))
  | (f', Panicked p) => p = EmptyStack → Empty f' = true
  end.
Proof.
  pose proof (eval_body_refines ops ops' s Hr f) as Hc.
  destruct (eval_body ops s f) as [f1 [r|p]]; simpl in *; symmetry in Hc.
  - rewrite !depth_contents. by eapply eval_body_Done_typed.
  - intros ->. apply Empty_true_contents. by eapply eval_body_EmptyStack.
Qed.

(** When the tokens check, the body leaves the depth that was computed, less
    the popped result, and does not panic with "Empty stack". *)
Lemma eval_body_sound_table s f m :
  typed effs (Split s " ") (depth f) (S m) →
  match eval_body ops s f with
  | (f', Done _) => depth f' = m
  | (_, Panicked p) => p ≠ EmptyStack
  end.
Proof.
  rewrite depth_contents. intros Hv%(eval_body_typed ops' effs Hd).
  rewrite <- (eval_body_refines ops ops' s Hr f) in Hv.
  destruct (eval_body ops s f) as [f1 [r|p]]; simpl in *; [|done].
  by rewrite depth_contents.
Qed.

(** The same for [Eval]: the error "Empty stack" is not returned. *)
Lemma Eval_sound_table s f m f' ret err :
  typed effs (Split s " ") (depth f) (S m) →
  Eval ops s f = (f', Done (ret, err)) →
  err ≠ Some "Empty stack" ∧ (err = None → depth f' = m).
Proof.
  intros Hv%eval_body_sound_table. rewrite Eval_unfold.
  destruct (eval_body ops s f) as [f1 [r|[msg|r|v]]]; simpl in *; [| |done..];
    intros [= <- <- <-]; [done|].
  split; [|done]. by intros [= ->].
Qed.

End Sound.

(** ** Declared tables over an implementation *)

Section Tables.
Context `{ForthLaws F}.

(** [table_declared ops effs]: on the contents of the stack, the operators
    of [ops] are operators with the effects [effs]. *)
Definition table_declared (ops : gmap string (forthop F))
    (effs : gmap string (nat * nat)) : Prop :=
  ∃ ops' : gmap string (forthop lifo), ops_refines ops ops' ∧ declared ops' effs.

(** Registering an operator with its effect: the table after [Newop] has
    the declared effects with [e] under the new name, whether the name was
    free, taken by a built-in operator or registered before. *)
Lemma Newop_declared ops effs n (fn : M F unit) (fn' : M lifo unit) e :
  table_declared ops effs → refines contents fn fn' → has_effect fn' e →
  table_declared (Newop n (Some fn) ops) (<[n := e]> effs).
Proof.
  intros (ops' & Hr & Hd) Hfn He. exists (Newop n (Some fn') ops'). split.
  - apply Newop_refines; [by constructor | done].
  - by apply declared_Newop.
Qed.

Lemma Newop_nil_declared ops effs n :
  table_declared ops effs → table_declared (Newop n None ops) (delete n effs).
Proof.
  intros (ops' & Hr & Hd). exists (Newop n None ops'). split.
  - apply Newop_refines; [constructor | done].
  - by apply declared_Newop_nil.
Qed.

End Tables.
