(* ===== verification/Depth.v ===== *)
(** * Depth: the depth check for the built-in table, and for tables that
    declare their effects

    src/forth.go:17-30, 46-48, 59-68, 89-106 and 108-191.  [Effect] has the
    judgment [typed], its checker and the lemmas of the loop for any table
    whose operators have declared effects.  This file gives the effects of
    the twelve built-in operators ([builtin_effects]) and shows that each
    operator has the effect given for it, so that the initial table is
    declared ([opmap_declared]).

    The theorems are those of a type system.  For the built-in table: a call
    of [Eval] that checks never returns the error "Empty stack" and leaves
    the depth that was computed (soundness), and a call that returns a
    result without an error checks (completeness).  A division by zero or an
    unknown host name is not a matter of depth: a call that checks can still
    panic with those; for an input without the operators that can
    ([crash_free]) the check decides between a result and the error.  The
    effect of an operator also says what it does not touch: a call reads and
    writes only the values that the check says it needs (the frame), and the
    error "Empty stack" leaves the stack empty.  For a table that [Newop] has
    extended: registering an operator with its effect keeps the table
    declared ([Effect.Newop_declared]), and soundness holds for every
    declared table ([typed_Eval_declared]). *)

From S2P Require Import Prelude GoInt GoStrconv GoStrings Stack Ops Eval Effect.

(** The values an operator pops, and the values it pushes when it returns,
    for the entries of [Ops.builtins] in their order. *)
Definition builtin_effects : list (string * (nat * nat)) :=
  [ ("+", (2, 1));
    ("-", (2, 1));
    ("*", (2, 1));
    ("/", (2, 1));
    ("%", (2, 1));
    ("swap", (2, 2));
    ("ifelse", (3, 1));
    ("hostname", (0, 1));
    ("hostbase", (1, 1));
    ("strcat", (2, 1));
    ("roundup", (2, 1));
    ("dup", (1, 2)) ]%nat.

Definition effects : gmap string (nat * nat) := list_to_map builtin_effects.

(** The operators that can panic with something else than "Empty stack":
    the three that divide, and [hostname]. *)
Definition crashing : list string := ["/"; "%"; "roundup"; "hostname"].

(** [crash_free vals]: no token of [vals] names one of them. *)
Definition crash_free (vals : list string) : Prop :=
  Forall (λ val, val ∉ crashing) vals.

(** ** The effects of the built-in operators *)

Section Effects.
Context `{IntSize} `{HostEnv}.

(** The cases of an effect: arithmetic, or a panic that is or is not
    "Empty stack". *)
Ltac effect_solve :=
  split_and!;
  first [lia | done | split; (lia || done) | intros; simpl in *; lia].

Lemma binop_spec_effect (op : Z → Z → outcome Z) :
  (∀ x y p, op x y = Panicked p → p ≠ EmptyStack) →
  has_effect (binop_spec op) (2, 1)%nat.
Proof.
  intros Hop [|sx [|sy st]]; simpl; [effect_solve..|].
  destruct (op (atoi sx) (atoi sy)) as [z|p] eqn:E; simpl; [effect_solve|].
  pose proof (Hop _ _ p E). effect_solve.
Qed.

Lemma int_quo_not_EmptyStack x y p : int_quo y x = Panicked p → p ≠ EmptyStack.
Proof. by intros [_ ->]%int_quo_panics. Qed.

Lemma int_rem_not_EmptyStack x y p : int_rem y x = Panicked p → p ≠ EmptyStack.
Proof. by intros [_ ->]%int_rem_panics. Qed.

(** An operator whose reference definition is a match on the top of the
    stack has its effect by cases on the stack. *)
Ltac effect_tac :=
  intros [|? [|? [|? ?]]]; simpl; repeat case_match; effect_solve.

Lemma builtins_effects :
  Forall2 (λ (b : string * forthop lifo) (e : string * (nat * nat)),
             b.1 = e.1 ∧ ∃ fn, b.2 = Some fn ∧ has_effect fn e.2)
    builtins builtin_effects.
Proof.
  unfold builtins, builtin_effects.
  repeat (constructor; [split; [done|]; eexists; split; [done|]; simpl|]);
    [..|constructor].
  - eapply has_effect_equiv; [apply plus_lifo | by apply binop_spec_effect].
  - eapply has_effect_equiv; [apply sub_lifo | by apply binop_spec_effect].
  - eapply has_effect_equiv; [apply times_lifo | by apply binop_spec_effect].
  - eapply has_effect_equiv; [apply div_lifo|].
    apply binop_spec_effect. intros x y. apply int_quo_not_EmptyStack.
  - eapply has_effect_equiv; [apply mod_lifo|].
    apply binop_spec_effect. intros x y. apply int_rem_not_EmptyStack.
  - eapply has_effect_equiv; [apply swap_lifo | effect_tac].
  - eapply has_effect_equiv; [apply ifelse_lifo | effect_tac].
  - eapply has_effect_equiv; [apply hostname_lifo|]. intros st.
    unfold hostname_spec. destruct os_Hostname; simpl; effect_solve.
  - eapply has_effect_equiv; [apply hostbase_lifo | effect_tac].
  - eapply has_effect_equiv; [apply strcat_lifo | effect_tac].
  - eapply has_effect_equiv; [apply roundup_lifo|].
    apply binop_spec_effect. intros x y p.
    destruct (int_quo _ x) as [q|p'] eqn:E; [done|]. intros [= <-].
    by eapply int_quo_not_EmptyStack.
  - eapply has_effect_equiv; [apply dup_lifo | effect_tac].
Qed.

(** The initial table is declared, with [effects]. *)
Lemma opmap_declared : declared opmap effects.
Proof.
  intros val. unfold lookup_op, opmap, effects.
  destruct (list_to_map_Forall2
              (λ (op : forthop lifo) e, ∃ fn, op = Some fn ∧ has_effect fn e)
              _ _ val builtins_effects)
    as [op e (fn & -> & He)|]; [by eauto | done].
Qed.

(** A built-in operator has the effect given under its name. *)
Lemma builtin_has_effect val fn e :
  lookup_op (F := lifo) opmap val = Some fn → effects !! val = Some e →
  has_effect fn e.
Proof.
  intros Hfn He. pose proof (opmap_declared val) as Hd. rewrite Hfn in Hd.
  destruct Hd as (e' & He' & Hfn'). by simplify_eq.
Qed.

End Effects.

(** ** Soundness and completeness for every implementation of the stack *)

Section Sound.
Context `{IntSize} `{HostEnv} `{ForthLaws F}.

(** An operator that does not divide and does not ask for the host name
    panics with "Empty stack" or not at all. *)
Lemma builtins_no_crash :
  Forall (λ e : string * forthop F,
            e.1 ∉ crashing →
            ∀ fn, e.2 = Some fn → panics_within (λ p, p = EmptyStack) fn)
    builtins.
Proof.
  repeat (apply Forall_cons; split; [simpl; intros Hc fn [= <-]|]);
    [..|by apply Forall_nil];
    first [ by destruct Hc; compute_done
          | unfold plus, sub, times, swap, ifelse, hostbase, strcat, dup;
            panics_tac; done ].
Qed.

Lemma eval_token_no_crash val :
  val ∉ crashing →
  panics_within (λ p, p = EmptyStack) (eval_token (F := F) opmap val).
Proof.
  intros Hc. unfold eval_token. case_decide; [apply panics_within_ret|].
  unfold lookup_op, opmap.
  destruct (list_to_map builtins !! val) as [[fn|]|] eqn:E;
    [|apply Push_panics..].
  by eapply (list_to_map_Forall_key
    (λ val op, val ∉ crashing →
               ∀ fn, op = Some fn → panics_within (λ p, p = EmptyStack) fn)
    _ _ _ builtins_no_crash E).
Qed.

Lemma eval_body_no_crash s :
  crash_free (Split s " ") →
  panics_within (λ p, p = EmptyStack) (eval_body (F := F) opmap s).
Proof.
  intros Hs. apply panics_within_bind; [|intros _; by apply Pop_panics].
  induction Hs as [|val vals Hval _ IH]; [apply panics_within_ret|].
  apply panics_within_bind; [by apply eval_token_no_crash | done].
Qed.

Lemma eval_body_contents s f :
  prod_map contents id (eval_body opmap s f) = eval_body opmap s (contents f).
Proof. apply eval_body_refines, opmap_refines. Qed.

(** The body of [Eval] on any implementation: when it returns, the tokens
    check with the depth it leaves plus the popped result; when it panics
    with "Empty stack", the stack is empty. *)
Lemma eval_body_depth s f :
  match eval_body opmap s f with
  | (f', Done _) => typed effects (Split s " ") (depth f) (S (depth f'))
  | (f', Panicked p) => builtin_panic p ∧ (p = EmptyStack → Empty f' = true)
  end.
Proof.
  pose proof (eval_body_depth_table opmap opmap effects opmap_refines
                opmap_declared s f) as Hd.
  pose proof (eval_body_outcome s f) as Hp.
  destruct (eval_body opmap s f) as [f1 [r|p]]; simpl in *; [done|].
  split; [by apply Hp | done].
Qed.

(** When the tokens check, the body leaves the depth that was computed, less
    the popped result, and does not panic with "Empty stack". *)
Lemma eval_body_sound s f m :
  typed effects (Split s " ") (depth f) (S m) →
  match eval_body opmap s f with
  | (f', Done _) => depth f' = m
  | (_, Panicked p) => p ≠ EmptyStack
  end.
Proof.
  apply (eval_body_sound_table opmap opmap effects opmap_refines opmap_declared).
Qed.

(** C5: soundness of the depth check.  When the tokens of the input
    check on the depth of the stack with a final depth of at least one, a
    call of Eval with the built-in table that returns to its caller returns
    no error, and leaves on the stack one value less than the check
    computed (the result was popped).  In particular the error
    "Empty stack" is impossible; the call can still panic on a division by
    zero or an unknown host name. *)
Theorem typed_Eval_no_error s f m f' ret err :
  typed effects (Split s " ") (depth f) (S m) →
  Eval opmap s f = (f', Done (ret, err)) →
  err = None ∧ depth f' = m.
Proof.
  intros Hv%eval_body_sound. rewrite Eval_unfold.
  pose proof (eval_body_outcome s f) as Hp.
  destruct (eval_body opmap s f) as [f1 [r|p]]; simpl in *.
  - by intros [= <- <- <-].
  - destruct (Hp p eq_refl) as [-> | [-> | [-> _]]]; done.
Qed.

(** C23: completeness of the depth check.  A call of Eval with the
    built-in table that returns a result and no error is a call whose
    tokens check on the depth of the stack, with the final depth the stack
    has after the call plus the result that was popped: an input that does
    not check never evaluates to a result. *)
Theorem Eval_Done_typed s f f' ret :
  Eval opmap s f = (f', Done (ret, None)) →
  typed effects (Split s " ") (depth f) (S (depth f')).
Proof.
  rewrite Eval_unfold. pose proof (eval_body_depth s f) as Hd.
  by destruct (eval_body opmap s f) as [f1 [r|[]]]; simpl; intros [= -> _].
Qed.

(** C22: an error leaves the stack empty.  When a call of Eval with the
    built-in table returns an error, the error is "Empty stack", no result
    comes with it, and the stack is empty: the error is raised by a Pop that
    found no value and nothing is pushed after it, so a caller need not
    Reset the stack before the next call. *)
Theorem Eval_error_empties s f f' ret msg :
  Eval opmap s f = (f', Done (ret, Some msg)) →
  msg = "Empty stack" ∧ ret = "" ∧ Empty f' = true.
Proof.
  rewrite Eval_unfold. pose proof (eval_body_depth s f) as Hd.
  destruct (eval_body opmap s f) as [f1 [r|p]]; simpl; [done|].
  destruct Hd as [[-> | [-> | [-> _]]] He]; [|done..].
  intros [= <- <- <-]. auto.
Qed.

(** The body of a call that cannot crash returns when its tokens check
    with a final depth of at least one, and panics with "Empty stack", the
    stack empty, in every other case. *)
Lemma eval_body_decided s f :
  crash_free (Split s " ") →
  match check effects (Split s " ") (depth f) with
  | Some (S m) => ∃ f' ret, eval_body opmap s f = (f', Done ret) ∧ depth f' = m
  | _ => ∃ f', eval_body opmap s f = (f', Panicked EmptyStack) ∧ Empty f' = true
  end.
Proof.
  intros Hs.
  pose proof (eval_body_depth s f) as Hd.
  pose proof (eval_body_sound s f) as Hv.
  pose proof (eval_body_no_crash s Hs f) as Hp.
  destruct (eval_body opmap s f) as [f1 [r|p]]; simpl.
  - apply check_typed in Hd. rewrite Hd. by exists f1, r.
  - rewrite (Hp f1 p eq_refl) in *. destruct Hd as [_ He].
    destruct (check effects (Split s " ") (depth f)) as [[|m]|] eqn:E;
      [by eauto | | by eauto].
    apply check_typed in E. by destruct (Hv m E).
Qed.

(** C21: the check decides the outcome of a call that cannot crash.  For
    an input with no token that divides or asks for the host name, the
    depth check tells before the call what Eval with the built-in table
    returns: a result and no error, with the stack at the depth computed
    less one, when the tokens check with a final depth of at least one; the
    error "Empty stack", no result and an empty stack in every other case.
    Such a call never panics. *)
Theorem Eval_check_decides s f :
  crash_free (Split s " ") →
  match check effects (Split s " ") (depth f) with
  | Some (S m) =>
    ∃ f' ret, Eval opmap s f = (f', Done (ret, None)) ∧ depth f' = m
  | _ =>
    ∃ f', Eval opmap s f = (f', Done ("", Some "Empty stack")) ∧ Empty f' = true
  end.
Proof.
  intros Hb%(eval_body_decided s f).
  destruct (check effects (Split s " ") (depth f)) as [[|m]|];
    [destruct Hb as (f' & Hb & ?) | destruct Hb as (f' & ret & Hb & ?)
    | destruct Hb as (f' & Hb & ?)];
    rewrite Eval_unfold, Hb; simpl; eauto.
Qed.

(** C24: the frame of a call.  When the tokens check on a depth n, a call
    of Eval on a stack that has n values on top of others neither reads nor
    writes the others: its result, and what it leaves above them, are those
    of the call on the n values alone. *)
Theorem Eval_frame s f (st st0 : lifo) m :
  typed effects (Split s " ") (length st) (S m) →
  contents f = st ++ st0 →
  prod_map contents id (Eval opmap s f) =
    prod_map (λ st', st' ++ st0) id (Eval (F := lifo) opmap s st).
Proof.
  intros Hv Hf. rewrite !Eval_unfold.
  pose proof (eval_body_contents s f) as Hc.
  rewrite Hf, (eval_body_frame _ _ opmap_declared _ _ _ _ Hv) in Hc.
  destruct (eval_body opmap s f) as [f1 o],
    (eval_body (F := lifo) opmap s st) as [st1 o1].
  simpl in *. by injection Hc as -> ->.
Qed.

End Sound.

(** ** Tables that [Newop] has extended *)

Section Declared.
Context `{IntSize} `{HostEnv} `{ForthLaws F}.

Lemma opmap_table_declared : table_declared opmap effects.
Proof. exists opmap. split; [apply opmap_refines | apply opmap_declared]. Qed.

(** C20: soundness of the depth check on every declared table.  With a
    table whose operators, registered ones included, have the effects
    declared for them: when the tokens of the input check on the depth of
    the stack with a final depth of at least one, a call of Eval that
    returns does not return the error "Empty stack", and when it returns no
    error it leaves one value less than the check computed. *)
Theorem typed_Eval_declared ops effs s f m f' ret err :
  table_declared ops effs →
  typed effs (Split s " ") (depth f) (S m) →
  Eval ops s f = (f', Done (ret, err)) →
  err ≠ Some "Empty stack" ∧ (err = None → depth f' = m).
Proof. intros (ops' & Hr & Hd). by apply (Eval_sound_table ops ops'). Qed.

End Declared.

(** ** The theorems at concrete inputs *)

#[local] Existing Instance int64.
#[local] Existing Instance host_sb43.

(** [Eval("1 2 +")] on a new stack checks with one value left to pop. *)
Lemma typed_Eval_no_error_witness :
  typed effects (Split "1 2 +" " ") (depth New) 1 ∧
  Eval opmap "1 2 +" New = (New, Done ("3", None)) ∧
  ((None : option os_Error) = None ∧ depth New = 0%nat).
Proof.
  assert (Hv : typed effects (Split "1 2 +" " ") (depth New) 1)
    by (apply check_typed; reflexivity).
  assert (HE : Eval opmap "1 2 +" New = (New, Done ("3", None))) by reflexivity.
  refine (conj Hv (conj HE _)).
  exact (typed_Eval_no_error "1 2 +" New 0 New "3" None Hv HE).
Defined.

(** [Eval("1 2")] returns "2" and no error, and leaves "1" on the stack:
    its tokens check with a final depth of two. *)
Lemma Eval_Done_typed_witness :
  Eval opmap "1 2" New = ({| stack := ["1"] |}, Done ("2", None)) ∧
  typed effects (Split "1 2" " ") (depth New) (S (depth {| stack := ["1"] |})).
Proof.
  assert (HE : Eval opmap "1 2" New = ({| stack := ["1"] |}, Done ("2", None)))
    by reflexivity.
  split; [done|]. exact (Eval_Done_typed "1 2" New {| stack := ["1"] |} "2" HE).
Defined.

(** [Eval("1 2 +")] on a stack that holds "7" leaves the "7" alone. *)
Lemma Eval_frame_witness :
  typed effects (Split "1 2 +" " ") (length ([] : lifo)) 1 ∧
  contents {| stack := ["7"] |} = [] ++ ["7"] ∧
  prod_map contents id (Eval opmap "1 2 +" {| stack := ["7"] |}) =
    prod_map (λ st', st' ++ ["7"]) id (Eval (F := lifo) opmap "1 2 +" []).
Proof.
  assert (Hv : typed effects (Split "1 2 +" " ") (length ([] : lifo)) 1)
    by (apply check_typed; reflexivity).
  assert (Hf : contents {| stack := ["7"] |} = [] ++ ["7"]) by reflexivity.
  refine (conj Hv (conj Hf _)).
  exact (Eval_frame "1 2 +" {| stack := ["7"] |} [] ["7"] 0 Hv Hf).
Defined.

(** ["+"] on a stack of one value pops it, finds nothing more, and returns
    the error with the stack empty. *)
Lemma Eval_error_empties_witness :
  Eval opmap "+" {| stack := ["1"] |} = (New, Done ("", Some "Empty stack")) ∧
  ("Empty stack" = "Empty stack" ∧ "" = "" ∧ Empty New = true).
Proof.
  assert (HE : Eval opmap "+" {| stack := ["1"] |} =
                 (New, Done ("", Some "Empty stack"))) by reflexivity.
  split; [done|].
  exact (Eval_error_empties "+" {| stack := ["1"] |} New "" "Empty stack" HE).
Defined.

(** ["1 dup +"] cannot crash and checks; ["dup +"] cannot crash and does
    not. *)
Lemma Eval_check_decides_witness :
  crash_free (Split "1 dup +" " ") ∧
  match check effects (Split "1 dup +" " ") (depth New) with
  | Some (S m) =>
    ∃ f' ret, Eval opmap "1 dup +" New = (f', Done (ret, None)) ∧ depth f' = m
  | _ =>
    ∃ f', Eval opmap "1 dup +" New = (f', Done ("", Some "Empty stack")) ∧
          Empty f' = true
  end.
Proof.
  assert (Hs : crash_free (Split "1 dup +" " "))
    by (repeat constructor; compute_done).
  split; [done|]. exact (Eval_check_decides "1 dup +" New Hs).
Defined.

(** ** An operator registered with its effect

    "double", the Go function [func(f Forth) { dup(f); plus(f) }]: it pops
    one value and pushes one. *)

Definition double_fn `{Forth F} : M F unit := dup;; plus.

Lemma double_effect : has_effect double_fn (1, 1)%nat.
Proof.
  apply (has_effect_seq dup plus (1, 2)%nat (2, 1)%nat);
    [by apply (builtin_has_effect "dup") | by apply (builtin_has_effect "+")].
Qed.

Lemma double_refines : refines contents (double_fn (F := forthstack)) double_fn.
Proof. apply refines_bind; [apply dup_refines | intros _; apply plus_refines]. Qed.

Lemma double_declared :
  table_declared (F := forthstack) opmap effects ∧
  refines contents (double_fn (F := forthstack)) double_fn ∧
  has_effect double_fn (1, 1)%nat ∧
  table_declared (F := forthstack) (Newop "double" (Some double_fn) opmap)
    (<["double" := (1, 1)%nat]> effects).
Proof.
  refine (conj opmap_table_declared (conj double_refines (conj double_effect _))).
  exact (Newop_declared opmap effects "double" double_fn double_fn (1, 1)%nat
           opmap_table_declared double_refines double_effect).
Defined.

(** ["4 double"] checks with the effect declared for "double", and
    evaluates to "8". *)
Lemma typed_Eval_declared_witness :
  table_declared (F := forthstack) (Newop "double" (Some double_fn) opmap)
    (<["double" := (1, 1)%nat]> effects) ∧
  typed (<["double" := (1, 1)%nat]> effects) (Split "4 double" " ") (depth New) 1 ∧
  Eval (Newop "double" (Some double_fn) opmap) "4 double" New =
    (New, Done ("8", None)) ∧
  ((None : option os_Error) ≠ Some "Empty stack" ∧
   ((None : option os_Error) = None → depth New = 0%nat)).
Proof.
  assert (Ht : table_declared (F := forthstack)
                 (Newop "double" (Some double_fn) opmap)
                 (<["double" := (1, 1)%nat]> effects))
    by apply double_declared.
  assert (Hv : typed (<["double" := (1, 1)%nat]> effects)
                 (Split "4 double" " ") (depth New) 1)
    by (apply check_typed; reflexivity).
  assert (HE : Eval (Newop "double" (Some double_fn) opmap) "4 double" New =
                 (New, Done ("8", None))) by reflexivity.
  refine (conj Ht (conj Hv (conj HE _))).
  exact (typed_Eval_declared _ _ "4 double" New 0 New "8" None Ht Hv HE).
Defined.
