(* ===== verification/Laws.v ===== *)
(** * Laws: equations between inputs

    src/forth.go:108-162 and 89-106.  The operators of the initial table
    satisfy equations: "swap swap" does nothing, "swap +" is "+", "dup +"
    doubles as "2 *" does, "0 ifelse" drops the top of the stack.  This file
    states them as equations between lists of tokens, proves them from the
    reference definitions of the operators, and shows that they can be used
    anywhere in an input of [Eval].

    [same_at n vals1 vals2]: on every stack of at least [n] values the loop
    of [Eval] over [vals1] and over [vals2] ends alike, with the same stack
    and the same panic if any.  Most equations hold on every stack, short
    ones included, since an operator that runs out of values empties the
    stack whatever it did before; the others need the values that the tokens
    remove to be there.  An equation at [n] can replace tokens after a
    prefix that leaves at least [n] values, which the depth check of
    [Effect] decides. *)

From S2P Require Import Prelude GoInt GoStrconv GoStrings Stack Ops Eval Effect Depth.

Section Same.
Context `{IntSize} `{HostEnv}.

Definition same_at (n : nat) (vals1 vals2 : list string) : Prop :=
  ∀ st : lifo, (n ≤ length st)%nat →
    eval_loop opmap vals1 st = eval_loop opmap vals2 st.

(** ** The relation *)

#[global] Instance same_at_equivalence n : Equivalence (same_at n).
Proof.
  split; [by intros vals st | by intros vals1 vals2 E st ?; rewrite E |].
  intros vals1 vals2 vals3 E1 E2 st Hst. by rewrite E1, E2.
Qed.

Lemma same_at_mono n m vals1 vals2 :
  (n ≤ m)%nat → same_at n vals1 vals2 → same_at m vals1 vals2.
Proof. intros Hnm E st Hst. apply E. lia. Qed.

(** What follows the tokens does not matter. *)
Lemma same_at_app_r n vals1 vals2 post :
  same_at n vals1 vals2 → same_at n (vals1 ++ post) (vals2 ++ post).
Proof. intros E st Hst. rewrite !(eval_loop_app _ _ _ st). munfold. by rewrite E. Qed.

(** The depth check with more values below. *)
Lemma typed_weaken effs vals n m j :
  typed effs vals n m → typed effs vals (n + j) (m + j).
Proof.
  induction 1 as [n | val vals n m Hle Hv IH]; [constructor|].
  constructor; [lia|]. replace (n + j - _ + _)%nat with (n - (token_effect effs val).1 +
    (token_effect effs val).2 + j)%nat by lia. done.
Qed.

(** What comes before the tokens has to leave the values they need. *)
Lemma same_at_app_l n k m pre vals1 vals2 :
  typed effects pre k m → (n ≤ m)%nat →
  same_at n vals1 vals2 → same_at k (pre ++ vals1) (pre ++ vals2).
Proof.
  intros Hpre Hnm E st Hst. rewrite !(eval_loop_app _ _ _ st). munfold.
  destruct (eval_loop opmap pre st) as [st1 [[]|p]] eqn:E1; [|done].
  apply E. apply (eval_loop_Done_typed opmap effects opmap_declared) in E1.
  apply (typed_weaken _ _ _ _ (length st - k)) in Hpre.
  replace (k + (length st - k))%nat with (length st) in Hpre by lia.
  pose proof (typed_functional _ _ _ _ _ E1 Hpre). lia.
Qed.

(** ** The equations *)

(** The loop over the tokens, as the operators and [Push]. *)
Ltac run_tokens :=
  cbn [eval_loop];
  repeat first [ erewrite eval_token_op by done
               | rewrite eval_token_literal by done ];
  munfold.

(** The operators on a stack whose top values are known. *)
Ltac run_specs :=
  repeat (progress
    (rewrite ?(swap_lifo _), ?(dup_lifo _), ?(plus_lifo _), ?(times_lifo _),
       ?(sub_lifo _), ?(ifelse_lifo _);
     cbn [swap_spec dup_spec plus_spec times_spec sub_spec ifelse_spec binop_spec
          Push lifo_Forth lifo_Push Mmodify])).

Ltac law_tac :=
  let st := fresh "st" in let Hst := fresh "Hst" in
  intros st Hst; run_tokens;
  destruct st as [|? [|? [|? st]]]; simpl in Hst; try lia; run_specs; try done.

Lemma atoi_0 : atoi "0" = 0.
Proof. by apply (atoi_Itoa 0), is_int_0. Qed.

Lemma atoi_1 : atoi "1" = 1.
Proof. apply (atoi_Itoa 1). destruct H as [bits [-> | ->]]; by compute. Qed.

Lemma atoi_2 : atoi "2" = 2.
Proof. apply (atoi_Itoa 2). destruct H as [bits [-> | ->]]; by compute. Qed.

Lemma int_add_double x : int_add x x = int_mul 2 x.
Proof. unfold int_add, int_mul. f_equal. lia. Qed.

Lemma int_sub_diag x : int_sub x x = int_mul 0 x.
Proof. unfold int_sub, int_mul. f_equal. lia. Qed.

Lemma swap_swap : same_at 2 ["swap"; "swap"] [].
Proof. law_tac. Qed.

Lemma swap_plus : same_at 0 ["swap"; "+"] ["+"].
Proof. law_tac; by rewrite int_add_comm. Qed.

Lemma swap_times : same_at 0 ["swap"; "*"] ["*"].
Proof. law_tac; by rewrite int_mul_comm. Qed.

Lemma dup_swap : same_at 0 ["dup"; "swap"] ["dup"].
Proof. law_tac. Qed.

Lemma dup_plus : same_at 0 ["dup"; "+"] ["2"; "*"].
Proof.
  law_tac; by rewrite atoi_2, int_add_double.
Qed.

Lemma dup_sub : same_at 0 ["dup"; "-"] ["0"; "*"].
Proof.
  law_tac; by rewrite atoi_0, int_sub_diag.
Qed.

(** "0 ifelse" drops the top of the stack, "1 ifelse" the value below it. *)
Lemma dup_drop : same_at 1 ["dup"; "0"; "ifelse"] [].
Proof. law_tac; by rewrite atoi_0. Qed.

Lemma swap_drop : same_at 0 ["swap"; "0"; "ifelse"] ["1"; "ifelse"].
Proof. law_tac; by rewrite atoi_0, atoi_1. Qed.

(** "0 +" writes a value as its numeral, and a numeral as itself. *)
Lemma plus_zero_idemp : same_at 0 ["0"; "+"; "0"; "+"] ["0"; "+"].
Proof.
  law_tac; rewrite atoi_0, atoi_Itoa by apply int_wrap_is_int;
    unfold int_add; by rewrite Z.add_0_l, int_wrap_idemp.
Qed.

End Same.

(** ** The equations in an input of [Eval] *)

Section EvalLaws.
Context `{IntSize} `{HostEnv} `{ForthLaws F}.

(** The loop over the text of a list of tokens. *)
Lemma eval_loop_Split_Join (ops : gmap string (forthop lifo)) vals :
  Forall (λ w, no_sep " " w) vals →
  eval_loop ops (Split (Join vals " ") " ") ≡ eval_loop ops vals.
Proof.
  intros Hv. destruct vals as [|w vals]; [|by rewrite Split_Join].
  intros st. simpl. by rewrite eval_token_empty.
Qed.

(** [Eval] on any stack, through its contents. *)
Lemma Eval_contents s (f : F) :
  prod_map contents id (Eval opmap s f) =
    prod_map id Eval_return (eval_body opmap s (contents f)).
Proof. apply (Eval_refines_body opmap s), eval_body_refines, opmap_refines. Qed.

(** C15: the equations of the operators hold inside an input.  When the
    tokens vals1 and vals2 end alike on every stack of at least n values,
    and the tokens pre, on a stack as deep as f, leave at least n values by
    the depth check, then Eval on the inputs "pre vals1 post" and
    "pre vals2 post" leaves the same contents of the stack and returns the
    same result, the same error or the same panic. *)
Theorem Eval_same_at n pre vals1 vals2 post m (f : F) :
  same_at n vals1 vals2 →
  typed effects pre (depth f) m → (n ≤ m)%nat →
  Forall (λ w, no_sep " " w) (pre ++ vals1 ++ post) →
  Forall (λ w, no_sep " " w) (pre ++ vals2 ++ post) →
  prod_map contents id (Eval opmap (Join (pre ++ vals1 ++ post) " ") f) =
  prod_map contents id (Eval opmap (Join (pre ++ vals2 ++ post) " ") f).
Proof.
  intros E Hpre Hnm Hv1 Hv2. rewrite !Eval_contents. f_equal.
  unfold eval_body. munfold.
  rewrite (eval_loop_Split_Join opmap _ Hv1 (contents f)),
    (eval_loop_Split_Join opmap _ Hv2 (contents f)).
  by rewrite (same_at_app_l n (depth f) m pre _ _ Hpre Hnm (same_at_app_r n _ _ post E))
    by (by rewrite depth_contents).
Qed.

End EvalLaws.

(** C25: equations between inputs.  On every stack: "swap +" is "+" and
    "swap *" is "*" (the operations commute, wrap-around and operands that
    are no numerals included), "dup swap" is "dup", "dup +" is "2 *",
    "dup -" is "0 *", "swap 0 ifelse" is "1 ifelse", and "0 +" twice is
    "0 +" once.  On a stack of two values "swap swap" does nothing, and on a
    stack of one value neither does "dup 0 ifelse". *)
Theorem operator_laws `{IntSize} `{HostEnv} :
  same_at 0 ["swap"; "+"] ["+"] ∧
  same_at 0 ["swap"; "*"] ["*"] ∧
  same_at 0 ["dup"; "swap"] ["dup"] ∧
  same_at 0 ["dup"; "+"] ["2"; "*"] ∧
  same_at 0 ["dup"; "-"] ["0"; "*"] ∧
  same_at 0 ["swap"; "0"; "ifelse"] ["1"; "ifelse"] ∧
  same_at 0 ["0"; "+"; "0"; "+"] ["0"; "+"] ∧
  same_at 2 ["swap"; "swap"] [] ∧
  same_at 1 ["dup"; "0"; "ifelse"] [].
Proof.
  split_and!; auto using swap_plus, swap_times, dup_swap, dup_plus, dup_sub,
    swap_drop, plus_zero_idemp, swap_swap, dup_drop.
Qed.

(** ** The theorems at concrete inputs *)

#[local] Existing Instance int64.
#[local] Existing Instance host_sb43.

(** "3 4 swap swap +" and "3 4 +" on a new stack. *)
Lemma Eval_same_at_witness :
  same_at 2 ["swap"; "swap"] [] ∧
  typed effects ["3"; "4"] (depth (New : forthstack)) 2 ∧ (2 ≤ 2)%nat ∧
  Forall (λ w, no_sep " " w) (["3"; "4"] ++ ["swap"; "swap"] ++ ["+"]) ∧
  Forall (λ w, no_sep " " w) (["3"; "4"] ++ [] ++ ["+"]) ∧
  prod_map contents id (Eval opmap (Join (["3"; "4"] ++ ["swap"; "swap"] ++ ["+"]) " ") New) =
  prod_map contents id (Eval opmap (Join (["3"; "4"] ++ [] ++ ["+"]) " ") New).
Proof.
  assert (Hpre : typed effects ["3"; "4"] (depth (New : forthstack)) 2)
    by (by apply check_typed).
  assert (Hv1 : Forall (λ w, no_sep " " w) (["3"; "4"] ++ ["swap"; "swap"] ++ ["+"]))
    by (by repeat constructor).
  assert (Hv2 : Forall (λ w, no_sep " " w) (["3"; "4"] ++ [] ++ ["+"]))
    by (by repeat constructor).
  split_and!; [apply swap_swap | done..|].
  exact (Eval_same_at 2 _ _ _ _ 2 New swap_swap Hpre (le_n 2) Hv1 Hv2).
Defined.
