(* ===== verification/Rpn.v ===== *)
(** * Rpn: what [Eval] computes on arithmetic expressions

    The inputs the package is used for are arithmetic expressions in postfix
    notation ("4095 4096 roundup").  This file gives such expressions a
    syntax ([expr]), a meaning on Go's [int] that does not mention the stack
    ([denote]), and their postfix text ([print]), and proves that [Eval] with
    the initial operator table returns the text of [denote e] on [print e],
    from any stack and leaving it as it was; and that it panics with the
    run-time error of a division by zero exactly when [denote e] does.

    The proof goes through the whole evaluator: [Split] cuts [print e] back
    into its tokens, a numeral names no operator and is pushed, each operator
    token runs its Go function on the two texts on top of the stack, and
    [Atoi] reads back what [Itoa] wrote. *)

From S2P Require Import Prelude GoInt GoStrconv GoStrings Stack Ops Eval.

(** ** Expressions *)

Inductive binop : Type := OpAdd | OpSub | OpMul | OpQuo | OpRem | OpRoundup.

Inductive expr : Type :=
  | Num (z : Z)
  | Bin (op : binop) (e1 e2 : expr)
  | IfElse (c e1 e2 : expr).

#[global] Instance binop_eq_dec : EqDecision binop.
Proof. solve_decision. Defined.

#[global] Instance expr_eq_dec : EqDecision expr.
Proof. solve_decision. Defined.

(** The name of each operation in the table [opmap]. *)
Definition binop_name (op : binop) : string :=
  match op with
  | OpAdd => "+"
  | OpSub => "-"
  | OpMul => "*"
  | OpQuo => "/"
  | OpRem => "%"
  | OpRoundup => "roundup"
  end.

(** Postfix: the operands in the order they are written, then the operator.
    [ifelse] takes its flag last: "e2 e1 c ifelse". *)
Fixpoint tokens (e : expr) : list string :=
  match e with
  | Num z => [Itoa z]
  | Bin op e1 e2 => tokens e1 ++ tokens e2 ++ [binop_name op]
  | IfElse c e1 e2 => tokens e2 ++ tokens e1 ++ tokens c ++ ["ifelse"]
  end.

Definition print (e : expr) : string := Join (tokens e) " ".

Section Denote.
Context `{IntSize}.

(** [y op x] on [int]: wrap-around on overflow, the run-time panic on a
    zero divisor. *)
Definition binop_denote (op : binop) (y x : Z) : outcome Z :=
  match op with
  | OpAdd => Done (int_add y x)
  | OpSub => Done (int_sub y x)
  | OpMul => Done (int_mul y x)
  | OpQuo => int_quo y x
  | OpRem => int_rem y x
  | OpRoundup => q ← int_quo (int_sub (int_add y x) 1) x; Done (int_mul q x)
  end.

(** The value of an expression.  Every operand is computed, the branch of
    an [IfElse] that is not chosen included. *)
Fixpoint denote (e : expr) : outcome Z :=
  match e with
  | Num z => Done z
  | Bin op e1 e2 => y ← denote e1; x ← denote e2; binop_denote op y x
  | IfElse c e1 e2 =>
    z ← denote e2; y ← denote e1; x ← denote c;
    Done (if decide (x ≠ 0) then y else z)
  end.

(** The numerals of a well-formed expression are values of [int]. *)
Fixpoint wf (e : expr) : Prop :=
  match e with
  | Num z => is_int z
  | Bin _ e1 e2 => wf e1 ∧ wf e2
  | IfElse c e1 e2 => wf c ∧ wf e1 ∧ wf e2
  end.

#[global] Instance wf_dec e : Decision (wf e).
Proof. induction e; simpl; apply _. Defined.

(** The exact value, on the integers: what the expression means when no
    operation overflows. *)
Definition binop_value (op : binop) (y x : Z) : Z :=
  match op with
  | OpAdd => y + x
  | OpSub => y - x
  | OpMul => y * x
  | OpQuo => y ÷ x
  | OpRem => y `rem` x
  | OpRoundup => ((y + x - 1) ÷ x) * x
  end.

Fixpoint value (e : expr) : Z :=
  match e with
  | Num z => z
  | Bin op e1 e2 => binop_value op (value e1) (value e2)
  | IfElse c e1 e2 => if decide (value c ≠ 0) then value e1 else value e2
  end.

(** [binop_exact op y x]: [y op x] is defined and nothing overflows on the
    way to it. *)
Definition binop_exact (op : binop) (y x : Z) : Prop :=
  match op with
  | OpAdd | OpSub | OpMul => is_int (binop_value op y x)
  | OpQuo => x ≠ 0 ∧ ¬ (y = MinInt ∧ x = -1)
  | OpRem => x ≠ 0
  | OpRoundup => 0 ≤ y ∧ 0 < x ∧ y + x - 1 ≤ MaxInt
  end.

Fixpoint exact (e : expr) : Prop :=
  match e with
  | Num z => is_int z
  | Bin op e1 e2 => exact e1 ∧ exact e2 ∧ binop_exact op (value e1) (value e2)
  | IfElse c e1 e2 => exact c ∧ exact e1 ∧ exact e2
  end.

End Denote.

(** ** The value of an expression *)

Section DenoteLemmas.
Context `{IntSize}.

Lemma binop_denote_is_int op y x z :
  is_int y → binop_denote op y x = Done z → is_int z.
Proof.
  destruct op; simpl; intros Hy Hz; simplify_eq; eauto with forth.
  - by eapply int_quo_is_int.
  - by eapply int_rem_is_int.
  - destruct (int_quo _ x); simplify_eq/=. eauto with forth.
Qed.

Lemma denote_is_int e z : wf e → denote e = Done z → is_int z.
Proof.
  revert z.
  induction e as [z'|op e1 IH1 e2 IH2|c IHc e1 IH1 e2 IH2]; simpl; intros z Hwf Hz.
  - by simplify_eq.
  - destruct Hwf as [H1 H2].
    destruct (denote e1) as [y|]; [|done]. destruct (denote e2) as [x|]; [|done].
    eapply binop_denote_is_int; [|done]. by apply IH1.
  - destruct Hwf as (Hc & H1 & H2).
    destruct (denote e2) as [vz|]; [|done]. destruct (denote e1) as [vy|]; [|done].
    destruct (denote c) as [vx|]; [|done]. simplify_eq/=. case_decide; eauto.
Qed.

(** The only panic of an expression is that of a division by zero. *)
Lemma binop_denote_panics op y x p :
  binop_denote op y x = Panicked p → p = PanicRuntime DivideByZero.
Proof.
  destruct op; simpl; try done.
  - by intros [_ ->]%int_quo_panics.
  - by intros [_ ->]%int_rem_panics.
  - destruct (int_quo _ x) eqn:Hq; [done|]. apply int_quo_panics in Hq as [_ ->].
    by intros [= <-].
Qed.

Lemma denote_panics e p : denote e = Panicked p → p = PanicRuntime DivideByZero.
Proof.
  induction e as [z'|op e1 IH1 e2 IH2|c IHc e1 IH1 e2 IH2]; simpl; [done|..].
  - destruct (denote e1) as [y|]; [|by intros [= <-]; apply IH1].
    destruct (denote e2) as [x|]; [|by intros [= <-]; apply IH2].
    apply binop_denote_panics.
  - destruct (denote e2) as [vz|]; [|by intros [= <-]; apply IH2].
    destruct (denote e1) as [vy|]; [|by intros [= <-]; apply IH1].
    destruct (denote c) as [vx|]; [done | by intros [= <-]; apply IHc].
Qed.

Lemma binop_denote_exact op y x :
  is_int y → is_int x → binop_exact op y x →
  binop_denote op y x = Done (binop_value op y x).
Proof.
  destruct op; simpl; intros Hy Hx Hex.
  - by rewrite int_add_exact.
  - by rewrite int_sub_exact.
  - by rewrite int_mul_exact.
  - destruct Hex. by apply int_quo_exact.
  - unfold int_rem. by rewrite decide_False.
  - destruct Hex as (? & ? & ?).
    destruct (int_roundup_quot y x) as (Hq & Hm & _); [done..|].
    rewrite Hq. simpl. by rewrite Hm.
Qed.

Lemma exact_wf e : exact e → wf e.
Proof. induction e; simpl; tauto. Qed.

(** Without overflow and division by zero, the value on [int] is the exact
    value. *)
Lemma denote_exact e : exact e → denote e = Done (value e).
Proof.
  induction e as [z'|op e1 IH1 e2 IH2|c IHc e1 IH1 e2 IH2]; simpl; [done|..].
  - intros (H1 & H2 & Hop). rewrite IH1, IH2 by done. simpl.
    apply binop_denote_exact;
      [apply (denote_is_int e1) | apply (denote_is_int e2) | done];
      auto using exact_wf.
  - intros (Hc & H1 & H2). by rewrite IH2, IH1, IHc.
Qed.

End DenoteLemmas.

(** ** The text of an expression and its tokens *)

Lemma binop_name_no_sep op : no_sep " " (binop_name op).
Proof. by destruct op. Qed.

Lemma tokens_nonempty e : tokens e ≠ [].
Proof.
  intros Hnil%(f_equal length).
  destruct e; simpl in Hnil; rewrite ?length_app in Hnil; simpl in Hnil; lia.
Qed.

Lemma tokens_no_sep e : Forall (λ w, no_sep " " w) (tokens e).
Proof.
  induction e as [z|op e1 IH1 e2 IH2|c IHc e1 IH1 e2 IH2]; simpl;
    rewrite ?Forall_app, ?Forall_singleton; split_and?; try done.
  - apply Itoa_no_space.
  - apply binop_name_no_sep.
Qed.

(** [Split] cuts the text of an expression back into its tokens. *)
Lemma Split_print e : Split (print e) " " = tokens e.
Proof. apply Split_Join; [apply tokens_nonempty | apply tokens_no_sep]. Qed.

(** ** The loop over the tokens of an expression, on the abstract stack *)

Section Tokens.
Context `{IntSize} `{HostEnv}.

(** The Go function that the table has under the name of an operation. *)
Definition binop_fn (op : binop) : M lifo unit :=
  match op with
  | OpAdd => plus
  | OpSub => sub
  | OpMul => times
  | OpQuo => div
  | OpRem => mod_
  | OpRoundup => roundup
  end.

Lemma opmap_binop op : opmap !! binop_name op = Some (Some (binop_fn op)).
Proof. by destruct op. Qed.

Lemma binop_fn_lifo op :
  binop_fn op ≡ binop_spec (λ x y, binop_denote op y x).
Proof.
  destruct op; intros [|sx [|sy st]]; try done; simpl.
  - unfold plus. mstep. by rewrite int_add_comm.
  - unfold times. mstep. by rewrite int_mul_comm.
  - rewrite (roundup_lifo _). unfold roundup_spec. simpl.
    by destruct (int_quo _ (atoi sx)).
Qed.

(** [pushes o st r]: the run [r] from the stack [st] has pushed the numeral
    of the value [o], or panicked as [o] does, some texts left on [st]. *)
Definition pushes (o : outcome Z) (st : lifo) (r : lifo * outcome unit) : Prop :=
  match o with
  | Done z => r = (Itoa z :: st, Done tt)
  | Panicked p => ∃ junk, r = (junk ++ st, Panicked p)
  end.

Lemma eval_loop_Num z st :
  eval_loop opmap [Itoa z] st = (Itoa z :: st, Done tt).
Proof.
  simpl. rewrite eval_token_literal; [done | ..];
    auto using Itoa_nonempty, Itoa_not_space, opmap_Itoa.
Qed.

Lemma eval_loop_binop op x y st :
  is_int x → is_int y →
  pushes (binop_denote op y x) st
    (eval_loop opmap [binop_name op] (Itoa x :: Itoa y :: st)).
Proof.
  intros Hx Hy.
  rewrite (eval_loop_single opmap _ (binop_fn op)), (binop_fn_lifo op _);
    [|by destruct op..|apply opmap_binop].
  unfold binop_spec. rewrite !atoi_Itoa by done.
  destruct (binop_denote op y x); [done | by exists []].
Qed.

Lemma eval_loop_ifelse x y z st :
  is_int x →
  eval_loop opmap ["ifelse"] (Itoa x :: Itoa y :: Itoa z :: st) =
    (Itoa (if decide (x ≠ 0) then y else z) :: st, Done tt).
Proof.
  intros Hx. rewrite (eval_loop_single opmap _ ifelse), (ifelse_lifo _) by done.
  unfold ifelse_spec. rewrite atoi_Itoa by done. by case_decide.
Qed.

(** A panic of an operand, evaluated on top of the texts [w] of the
    operands before it, ends the loop with [w] left on the stack. *)
Lemma pushes_panic p w vals1 vals2 st :
  pushes (Panicked p) (w ++ st) (eval_loop opmap vals1 (w ++ st)) →
  pushes (Panicked p) st (eval_loop opmap (vals1 ++ vals2) (w ++ st)).
Proof.
  intros [junk Hp]. exists (junk ++ w). rewrite <- app_assoc.
  by apply eval_loop_panic.
Qed.

(** The loop over the tokens of [e] pushes the numeral of [denote e]. *)
Lemma eval_loop_tokens e st :
  wf e → pushes (denote e) st (eval_loop opmap (tokens e) st).
Proof.
  revert st.
  induction e as [z|op e1 IH1 e2 IH2|c IHc e1 IH1 e2 IH2]; simpl; intros st Hwf.
  - apply eval_loop_Num.
  - destruct Hwf as [Hwf1 Hwf2]. specialize (IH1 st Hwf1).
    pose proof (denote_is_int e1) as Hy. pose proof (denote_is_int e2) as Hx.
    destruct (denote e1) as [y|p]; [|by apply (pushes_panic p [])].
    specialize (IH2 (Itoa y :: st) Hwf2). rewrite (eval_loop_seq _ _ _ _ _ IH1).
    destruct (denote e2) as [x|p]; [|by apply (pushes_panic p [Itoa y])].
    rewrite (eval_loop_seq _ _ _ _ _ IH2). apply eval_loop_binop; auto.
  - destruct Hwf as (Hwfc & Hwf1 & Hwf2). specialize (IH2 st Hwf2).
    pose proof (denote_is_int c) as Hx.
    destruct (denote e2) as [z|p]; [|by apply (pushes_panic p [])].
    specialize (IH1 (Itoa z :: st) Hwf1). rewrite (eval_loop_seq _ _ _ _ _ IH2).
    destruct (denote e1) as [y|p]; [|by apply (pushes_panic p [Itoa z])].
    specialize (IHc (Itoa y :: Itoa z :: st) Hwfc).
    rewrite (eval_loop_seq _ _ _ _ _ IH1).
    destruct (denote c) as [x|p]; [|by apply (pushes_panic p [Itoa y; Itoa z])].
    rewrite (eval_loop_seq _ _ _ _ _ IHc). apply eval_loop_ifelse. auto.
Qed.

(** The body of [Eval] on the text of [e]: the numeral is popped again. *)
Lemma eval_body_print e (st : lifo) :
  wf e →
  match denote e with
  | Done z => eval_body opmap (print e) st = (st, Done (Itoa z))
  | Panicked p => ∃ junk, eval_body opmap (print e) st = (junk ++ st, Panicked p)
  end.
Proof.
  intros Hwf. unfold eval_body. rewrite Split_print. munfold.
  pose proof (eval_loop_tokens e st Hwf) as Hl.
  destruct (denote e) as [z|p]; [by rewrite Hl|].
  destruct Hl as [junk ->]. by exists junk.
Qed.

End Tokens.

(** ** [Eval] on the text of an expression *)

Section Correct.
Context `{IntSize} `{HostEnv} `{ForthLaws F}.

(** [Eval] over [F] on an input, from the body on the abstract stack. *)
Lemma Eval_body_run s f st o :
  eval_body opmap s (contents f) = (st, o) →
  ∃ f', Eval opmap s f = (f', Eval_return o) ∧ contents f' = st.
Proof.
  intros Hb.
  destruct (refines_run contents (eval_body opmap s) _ f st o
    (eval_body_refines opmap opmap _ opmap_refines) Hb) as (f' & Hf & Hst).
  exists f'. by rewrite Eval_unfold, Hf.
Qed.

(** [Eval] computes arithmetic expressions.  On the postfix text
    of an expression [e] whose numerals are values of [int], from any stack,
    when the value [denote e] of [e] on [int] is [z], [Eval] returns the
    decimal text of [z] and no error, and leaves the stack with the contents
    it had. *)
Theorem Eval_print_value e z f :
  wf e → denote e = Done z →
  ∃ f', Eval opmap (print e) f = (f', Done (Itoa z, None)) ∧
        contents f' = contents f.
Proof.
  intros Hwf Hz. pose proof (eval_body_print e (contents f) Hwf) as Hb.
  rewrite Hz in Hb. by apply (Eval_body_run (print e) f _ _ Hb).
Qed.

(** A division by zero inside an expression crashes [Eval].  When
    [denote e] panics (some divisor of [e] is 0) [Eval] returns nothing: it
    panics with the run-time error of the division, and the texts of the
    operands evaluated so far are left on top of the stack. *)
Theorem Eval_print_div_by_zero e p f :
  wf e → denote e = Panicked p →
  ∃ f' junk, Eval opmap (print e) f = (f', Panicked (PanicRuntime DivideByZero)) ∧
             contents f' = junk ++ contents f.
Proof.
  intros Hwf Hp. pose proof (eval_body_print e (contents f) Hwf) as Hb.
  rewrite Hp in Hb. destruct Hb as [junk Hb].
  destruct (Eval_body_run (print e) f _ _ Hb) as (f' & Hf & Hst).
  apply denote_panics in Hp as ->. by exists f', junk.
Qed.

(** C31: without overflow, [Eval] is exact.  When no operation of [e]
    overflows and no divisor is 0, [Eval] returns the decimal text of the
    value of [e] on the integers. *)
Theorem Eval_print_exact e f :
  exact e →
  ∃ f', Eval opmap (print e) f = (f', Done (Itoa (value e), None)) ∧
        contents f' = contents f.
Proof.
  intros Hex. pose proof (eval_body_print e (contents f) (exact_wf e Hex)) as Hb.
  rewrite (denote_exact e Hex) in Hb. by apply (Eval_body_run (print e) f _ _ Hb).
Qed.

End Correct.

(** ** The properties at concrete inputs: 64-bit [int], the slice
    implementation *)

#[local] Existing Instance int64.
#[local] Existing Instance host_sb43.

(** "4097 8192 roundup 2 /" *)
Definition example_expr : expr :=
  Bin OpQuo (Bin OpRoundup (Num 4097) (Num 8192)) (Num 2).

(** "7 0 /" *)
Definition example_div0 : expr := Bin OpQuo (Num 7) (Num 0).

Lemma Eval_print_value_witness :
  wf example_expr ∧ denote example_expr = Done 4096 ∧
  print example_expr = "4097 8192 roundup 2 /" ∧
  ∃ f', Eval opmap "4097 8192 roundup 2 /" New = (f', Done ("4096", None)) ∧
        contents f' = contents New.
Proof.
  assert (Hwf : wf example_expr) by (apply (bool_decide_unpack _); by vm_compute).
  assert (Hz : denote example_expr = Done 4096) by reflexivity.
  refine (conj Hwf (conj Hz (conj eq_refl _))).
  exact (Eval_print_value example_expr 4096 New Hwf Hz).
Defined.

Lemma Eval_print_div_by_zero_witness :
  wf example_div0 ∧ denote example_div0 = Panicked (PanicRuntime DivideByZero) ∧
  ∃ f' junk, Eval opmap "7 0 /" New = (f', Panicked (PanicRuntime DivideByZero)) ∧
             contents f' = junk ++ contents New.
Proof.
  assert (Hwf : wf example_div0) by (apply (bool_decide_unpack _); by vm_compute).
  assert (Hp : denote example_div0 = Panicked (PanicRuntime DivideByZero))
    by reflexivity.
  refine (conj Hwf (conj Hp _)).
  exact (Eval_print_div_by_zero example_div0 _ New Hwf Hp).
Defined.

Lemma Eval_print_exact_witness :
  exact example_expr ∧ value example_expr = 4096 ∧
  ∃ f', Eval opmap "4097 8192 roundup 2 /" New = (f', Done ("4096", None)) ∧
        contents f' = contents New.
Proof.
  assert (Hex : exact example_expr).
  { pose proof MaxInt_ge_32. pose proof MinInt_le_32.
    repeat split; simpl; try apply is_int_small; lia. }
  refine (conj Hex (conj eq_refl _)).
  exact (Eval_print_exact example_expr New Hex).
Defined.
