(* ===== verification/Parse.v ===== *)
(** * Parse: reading an input back as an arithmetic expression

    [Rpn.print] writes an expression as the input of [Eval].  This file
    reads inputs back: [parse] runs the loop of [Eval] on a stack of
    expressions instead of a stack of texts (an empty token is skipped, the
    name of an arithmetic operator or of [ifelse] takes its operands from the
    stack, the numeral that [Itoa] writes for some [int] is a leaf), and
    succeeds when one expression is left.  [parse] and [print] are inverse to
    each other up to the spaces of the input, and on every input that
    [parse] reads, [Eval] with the built-in table returns the text of the
    value of the expression read: [Rpn.Eval_print_value] for the inputs as
    they come, with leading, trailing and repeated spaces.  Every such input
    passes the depth check of [Effect], leaving one value more than it
    found. *)

From S2P Require Import Prelude GoInt GoStrconv GoStrings Stack Ops Eval.
From S2P Require Import Effect Depth Rpn.

(** The operation a token names, if any. *)
Definition binop_of (val : string) : option binop :=
  if decide (val = "+") then Some OpAdd
  else if decide (val = "-") then Some OpSub
  else if decide (val = "*") then Some OpMul
  else if decide (val = "/") then Some OpQuo
  else if decide (val = "%") then Some OpRem
  else if decide (val = "roundup") then Some OpRoundup
  else None.

Section Parse.
Context `{IntSize}.

(** The [int] a token is the numeral of: the text [Itoa] writes for it, and
    no other ("007" and "+7" read as 7 with [Atoi] and are not numerals). *)
Definition numeral (val : string) : option Z :=
  if decide (Itoa (atoi val) = val) then Some (atoi val) else None.

(** The loop over the tokens, on a stack of expressions with its top at the
    head. *)
Fixpoint parse_loop (vals : list string) (stk : list expr) : option (list expr) :=
  match vals with
  | [] => Some stk
  | val :: vals' =>
    if decide (val = "") then parse_loop vals' stk
    else
      match binop_of val with
      | Some op =>
        match stk with
        | e2 :: e1 :: stk' => parse_loop vals' (Bin op e1 e2 :: stk')
        | _ => None
        end
      | None =>
        if decide (val = "ifelse") then
          match stk with
          | c :: e1 :: e2 :: stk' => parse_loop vals' (IfElse c e1 e2 :: stk')
          | _ => None
          end
        else
          match numeral val with
          | Some z => parse_loop vals' (Num z :: stk)
          | None => None
          end
      end
  end.

(** An input reads as [e] when the loop over its tokens leaves [e] alone. *)
Definition parse (s : string) : option expr :=
  match parse_loop (Split s " ") [] with
  | Some [e] => Some e
  | _ => None
  end.

(** The tokens of a stack of expressions, from its bottom to its top. *)
Definition flat (stk : list expr) : list string :=
  concat (tokens <$> reverse stk).

(** ** Tokens *)

Lemma binop_of_name op : binop_of (binop_name op) = Some op.
Proof. by destruct op. Qed.

Lemma binop_of_Some val op : binop_of val = Some op → val = binop_name op.
Proof. unfold binop_of. repeat case_decide; by intros [= <-]. Qed.

(** A text of digits and minus signs other than "-" is no name. *)
Lemma numeral_chars_no_name val :
  string_forallb is_numeral_char val → val ≠ "-" →
  binop_of val = None ∧ val ≠ "ifelse".
Proof.
  intros Hc Hd. unfold binop_of.
  repeat case_decide; subst; (done || by split; [|intros ->]).
Qed.

Lemma numeral_Itoa z : is_int z → numeral (Itoa z) = Some z.
Proof. intros Hz. unfold numeral. by rewrite atoi_Itoa, decide_True. Qed.

Lemma numeral_Some val z : numeral val = Some z → val = Itoa z ∧ is_int z.
Proof.
  unfold numeral. case_decide as Hv; [|done]. intros [= <-].
  split; [done | apply atoi_is_int].
Qed.

Lemma flat_cons e stk : flat (e :: stk) = flat stk ++ tokens e.
Proof.
  unfold flat. rewrite reverse_cons, fmap_app, concat_app. simpl.
  by rewrite app_nil_r.
Qed.

(** ** [print], then [parse] *)

(** The loop over the tokens of an expression pushes the expression. *)
Lemma parse_loop_tokens e vals stk :
  wf e → parse_loop (tokens e ++ vals) stk = parse_loop vals (e :: stk).
Proof.
  revert vals stk.
  induction e as [z|op e1 IH1 e2 IH2|c IHc e1 IH1 e2 IH2]; intros vals stk Hwf;
    simpl in *.
  - destruct (numeral_chars_no_name (Itoa z)) as [Hop Hif];
      [apply Itoa_chars | apply Itoa_not_dash |].
    rewrite decide_False by apply Itoa_nonempty.
    by rewrite Hop, decide_False, numeral_Itoa.
  - destruct Hwf as [Hwf1 Hwf2]. rewrite <- !app_assoc, IH1, IH2 by done.
    simpl. rewrite decide_False by by destruct op. by rewrite binop_of_name.
  - destruct Hwf as (Hwfc & Hwf1 & Hwf2).
    rewrite <- !app_assoc, IH2, IH1, IHc by done. done.
Qed.

(** ** [parse], then [print] *)

(** What the loop has read is what it was given, empty tokens apart, and
    its numerals are values of [int]. *)
Lemma parse_loop_flat vals stk stk' :
  parse_loop vals stk = Some stk' →
  flat stk ++ filter (λ val, val ≠ "") vals = flat stk' ∧
  (Forall wf stk → Forall wf stk').
Proof.
  revert stk. induction vals as [|val vals IH]; intros stk; simpl.
  - intros [= <-]. by rewrite app_nil_r.
  - case_decide as Hval;
      [subst val; rewrite filter_cons_False by (intros Hn; by apply Hn); apply IH|].
    rewrite filter_cons_True by done.
    destruct (binop_of val) as [op|] eqn:Hop;
      [|case_decide as Hif; [|destruct (numeral val) as [z|] eqn:Hz; [|done]]].
    + apply binop_of_Some in Hop as ->.
      destruct stk as [|e2 [|e1 stk]]; [done..|]. intros [<- Hwf]%IH.
      rewrite !flat_cons. simpl. rewrite <- !app_assoc. split; [done|].
      intros Hs. apply Hwf. decompose_Forall_hyps. by repeat constructor.
    + subst val. destruct stk as [|c [|e1 [|e2 stk]]]; [done..|].
      intros [<- Hwf]%IH. rewrite !flat_cons. simpl. rewrite <- !app_assoc.
      split; [done|].
      intros Hs. apply Hwf. decompose_Forall_hyps. by repeat constructor.
    + apply numeral_Some in Hz as [-> Hz]. intros [<- Hwf]%IH.
      rewrite flat_cons. simpl. rewrite <- app_assoc. split; [done|].
      intros Hs. apply Hwf. by constructor.
Qed.

(** An input that reads as [e] is the text of [e] with more spaces: its
    non-empty tokens are the tokens of [e], whose numerals are values of
    [int]. *)
Lemma parse_sound s e :
  parse s = Some e →
  filter (λ val, val ≠ "") (Split s " ") = tokens e ∧ wf e.
Proof.
  unfold parse.
  destruct (parse_loop (Split s " ") []) as [[|e' [|? ?]]|] eqn:E; try done.
  intros [= ->]. apply parse_loop_flat in E as [E Hwf].
  rewrite flat_cons in E. split; [done|].
  by apply (Forall_inv (Hwf (Forall_nil_2 _))).
Qed.

End Parse.

(** ** The theorems *)

Section Correct.
Context `{IntSize} `{HostEnv} `{ForthLaws F}.

(** On the abstract stack, the body of [Eval] on an input that reads as [e]
    is its body on the text of [e]. *)
Lemma eval_body_parse s e (st : lifo) :
  parse s = Some e →
  eval_body (F := lifo) opmap s st = eval_body (F := lifo) opmap (print e) st.
Proof.
  intros [Hs _]%parse_sound. unfold eval_body. munfold.
  by rewrite Split_print, <- Hs, (eval_loop_filter opmap (Split s " ") st).
Qed.

(** Print, then parse.  The postfix text of an expression whose
    numerals are values of int reads back as that expression: no numeral is
    taken for an operator (a negative one starts with the name of sub), no
    operator for a numeral, and the operands come back in their order. *)
Theorem parse_print e : wf e → parse (print e) = Some e.
Proof.
  intros Hwf. unfold parse.
  by rewrite Split_print, <- (app_nil_r (tokens e)), parse_loop_tokens.
Qed.

(** C4: Eval computes every arithmetic input.  On an input that reads as
    the expression e, with any leading, trailing or repeated spaces, from
    any stack: when the value of e on int is z, Eval with the built-in table
    returns the decimal text of z and no error and leaves the stack with
    the contents it had; when a divisor of e is 0, Eval panics with the
    run-time error of the division, and what the stack held is still
    there, below whatever the evaluation had pushed by then. *)
Theorem Eval_parse s e f :
  parse s = Some e →
  match denote e with
  | Done z =>
    ∃ f', Eval opmap s f = (f', Done (Itoa z, None)) ∧ contents f' = contents f
  | Panicked _ =>
    ∃ f' junk, Eval opmap s f = (f', Panicked (PanicRuntime DivideByZero)) ∧
               contents f' = junk ++ contents f
  end.
Proof.
  intros Hs. pose proof (eval_body_parse s e (contents f) Hs) as Hb.
  apply parse_sound in Hs as [_ Hwf].
  pose proof (eval_body_print e (contents f) Hwf) as Hp.
  destruct (denote e) as [z|p] eqn:Hd.
  - rewrite <- Hb in Hp. by apply (Eval_body_run s f _ _ Hp).
  - destruct Hp as [junk Hp]. rewrite <- Hb in Hp.
    destruct (Eval_body_run s f _ _ Hp) as (f' & Hf & Hst).
    apply denote_panics in Hd as ->. by exists f', junk.
Qed.

End Correct.

(** ** Expressions and the depth check *)

Section Checked.
Context `{IntSize} `{HostEnv}.

Lemma token_effect_Itoa z : token_effect effects (Itoa z) = (0, 1)%nat.
Proof.
  unfold token_effect. rewrite decide_False.
  - pose proof (opmap_declared (Itoa z)) as Hd.
    rewrite opmap_Itoa in Hd. by rewrite Hd.
  - intros [Hl | Hs]; [|by apply Itoa_not_space in Hs].
    apply (Itoa_nonempty z). by destruct (Itoa z).
Qed.

Lemma token_effect_binop op : token_effect effects (binop_name op) = (2, 1)%nat.
Proof. by destruct op. Qed.

Lemma typed_one effs val n m i o :
  token_effect effs val = (i, o) → (i ≤ n)%nat → m = (n - i + o)%nat →
  typed effs [val] n m.
Proof.
  intros He Hi ->. constructor; rewrite He; [done|]. constructor.
Qed.

(** The empty tokens that spaces give count for nothing. *)
Lemma typed_filter effs vals n m :
  typed effs (filter (λ val, val ≠ "") vals) n m ↔ typed effs vals n m.
Proof.
  revert n. induction vals as [|val vals IH]; intros n; [done|].
  destruct (decide (val = "")) as [-> | Hval].
  - rewrite filter_cons_False by (by intros ?). rewrite IH. split.
    + intros Hv. constructor; [simpl; lia|]. simpl. by rewrite Nat.sub_0_r, Nat.add_0_r.
    + inversion 1 as [|???? _ Hv]; subst. simpl in Hv.
      by rewrite Nat.sub_0_r, Nat.add_0_r in Hv.
  - rewrite filter_cons_True by done. split; inversion 1; subst;
      (constructor; [done|]); by apply IH.
Qed.

(** The tokens of an expression find their operands and leave one value. *)
Lemma tokens_typed e n : typed effects (tokens e) n (S n).
Proof.
  revert n. induction e as [z | op e1 IH1 e2 IH2 | c IHc e1 IH1 e2 IH2];
    intros n; simpl.
  - apply (typed_one _ _ _ _ 0 1); [apply token_effect_Itoa | lia..].
  - apply typed_app. exists (S n). split; [done|].
    apply typed_app. exists (S (S n)). split; [done|].
    apply (typed_one _ _ _ _ 2 1); [apply token_effect_binop | lia..].
  - apply typed_app. exists (S n). split; [done|].
    apply typed_app. exists (S (S n)). split; [done|].
    apply typed_app. exists (S (S (S n))). split; [done|].
    apply (typed_one _ _ _ _ 3 1); [done | lia..].
Qed.

(** Every input that reads as an expression passes the depth check: on a
    stack of any depth its tokens find their operands and leave one value
    more, the result that [Eval] pops. *)
Theorem parse_typed s e n :
  parse s = Some e → typed effects (Split s " ") n (S n).
Proof.
  intros [Hs _]%parse_sound. apply typed_filter. rewrite Hs. apply tokens_typed.
Qed.

End Checked.

(** ** The theorems at concrete inputs *)

#[local] Existing Instance int64.
#[local] Existing Instance host_sb43.

Lemma parse_print_witness :
  wf (Bin OpSub (Num 4) (Num (-2))) ∧
  parse (print (Bin OpSub (Num 4) (Num (-2)))) = Some (Bin OpSub (Num 4) (Num (-2))).
Proof.
  assert (Hwf : wf (Bin OpSub (Num 4) (Num (-2))))
    by (split; apply is_int_small; lia).
  split; [done|]. exact (parse_print _ Hwf).
Defined.

(** An input with spaces to spare. *)
Lemma Eval_parse_witness :
  parse "  4095  4096 roundup " = Some (Bin OpRoundup (Num 4095) (Num 4096)) ∧
  match denote (Bin OpRoundup (Num 4095) (Num 4096)) with
  | Done z =>
    ∃ f', Eval opmap "  4095  4096 roundup " New = (f', Done (Itoa z, None)) ∧
          contents f' = contents New
  | Panicked _ =>
    ∃ f' junk,
      Eval opmap "  4095  4096 roundup " New =
        (f', Panicked (PanicRuntime DivideByZero)) ∧
      contents f' = junk ++ contents New
  end.
Proof.
  assert (Hs : parse "  4095  4096 roundup " =
                 Some (Bin OpRoundup (Num 4095) (Num 4096))) by by vm_compute.
  split; [done|]. exact (Eval_parse _ _ New Hs).
Defined.
