(* ===== verification/Tests.v ===== *)
(** * Tests: the test table and [TestForth] (src/file_test.go)

    The package's test: a table of inputs with the result or the error
    expected, and a function that checks a new stack ([Length], [Empty],
    [Push], [Reset]), then evaluates every entry on that one stack, and
    checks after each evaluation that the stack is empty.  A check that fails
    calls [t.Errorf], which records the failure and goes on; the model counts
    those calls.  [fmt.Printf] is output only and is left out.

    The theorems: on a host whose name can be read, with a 32-bit or a 64-bit
    [int], no check fails; on a host whose name cannot be read the test does
    not fail a check but crashes, at its first entry; and, for every entry
    one could add to the table, the checks of the stack after it fail
    exactly when the evaluation returned a result for an input that leaves
    more than that result on the stack ([Effect.typed]). *)

From S2P Require Import Prelude GoInt GoStrconv GoStrings Stack Ops Eval Effect Depth.

(** [type forthTest struct] *)
Record forthTest : Type := { val : string; res : string; err : string }.

(** [var forthTests = []forthTest{ ... }] *)
Definition forthTests : list forthTest :=
  [ {| val := "hostname"; res := ""; err := "" |};
    {| val := "2"; res := "2"; err := "" |};
    {| val := ""; res := "2"; err := "Empty stack" |};
    {| val := "2 2 +"; res := "4"; err := "" |};
    {| val := "4 2 -"; res := "2"; err := "" |};
    {| val := "4 2 *"; res := "8"; err := "" |};
    {| val := "4 2 /"; res := "2"; err := "" |};
    {| val := "5 2 %"; res := "1"; err := "" |};
    {| val := "sb43 hostbase"; res := "43"; err := "" |};
    {| val := "2 4 swap /"; res := "2"; err := "" |};
    {| val := "0 1 1 ifelse"; res := "1"; err := "" |};
    {| val := "0 1 0 ifelse"; res := "0"; err := "" |};
    {| val := "str cat strcat"; res := "strcat"; err := "" |};
    {| val := "1 dup +"; res := "2"; err := "" |};
    {| val := "4095 4096 roundup"; res := "4096"; err := "" |};
    {| val := "4097 8192 roundup"; res := "8192"; err := "" |} ].

Section Tests.
Context `{IntSize} `{HostEnv}.

(** [t.Errorf] under a condition: one more failure when it holds. *)
Definition Errorf_if (P : Prop) `{Decision P} : nat := if decide P then 1 else 0.

(** The condition under which an entry passes:
    [res == tt.res || (err != nil && err.String() == tt.err)]. *)
Definition passes (t : forthTest) (r : string) (e : option os_Error) : bool :=
  bool_decide (r = res t) ||
  match e with
  | Some msg => bool_decide (msg = err t)
  | None => false
  end.

(** The body of the loop over the table: evaluate, compare, and check that
    the stack is empty. *)
Definition run_test (t : forthTest) : M forthstack nat :=
  r ← Eval opmap (val t);
  let n1 := Errorf_if (¬ passes t r.1 r.2) in
  len ← Mgets Length;
  let n2 := Errorf_if (len ≠ 0) in
  emp ← Mgets Empty;
  let n3 := Errorf_if (emp ≠ true) in
  mret (n1 + n2 + n3)%nat.

(** [for _, tt := range forthTests { ... }] *)
Fixpoint run_tests (tts : list forthTest) : M forthstack nat :=
  match tts with
  | [] => mret 0%nat
  | t :: tts' => n ← run_test t; m ← run_tests tts'; mret (n + m)%nat
  end.

(** The checks of a new stack, before and after [Push("test")] and after
    [Reset()]. *)
Definition check_new : M forthstack nat :=
  len ← Mgets Length; let n1 := Errorf_if (len ≠ 0) in
  emp ← Mgets Empty; let n2 := Errorf_if (emp ≠ true) in
  Push "test";;
  len ← Mgets Length; let n3 := Errorf_if (len ≠ 1) in
  emp ← Mgets Empty; let n4 := Errorf_if (emp = true) in
  Reset;;
  len ← Mgets Length; let n5 := Errorf_if (len ≠ 0) in
  emp ← Mgets Empty; let n6 := Errorf_if (emp ≠ true) in
  mret (n1 + n2 + n3 + n4 + n5 + n6)%nat.

(** [forthTests[0].res,_ = os.Hostname()]: the result expected of the first
    entry is the host name, the empty string when it cannot be read. *)
Definition set_hostname (tts : list forthTest) : list forthTest :=
  alter (λ t, {| val := val t; res := default "" os_Hostname; err := err t |})
    0%nat tts.

(** [TestForth]: the number of failures recorded, or the panic that ends
    the test. *)
Definition TestForth : outcome nat :=
  let test : M forthstack nat :=
    n ← check_new; m ← run_tests (set_hostname forthTests); mret (n + m)%nat in
  (test New).2.

End Tests.

(** ** The test passes *)

(** The checks of a new stack record no failure and leave it empty. *)
Lemma check_new_New : check_new New = (New, Done 0%nat).
Proof. reflexivity. Qed.

(** The first entry, with the result expected set to the host name [h]. *)
Lemma run_test_hostname `{IntSize} `{HostEnv} h :
  os_Hostname = Some h →
  run_test {| val := "hostname"; res := h; err := "" |} New = (New, Done 0%nat).
Proof.
  intros Hh. unfold run_test. cbn [val]. munfold.
  rewrite Eval_one_token by done.
  change (lookup_op opmap "hostname") with (Some (hostname (F := forthstack))).
  unfold hostname. rewrite Hh. simpl.
  unfold passes. simpl. by rewrite bool_decide_eq_true_2.
Qed.

(** The first entry when the host name cannot be read. *)
Lemma run_test_no_hostname `{IntSize} `{HostEnv} r :
  os_Hostname = None →
  run_test {| val := "hostname"; res := r; err := "" |} New =
    (New, Panicked (PanicRuntime TypeAssertionFailed)).
Proof.
  intros Hh. unfold run_test. cbn [val]. munfold.
  rewrite Eval_one_token by done.
  change (lookup_op opmap "hostname") with (Some (hostname (F := forthstack))).
  unfold hostname. by rewrite Hh.
Qed.

(** The entries after the first, whatever the width of [int] and the
    host. *)
Lemma run_tests_tail `{IntSize} `{HostEnv} :
  run_tests (tail forthTests) New = (New, Done 0%nat).
Proof. destruct H as [bits [-> | ->]]; by vm_compute. Qed.

Lemma TestForth_unfold `{IntSize} `{HostEnv} :
  TestForth =
    ((n ← check_new;
      m ← (n' ← run_test
                  {| val := "hostname"; res := default "" os_Hostname; err := "" |};
           m' ← run_tests (tail forthTests); mret (n' + m')%nat);
      mret (n + m)%nat) New).2.
Proof. reflexivity. Qed.

(** C8: the package's test passes.  With a 32-bit or a 64-bit [int],
    on a host whose name can be read, [TestForth] ends without a panic and
    without a failure: the checks of the new stack hold, each of the 16
    entries of the table passes, and the stack is empty after each. *)
Theorem TestForth_passes `{IntSize} `{HostEnv} h :
  os_Hostname = Some h → TestForth = Done 0%nat.
Proof.
  intros Hh. rewrite TestForth_unfold, Hh. munfold. simpl default.
  by rewrite check_new_New, (run_test_hostname h Hh), run_tests_tail.
Qed.

(** C35: on a host whose name cannot be read the test crashes.  The
    first entry evaluates "hostname", whose panic value is a string: the type
    assertion of [errRecover] panics, [Eval] does not return, and [TestForth]
    ends with that run-time panic before it has checked any entry. *)
Theorem TestForth_crashes `{IntSize} `{HostEnv} :
  os_Hostname = None →
  TestForth = Panicked (PanicRuntime TypeAssertionFailed).
Proof.
  intros Hh. rewrite TestForth_unfold. munfold.
  by rewrite check_new_New, (run_test_no_hostname _ Hh).
Qed.

(** ** The checks of the stack after an entry *)

(** The two checks after an entry record nothing on an empty stack and a
    failure each on any other. *)
Lemma stack_checks (f : forthstack) :
  (Errorf_if (Length f ≠ 0%Z) + Errorf_if (Empty f ≠ true))%nat =
    if decide (depth f = 0%nat) then 0%nat else 2%nat.
Proof.
  rewrite Empty_Length. unfold depth, Errorf_if. pose proof (Length_nonneg f).
  case_bool_decide; repeat case_decide; (done || lia).
Qed.

(** C27: the checks of the stack after an entry of the test table.  For
    every entry, not only the 16 of the table, and every stack the loop
    can be at: when the evaluation returns, the entry records the failure
    of the comparison, if it fails, and two more failures exactly when the
    evaluation returned a result for an input that does not check with a
    final depth of one.  After an error, and after a result of an input that
    leaves one value, the stack is empty and both checks hold. *)
Theorem run_test_stack_checks `{IntSize} `{HostEnv} t f f' n :
  run_test t f = (f', Done n) →
  ∃ r e, Eval opmap (val t) f = (f', Done (r, e)) ∧
    n = (Errorf_if (¬ passes t r e) +
         (if decide (e = None ∧ ¬ typed effects (Split (val t) " ") (depth f) 1)
          then 2 else 0))%nat.
Proof.
  unfold run_test. munfold. rewrite Eval_unfold.
  pose proof (eval_body_depth (val t) f) as Hd.
  destruct (eval_body opmap (val t) f) as [f1 [r|[msg|?|?]]]; simpl in *; [| |done..];
    intros [= <- <-]; eexists _, _; (split; [done|]);
    rewrite <- Nat.add_assoc, stack_checks; f_equal.
  - destruct (decide (depth f1 = 0%nat)) as [Hz|Hz].
    + rewrite Hz in Hd. rewrite decide_False; [done | tauto].
    + rewrite decide_True; [done|]. split; [done|]. intros H1.
      by pose proof (typed_functional _ _ _ _ _ Hd H1) as [= ?].
  - destruct Hd as [[Hp | [Hp | [Hp _]]] He]; [|done..].
    rewrite decide_True, decide_False; [done | by intros [? _] |].
    assert (Hc : contents f1 = []) by by apply Empty_true_contents, He.
    by rewrite depth_contents, Hc.
Qed.

(** The depth check on the table: the input of an entry that expects a
    result checks, from the empty stack, with a final depth of one, and the
    input of the entry that expects the error leaves nothing to pop.  So no
    entry of the table leaves a value behind. *)
Lemma forthTests_check :
  Forall (λ t, check effects (Split (val t) " ") 0 =
               Some (if decide (err t = "") then 1 else 0)%nat) forthTests.
Proof. repeat constructor. Qed.

Lemma TestForth_passes_witness :
  @os_Hostname host_sb43 = Some "sb43" ∧ @TestForth int64 host_sb43 = Done 0%nat.
Proof.
  split; [reflexivity|].
  exact (@TestForth_passes int64 host_sb43 "sb43" eq_refl).
Defined.

Lemma TestForth_crashes_witness :
  @os_Hostname host_unknown = None ∧
  @TestForth int32 host_unknown = Panicked (PanicRuntime TypeAssertionFailed).
Proof.
  split; [reflexivity|].
  exact (@TestForth_crashes int32 host_unknown eq_refl).
Defined.

#[local] Existing Instance int64.
#[local] Existing Instance host_sb43.

(** The entry "1 2" returns "2" and leaves "1": the comparison holds and
    both checks of the stack fail. *)
Lemma run_test_stack_checks_witness :
  run_test {| val := "1 2"; res := "2"; err := "" |} New =
    ({| stack := ["1"] |}, Done 2%nat) ∧
  ∃ r e, Eval opmap "1 2" New = ({| stack := ["1"] |}, Done (r, e)) ∧
    2%nat = (Errorf_if (¬ passes {| val := "1 2"; res := "2"; err := "" |} r e) +
             (if decide (e = None ∧ ¬ typed effects (Split "1 2" " ") (depth New) 1)
              then 2 else 0))%nat.
Proof.
  assert (Hrun : run_test {| val := "1 2"; res := "2"; err := "" |} New =
                   ({| stack := ["1"] |}, Done 2%nat)) by reflexivity.
  split; [done|].
  exact (run_test_stack_checks _ New _ 2%nat Hrun).
Defined.
