(* ===== verification/Session.v ===== *)
(** * Session: the package as its clients drive it

    A client of the package makes stacks with [New] and calls their methods
    and [Eval] in some order.  The stacks are separate objects; the operator
    table is one package-level variable: [Newop], though a method of a stack,
    writes the table that every stack is evaluated with (src/forth.go:17-30,
    46-48, 96).  This file makes that sharing explicit.  The state of a
    session ([world]) is the table and the stacks made so far; a call is
    addressed to a stack by its index.  [do_call] runs one call; [step] is the
    same as a relation, one rule for each function of the API; [session]
    collects the worlds that sequences of calls lead to.

    The theorems: the relation is the function; the table of a session is
    that of its [Newop] calls alone; a call leaves every stack but the one
    addressed alone; an operator registered through one stack is the one
    [Eval] calls on any other; [Eval] in a session that never called
    [Newop] has the four ways out of the initial table; and in a session of
    tidy calls (inputs that [Effect.check] finds balanced or failing, no
    [Push], no [Newop]) every stack is empty after every call; and in a
    session whose registrations are of operators that have an effect, the
    depth check is sound for the table the session has built. *)

From S2P Require Import Prelude GoInt GoStrconv GoStrings Stack Ops Eval Effect Depth.

(** The calls of the API, with the index of the stack that receives them. *)
Inductive call : Type :=
| CNew
| CPush (i : nat) (s : string)
| CPop (i : nat)
| CLength (i : nat)
| CEmpty (i : nat)
| CNewop (i : nat) (n : string) (fn : forthop forthstack)
| CReset (i : nat)
| CEval (i : nat) (s : string).

(** What a call returns. *)
Inductive reply : Type :=
| RNew (i : nat)
| RUnit
| RString (s : string)
| RInt (z : Z)
| RBool (b : bool)
| REval (ret : string) (err : option os_Error).

(** The stack a call is addressed to. *)
Definition target (c : call) : option nat :=
  match c with
  | CNew => None
  | CPush i _ | CPop i | CLength i | CEmpty i | CNewop i _ _ | CReset i | CEval i _ =>
    Some i
  end.

Definition is_Newop (c : call) : bool :=
  match c with CNewop _ _ _ => true | _ => false end.

Section Session.
Context `{IntSize} `{HostEnv}.

(** The package-level variable [opmap] and the stacks allocated by [New]. *)
Record world : Type := {
  w_opmap : gmap string (forthop forthstack);
  w_stacks : list forthstack
}.

(** The state when the package has been initialised and nothing called. *)
Definition init : world := {| w_opmap := opmap; w_stacks := [] |}.

Definition set_stack (w : world) (i : nat) (f : forthstack) : world :=
  {| w_opmap := w_opmap w; w_stacks := <[i := f]> (w_stacks w) |}.

Definition add_stack (w : world) : world :=
  {| w_opmap := w_opmap w; w_stacks := w_stacks w ++ [New] |}.

Definition set_opmap (w : world) (ops : gmap string (forthop forthstack)) : world :=
  {| w_opmap := ops; w_stacks := w_stacks w |}.

(** A method [m] called on the stack [i]: the stack is updated in place,
    also when the method panics. *)
Definition method {A} (i : nat) (m : M forthstack A) (k : A → reply) (w : world) :
    option (world * outcome reply) :=
  f ← w_stacks w !! i;
  Some (set_stack w i (m f).1, k <$> (m f).2).

(** One call.  [None]: the call is addressed to a stack that does not
    exist. *)
Definition do_call (c : call) (w : world) : option (world * outcome reply) :=
  match c with
  | CNew => Some (add_stack w, Done (RNew (length (w_stacks w))))
  | CPush i s => method i (Push s) (λ _, RUnit) w
  | CPop i => method i Pop RString w
  | CLength i => method i (Mgets Length) RInt w
  | CEmpty i => method i (Mgets Empty) RBool w
  | CNewop i n fn =>
    _ ← w_stacks w !! i; Some (set_opmap w (Newop n fn (w_opmap w)), Done RUnit)
  | CReset i => method i Reset (λ _, RUnit) w
  | CEval i s => method i (Eval (w_opmap w) s) (λ r, REval r.1 r.2) w
  end.

(** The same, as a relation: [step w c r w'] when the call [c] in the world
    [w] returns (or panics with) [r] and leaves the world [w']. *)
Inductive step : world → call → outcome reply → world → Prop :=
| step_New w :
    step w CNew (Done (RNew (length (w_stacks w)))) (add_stack w)
| step_Push w i s f f' o :
    w_stacks w !! i = Some f → forthstack_Push s f = (f', o) →
    step w (CPush i s) ((λ _, RUnit) <$> o) (set_stack w i f')
| step_Pop w i f f' o :
    w_stacks w !! i = Some f → forthstack_Pop f = (f', o) →
    step w (CPop i) (RString <$> o) (set_stack w i f')
| step_Length w i f :
    w_stacks w !! i = Some f →
    step w (CLength i) (Done (RInt (forthstack_Length f))) (set_stack w i f)
| step_Empty w i f :
    w_stacks w !! i = Some f →
    step w (CEmpty i) (Done (RBool (forthstack_Empty f))) (set_stack w i f)
| step_Newop w i n fn f :
    w_stacks w !! i = Some f →
    step w (CNewop i n fn) (Done RUnit) (set_opmap w (Newop n fn (w_opmap w)))
| step_Reset w i f f' o :
    w_stacks w !! i = Some f → forthstack_Reset f = (f', o) →
    step w (CReset i) ((λ _, RUnit) <$> o) (set_stack w i f')
| step_Eval w i s f f' o :
    w_stacks w !! i = Some f → Eval (w_opmap w) s f = (f', o) →
    step w (CEval i s) ((λ r, REval r.1 r.2) <$> o) (set_stack w i f').

(** The worlds that a sequence of calls leads to from [init], whatever the
    client does with the panics on the way. *)
Inductive session : list call → world → Prop :=
| session_init : session [] init
| session_call cs w c r w' :
    session cs w → step w c r w' → session (cs ++ [c]) w'.

(** The table that the [Newop] calls of a sequence build. *)
Definition opmap_after (cs : list call) : gmap string (forthop forthstack) :=
  foldl (λ ops c, match c with CNewop _ n fn => Newop n fn ops | _ => ops end)
    opmap cs.

(** A call is tidy when it cannot leave a value on an empty stack: it is
    not [Push], it does not register an operator, and when it is [Eval], its
    input cannot crash and does not check with more than one value left.
    The inputs of the package's test are of this kind. *)
Definition tidy (c : call) : Prop :=
  match c with
  | CNew | CPop _ | CLength _ | CEmpty _ | CReset _ => True
  | CEval _ s =>
    crash_free (Split s " ") ∧ ∀ m, check effects (Split s " ") 0 ≠ Some (S (S m))
  | CPush _ _ | CNewop _ _ _ => False
  end.

(** A call declares the effect of what it registers when the operator acts
    on the contents of the stack as a computation that has an effect.  A
    registration of nil withdraws the name; every other call registers
    nothing. *)
Definition declares (c : call) : Prop :=
  match c with
  | CNewop _ _ (Some fn) =>
    ∃ (fn' : M lifo unit) e, refines contents fn fn' ∧ has_effect fn' e
  | _ => True
  end.

(** A sequence of calls, run from [w]; the replies are dropped. *)
Fixpoint run (cs : list call) (w : world) : option world :=
  match cs with
  | [] => Some w
  | c :: cs' => r ← do_call c w; run cs' r.1
  end.

(** ** The relation is the function *)

Lemma method_step {A} i (m : M forthstack A) k w w' r :
  method i m k w = Some (w', r) ↔
  ∃ f, w_stacks w !! i = Some f ∧ w' = set_stack w i (m f).1 ∧ r = k <$> (m f).2.
Proof.
  unfold method. destruct (w_stacks w !! i) as [f|]; simpl.
  - split; [intros [= <- <-]; eauto | by intros (f0 & [= <-] & -> & ->)].
  - split; [done | by intros (f0 & [=] & _)].
Qed.

Lemma step_do_call w c r w' : step w c r w' ↔ do_call c w = Some (w', r).
Proof.
  split.
  - destruct 1; simpl; try apply method_step; try (by eexists; split_and!);
      try match goal with Hm : _ = (_, _) |- _ =>
        by eexists; rewrite Hm end.
    by simplify_option_eq.
  - destruct c; simpl; try (intros (f & Hf & -> & ->)%method_step);
      try (by econstructor; [done | apply surjective_pairing]);
      try (by econstructor).
    + intros [= <- <-]. constructor.
    + destruct (w_stacks w !! i) as [f|] eqn:Hf; simpl; [|done].
      intros [= <- <-]. by econstructor.
Qed.

(** A sequence of calls that runs is a session. *)
Lemma session_app cs0 cs w0 w :
  session cs0 w0 → run cs w0 = Some w → session (cs0 ++ cs) w.
Proof.
  revert cs0 w0. induction cs as [|c cs IH]; intros cs0 w0 Hs Hr; simpl in Hr.
  - simplify_eq. by rewrite app_nil_r.
  - destruct (do_call c w0) as [[w1 r]|] eqn:Hc; [|done]. simpl in Hr.
    rewrite cons_middle, app_assoc. eapply IH; [|done].
    econstructor; [done | by apply step_do_call].
Qed.

Lemma session_run cs w : run cs init = Some w → session cs w.
Proof. apply (session_app [] cs init), session_init. Qed.

(** ** The table of a session *)

Lemma opmap_after_snoc cs c :
  opmap_after (cs ++ [c]) =
    match c with
    | CNewop _ n fn => Newop n fn (opmap_after cs)
    | _ => opmap_after cs
    end.
Proof. unfold opmap_after. by rewrite foldl_app. Qed.

(** [Newop] is the one call that writes the table. *)
Lemma step_opmap w c r w' :
  step w c r w' →
  w_opmap w' =
    match c with
    | CNewop _ n fn => Newop n fn (w_opmap w)
    | _ => w_opmap w
    end.
Proof. by destruct 1. Qed.

(** The table of a session is the one its [Newop] calls build, in their
    order, whichever stacks they were addressed to. *)
Lemma session_opmap cs w : session cs w → w_opmap w = opmap_after cs.
Proof.
  induction 1 as [|cs w c r w' _ IH Hstep]; [done|].
  by rewrite opmap_after_snoc, (step_opmap _ _ _ _ Hstep), IH.
Qed.

Lemma opmap_after_no_Newop cs :
  Forall (λ c, is_Newop c = false) cs → opmap_after cs = opmap.
Proof.
  induction cs as [|c cs IH] using rev_ind; [done|].
  intros [Hcs Hc%Forall_inv]%Forall_app.
  rewrite opmap_after_snoc, IH by done. by destruct c.
Qed.

(** ** Tidy sessions *)

Lemma Empty_New (f : forthstack) : Empty f = true → f = New.
Proof. by destruct f as [[|x l]]. Qed.

Lemma depth_New (f : forthstack) : depth f = 0%nat → f = New.
Proof.
  rewrite depth_contents. unfold contents. simpl. unfold forthstack_contents.
  rewrite length_reverse. by destruct f as [[|x l]].
Qed.

(** [Eval] of a tidy input on a new stack returns and leaves it new. *)
Lemma Eval_tidy s f' o :
  crash_free (Split s " ") → (∀ m, check effects (Split s " ") 0 ≠ Some (S (S m))) →
  Eval opmap s New = (f', o) → f' = New ∧ ∃ ret err, o = Done (ret, err).
Proof.
  intros Hb%(eval_body_decided s New) Hm. rewrite Eval_unfold.
  change (depth New) with 0%nat in Hb.
  destruct (check effects (Split s " ") 0) as [[|[|m]]|];
    [destruct Hb as (f1 & -> & Hf) | destruct Hb as (f1 & ret & -> & Hf)
    | by destruct (Hm m) | destruct Hb as (f1 & -> & Hf)];
    simpl; intros [= <- <-];
    (split; [first [by apply Empty_New | by apply depth_New] | by eauto]).
Qed.

(** A tidy call keeps the table and keeps every stack new. *)
Lemma tidy_step w c r w' :
  tidy c → w_opmap w = opmap → Forall (λ f, f = New) (w_stacks w) →
  step w c r w' →
  w_opmap w' = opmap ∧ Forall (λ f, f = New) (w_stacks w').
Proof.
  intros Ht Ho Hs Hstep.
  split; [rewrite (step_opmap _ _ _ _ Hstep); by destruct c|].
  destruct Hstep as [w | | w i f f' o Hf Hm | w i f Hf | w i f Hf |
                     | w i f f' o Hf Hm | w i s f f' o Hf Hm];
    simpl in *; [by apply Forall_app_2; [|constructor] | done | .. | done | |];
    pose proof (Forall_lookup_1 _ _ _ _ Hs Hf) as ->;
    apply Forall_insert; try done.
  - by injection Hm as <- _.
  - by injection Hm as <- _.
  - rewrite Ho in Hm. destruct Ht as [Hc Hd]. by apply (Eval_tidy s f' o).
Qed.

(** The stacks are separate objects.  A call changes no stack but
    the one it is addressed to: any other stack of the world is the same after
    the call as before, whatever the call returns or panics with. *)
Theorem step_frame w c r w' j f :
  step w c r w' → w_stacks w !! j = Some f → target c ≠ Some j →
  w_stacks w' !! j = Some f.
Proof.
  destruct 1; simpl; intros Hj Ht; [by apply lookup_app_l_Some|..];
    by rewrite ?list_lookup_insert_ne by congruence.
Qed.

(** C34: the operator table is shared.  An operator registered by
    [Newop] through one stack is the operator that [Eval] calls for that name
    on any other stack: [Eval] of the name on the stack [j] runs [fn] on it,
    pops the result, and goes out through [errRecover]. *)
Theorem Newop_reaches_every_stack w i j n fn r1 w1 f r2 w2 :
  n ≠ "" → no_sep " " n →
  step w (CNewop i n (Some fn)) r1 w1 → w_stacks w !! j = Some f →
  step w1 (CEval j n) r2 w2 →
  r2 = (λ r, REval r.1 r.2) <$> Eval_return ((fn;; Pop) f).2 ∧
  w_stacks w2 !! j = Some ((fn;; Pop) f).1.
Proof.
  intros Hne Hsp H1 Hj H2. inversion H1 as [| | | | |? ? ? ? fi Hi| |]; subst.
  inversion H2 as [| | | | | | |? ? ? fj f' o Hj' HE]; subst. simpl in Hj', HE.
  rewrite Hj in Hj'. injection Hj' as <-.
  rewrite Eval_one_token, lookup_op_Newop_eq in HE by done.
  change (default (Push n) (Some fn)) with fn in HE.
  destruct ((fn;; Pop) f) as [f1 o1]. simplify_eq/=.
  split; [done|]. apply list_lookup_insert_eq. by eapply lookup_lt_Some.
Qed.

(** [Eval] in a session that never called [Newop].  Whatever was
    pushed, popped and evaluated before, on whichever stacks, the table is the
    initial one, and a call of [Eval] has these ways out: a result and no
    error; the error "Empty stack"; the run-time panic of a division by zero;
    or, on a host whose name cannot be read, the run-time panic of the type
    assertion in [errRecover]. *)
Theorem session_Eval_ways_out cs w i s r w' :
  session cs w → Forall (λ c, is_Newop c = false) cs →
  step w (CEval i s) r w' →
  (∃ ret, r = Done (REval ret None)) ∨
  r = Done (REval "" (Some "Empty stack")) ∨
  r = Panicked (PanicRuntime DivideByZero) ∨
  (r = Panicked (PanicRuntime TypeAssertionFailed) ∧ os_Hostname = None).
Proof.
  intros Hs Hcs Hstep.
  inversion Hstep as [| | | | | | |? ? ? f f' o Hi HE]; subst.
  rewrite (session_opmap cs w Hs), (opmap_after_no_Newop cs Hcs), Eval_unfold in HE.
  apply (f_equal snd) in HE. simpl in HE. subst o.
  destruct (Eval_return_ways_out _ (eval_body_outcome s f))
    as [[ret ->] | [-> | [-> | [-> ?]]]]; simpl; eauto.
Qed.

(** C29: the stacks of a tidy session are empty after every call.  In a
    session of calls that are New, Pop, Length, Empty, Reset, or Eval of an
    input that cannot crash and does not check with more than one value
    left, the table is the initial one and every stack is as New made it,
    whatever the number of stacks and the order of the calls; and the next
    such Eval returns to its caller (a result, or the error
    "Empty stack"): it does not panic. *)
Theorem tidy_session_empty cs w :
  session cs w → Forall tidy cs →
  w_opmap w = opmap ∧ Forall (λ f, f = New) (w_stacks w) ∧
  ∀ i s r w', tidy (CEval i s) → step w (CEval i s) r w' →
              ∃ ret err, r = Done (REval ret err).
Proof.
  intros Hs Hcs.
  assert (Hinv : w_opmap w = opmap ∧ Forall (λ f, f = New) (w_stacks w)).
  { induction Hs as [|cs w c r w' _ IH Hstep]; [done|].
    apply Forall_app in Hcs as [Hcs Hc%Forall_inv].
    destruct (IH Hcs). by eapply tidy_step. }
  destruct Hinv as [Ho Hn]. split_and!; [done..|].
  intros i s r w' [Hc Hd] Hstep.
  inversion Hstep as [| | | | | | |? ? ? f f' o Hf HE]; subst.
  rewrite Ho, (Forall_lookup_1 _ _ _ _ Hn Hf) in HE.
  destruct (Eval_tidy s f' o Hc Hd HE) as (_ & ret & err & ->).
  by exists ret, err.
Qed.

(** ** Sessions that declare the effects of what they register *)

(** A call that declares what it registers keeps the table declared. *)
Lemma step_declared w c r w' effs :
  step w c r w' → declares c → table_declared (w_opmap w) effs →
  ∃ effs', table_declared (w_opmap w') effs'.
Proof.
  intros Hstep Hc Hd. rewrite (step_opmap _ _ _ _ Hstep).
  destruct c as [| | | | |i n [fn|]| |]; try by eauto.
  - destruct Hc as (fn' & e & Hfn & He). eexists. by eapply Newop_declared.
  - eexists. by apply Newop_nil_declared.
Qed.

(** C28: the depth check in a session that extends the table.  After any
    sequence of calls, on any number of stacks, whose registrations are of
    operators that have an effect, there is a table of effects for the
    operator table of the package, the registered operators included, under
    which the depth check is sound: a call of Eval on any stack, with an
    input whose tokens check on the depth of that stack, does not return the
    error "Empty stack", and when it returns no error it leaves the depth the
    check computed less the result. *)
Theorem declared_session_sound cs w :
  session cs w → Forall declares cs →
  ∃ effs, table_declared (w_opmap w) effs ∧
    ∀ s f m f' ret err,
      typed effs (Split s " ") (depth f) (S m) →
      Eval (w_opmap w) s f = (f', Done (ret, err)) →
      err ≠ Some "Empty stack" ∧ (err = None → depth f' = m).
Proof.
  intros Hs Hcs.
  assert (∃ effs, table_declared (w_opmap w) effs) as (effs & Hd).
  { induction Hs as [|cs w c r w' _ IH Hstep];
      [exists effects; apply opmap_table_declared|].
    apply Forall_app in Hcs as [Hcs Hc%Forall_inv].
    destruct (IH Hcs) as (effs & Hd). by eapply step_declared. }
  exists effs. split; [done|]. intros s f m f' ret err.
  destruct Hd as (ops' & Hr & Hd). by apply (Eval_sound_table _ ops').
Qed.

End Session.

(** ** The properties at concrete inputs: 64-bit [int], host "sb43" *)

#[local] Existing Instance int64.
#[local] Existing Instance host_sb43.

(** Two new stacks, the second holding "5". *)
Definition two_stacks : world :=
  {| w_opmap := opmap; w_stacks := [New; {| stack := ["5"] |}] |}.

(** An operator that changes the sign of the number on top. *)
Definition neg : M forthstack unit := Push "-1";; times.

Lemma step_frame_witness :
  step two_stacks (CPush 0 "x") (Done RUnit)
    (set_stack two_stacks 0 {| stack := ["x"] |}) ∧
  w_stacks two_stacks !! 1%nat = Some {| stack := ["5"] |} ∧
  target (CPush 0 "x") ≠ Some 1%nat ∧
  w_stacks (set_stack two_stacks 0 {| stack := ["x"] |}) !! 1%nat =
    Some {| stack := ["5"] |}.
Proof.
  assert (Hs : step two_stacks (CPush 0 "x") (Done RUnit)
                 (set_stack two_stacks 0 {| stack := ["x"] |}))
    by (by apply step_do_call).
  assert (Ht : target (CPush 0 "x") ≠ Some 1%nat) by discriminate.
  refine (conj Hs (conj eq_refl (conj Ht _))).
  exact (step_frame _ _ _ _ 1%nat _ Hs eq_refl Ht).
Defined.

Lemma Newop_reaches_every_stack_witness :
  "neg" ≠ "" ∧ no_sep " " "neg" ∧
  step two_stacks (CNewop 0 "neg" (Some neg)) (Done RUnit)
    (set_opmap two_stacks (Newop "neg" (Some neg) opmap)) ∧
  step (set_opmap two_stacks (Newop "neg" (Some neg) opmap)) (CEval 1 "neg")
    (Done (REval "-5" None))
    (set_stack (set_opmap two_stacks (Newop "neg" (Some neg) opmap)) 1 New) ∧
  Done (REval "-5" None) =
    (λ r, REval r.1 r.2) <$> Eval_return ((neg;; Pop) {| stack := ["5"] |}).2.
Proof.
  assert (Hne : "neg" ≠ "") by discriminate.
  assert (Hsp : no_sep " " "neg") by exact I.
  assert (H1 : step two_stacks (CNewop 0 "neg" (Some neg)) (Done RUnit)
                 (set_opmap two_stacks (Newop "neg" (Some neg) opmap)))
    by (by apply step_do_call).
  assert (H2 : step (set_opmap two_stacks (Newop "neg" (Some neg) opmap))
                 (CEval 1 "neg") (Done (REval "-5" None))
                 (set_stack (set_opmap two_stacks (Newop "neg" (Some neg) opmap))
                    1 New))
    by (by apply step_do_call).
  refine (conj Hne (conj Hsp (conj H1 (conj H2 _)))).
  exact (proj1 (Newop_reaches_every_stack two_stacks 0 1 "neg" neg _ _
                  {| stack := ["5"] |} _ _ Hne Hsp H1 eq_refl H2)).
Defined.

Lemma session_Eval_ways_out_witness :
  session [CNew; CPush 0 "1"] (set_stack (add_stack init) 0 {| stack := ["1"] |}) ∧
  Forall (λ c, is_Newop c = false) [CNew; CPush 0 "1"] ∧
  step (set_stack (add_stack init) 0 {| stack := ["1"] |}) (CEval 0 "0 /")
    (Panicked (PanicRuntime DivideByZero)) (set_stack (add_stack init) 0 New) ∧
  ((∃ ret, Panicked (PanicRuntime DivideByZero) = Done (REval ret None)) ∨
   Panicked (PanicRuntime DivideByZero) = Done (REval "" (Some "Empty stack")) ∨
   @Panicked reply (PanicRuntime DivideByZero) = Panicked (PanicRuntime DivideByZero) ∨
   (@Panicked reply (PanicRuntime DivideByZero) =
      Panicked (PanicRuntime TypeAssertionFailed) ∧ os_Hostname = None)).
Proof.
  assert (Hs : session [CNew; CPush 0 "1"]
                 (set_stack (add_stack init) 0 {| stack := ["1"] |}))
    by (by apply session_run).
  assert (Hcs : Forall (λ c, is_Newop c = false) [CNew; CPush 0 "1"])
    by (by repeat constructor).
  assert (He : step (set_stack (add_stack init) 0 {| stack := ["1"] |})
                 (CEval 0 "0 /") (Panicked (PanicRuntime DivideByZero))
                 (set_stack (add_stack init) 0 New))
    by (by apply step_do_call).
  refine (conj Hs (conj Hcs (conj He _))).
  exact (session_Eval_ways_out _ _ 0%nat "0 /" _ _ Hs Hcs He).
Defined.

(** A stack, an input that checks and an input that does not: the stack is
    new after both. *)
Lemma tidy_session_empty_witness :
  session [CNew; CEval 0 "1 dup +"; CEval 0 "+"]
    {| w_opmap := opmap; w_stacks := [New] |} ∧
  Forall tidy [CNew; CEval 0 "1 dup +"; CEval 0 "+"] ∧
  (w_opmap {| w_opmap := opmap; w_stacks := [New] |} = opmap ∧
   Forall (λ f, f = New) (w_stacks {| w_opmap := opmap; w_stacks := [New] |}) ∧
   ∀ i s r w', tidy (CEval i s) →
     step {| w_opmap := opmap; w_stacks := [New] |} (CEval i s) r w' →
     ∃ ret err, r = Done (REval ret err)).
Proof.
  assert (Hs : session [CNew; CEval 0 "1 dup +"; CEval 0 "+"]
                 {| w_opmap := opmap; w_stacks := [New] |})
    by by apply session_run.
  assert (Ht : Forall tidy [CNew; CEval 0 "1 dup +"; CEval 0 "+"]).
  { repeat constructor; (compute_done || by intros m). }
  refine (conj Hs (conj Ht _)). exact (tidy_session_empty _ _ Hs Ht).
Defined.

(** A session that registers "double", the operator that adds the top of
    the stack to itself, through its one stack. *)
Definition doubled : world :=
  {| w_opmap := Newop "double" (Some double_fn) opmap;
     w_stacks := [{| stack := ["4"] |}] |}.

Lemma declared_session_sound_witness :
  session [CNew; CNewop 0 "double" (Some double_fn); CPush 0 "4"] doubled ∧
  Forall declares [CNew; CNewop 0 "double" (Some double_fn); CPush 0 "4"] ∧
  ∃ effs,
    table_declared (w_opmap doubled) effs ∧
    ∀ s (f : forthstack) m f' ret err,
      typed effs (Split s " ") (depth f) (S m) →
      Eval (w_opmap doubled) s f = (f', Done (ret, err)) →
      err ≠ Some "Empty stack" ∧ (err = None → depth f' = m).
Proof.
  assert (Hs : session [CNew; CNewop 0 "double" (Some double_fn); CPush 0 "4"]
                 doubled) by by apply session_run.
  assert (Hd : Forall declares
                 [CNew; CNewop 0 "double" (Some double_fn); CPush 0 "4"]).
  { repeat constructor. exists double_fn, (1, 1)%nat.
    split; [apply double_refines | apply double_effect]. }
  refine (conj Hs (conj Hd _)). exact (declared_session_sound _ _ Hs Hd).
Defined.
